(** * The search-enrich-report pipeline of the search agent

    A shallow embedding of [tools/url_shortener.py], [tools/search.py],
    [tools/utils.py], [tools/summarizer.py] (its page fetcher and its HTML
    cleaner) and [tools/agent.py], followed by the properties of the
    pipeline.

    Conventions.
    - A Python [str] is a list of Unicode code points ([list N]).
    - A Python [dict] used as a map is a [gmap]; the candidate dictionaries
      built by the search tool live in a store and are passed by reference.
    - Every coroutine is a computation in the monad [M]: it threads the
      program state (the two shortener caches, the store, the journal of
      external calls) and either returns or raises.
    - The outside world (TinyURL, Google, the scraped sites, the completion
      model) and the libraries whose code is not part of the repository
      (the HTML parser, the codecs) are parameters of the model.
    - A [print] of data of the program is a computation that raises
      [UnicodeEncodeError] on a text without UTF-8 encoding. *)

From Stdlib Require Import ZArith NArith List Bool Lia String Ascii DecimalString.
From stdpp Require Import gmap list.

Import ListNotations.
Local Open Scope N_scope.

(** ** Python strings *)

Abbreviation str := (list N).

(** Decoder used for the literals of this file only: the bytes of a Rocq
    string are read as UTF-8 (1 to 3 byte sequences), so that the literals of
    the Python source can be written as they are. *)
Fixpoint utf8_points (bs : list N) : str :=
  match bs with
  | [] => []
  | b :: r =>
      if b <? 128 then b :: utf8_points r
      else if b <? 224 then
        match r with
        | c :: r' => ((b - 192) * 64 + (c - 128)) :: utf8_points r'
        | _ => []
        end
      else
        match r with
        | c :: d :: r' =>
            ((b - 224) * 4096 + (c - 128) * 64 + (d - 128)) :: utf8_points r'
        | _ => []
        end
  end.

Definition py (s : string) : str :=
  utf8_points (map N_of_ascii (list_ascii_of_string s)).

Definition str_eqb (a b : str) : bool := bool_decide (a = b).

(** [s.startswith(p)] *)
Fixpoint startswith (p s : str) : bool :=
  match p, s with
  | [], _ => true
  | _ :: _, [] => false
  | a :: p', b :: s' => (a =? b) && startswith p' s'
  end.

(** [p in s] *)
Fixpoint str_in (p s : str) : bool :=
  startswith p s ||
  match s with
  | [] => false
  | _ :: s' => str_in p s'
  end.

(** Number of positions of [s] at which [p] starts. *)
Fixpoint occurrences (p s : str) : nat :=
  ((if startswith p s then 1 else 0) +
   match s with
   | [] => 0
   | _ :: s' => occurrences p s'
   end)%nat.

(** [str.isspace] on one code point, which is also the class [\s] of [re]
    on a [str] pattern. *)
Definition isspace (c : N) : bool :=
  ((9 <=? c) && (c <=? 13)) || ((28 <=? c) && (c <=? 32)) ||
  (c =? 133) || (c =? 160) || (c =? 5760) ||
  ((8192 <=? c) && (c <=? 8202)) || (c =? 8232) || (c =? 8233) ||
  (c =? 8239) || (c =? 8287) || (c =? 12288).

Fixpoint lstrip (s : str) : str :=
  match s with
  | c :: s' => if isspace c then lstrip s' else s
  | [] => []
  end.

Definition rstrip (s : str) : str := rev (lstrip (rev s)).

(** [s.strip()] *)
Definition strip (s : str) : str := rstrip (lstrip s).

(** [sep.join(parts)] *)
Fixpoint join (sep : str) (parts : list str) : str :=
  match parts with
  | [] => []
  | [p] => p
  | p :: rest => p ++ sep ++ join sep rest
  end.

(** [re.sub(r'\s+', ' ', s)]: every maximal run of white space becomes one
    space. [in_run] tells that the previous character was white space. *)
Fixpoint collapse_from (in_run : bool) (s : str) : str :=
  match s with
  | [] => []
  | c :: s' =>
      if isspace c then
        if in_run then collapse_from true s' else 32 :: collapse_from true s'
      else c :: collapse_from false s'
  end.

Definition collapse_spaces (s : str) : str := collapse_from false s.

(** ** [hashlib.md5(url.encode()).hexdigest()] *)

(** [str.encode()]: UTF-8; a surrogate code point makes Python raise
    [UnicodeEncodeError], which is [None] here. *)
Definition encode_point (c : N) : option (list N) :=
  if c <? 128 then Some [c]
  else if c <? 2048 then Some [192 + c / 64; 128 + c mod 64]
  else if (55296 <=? c) && (c <=? 57343) then None
  else if c <? 65536 then
    Some [224 + c / 4096; 128 + (c / 64) mod 64; 128 + c mod 64]
  else if c <? 1114112 then
    Some [240 + c / 262144; 128 + (c / 4096) mod 64;
          128 + (c / 64) mod 64; 128 + c mod 64]
  else None.

Fixpoint encode (s : str) : option (list N) :=
  match s with
  | [] => Some []
  | c :: s' =>
      match encode_point c, encode s' with
      | Some b, Some r => Some (b ++ r)
      | _, _ => None
      end
  end.

Module MD5.

Definition wrap (x : N) : N := x mod 4294967296.

Definition rotl (x : N) (c : N) : N :=
  wrap (N.lor (N.shiftl x c) (N.shiftr x (32 - c))).

Definition lnot32 (x : N) : N := 4294967295 - x.

Definition shifts : list N :=
  [7; 12; 17; 22; 7; 12; 17; 22; 7; 12; 17; 22; 7; 12; 17; 22;
   5; 9; 14; 20; 5; 9; 14; 20; 5; 9; 14; 20; 5; 9; 14; 20;
   4; 11; 16; 23; 4; 11; 16; 23; 4; 11; 16; 23; 4; 11; 16; 23;
   6; 10; 15; 21; 6; 10; 15; 21; 6; 10; 15; 21; 6; 10; 15; 21].

Definition sines : list N :=
  [3614090360; 3905402710; 606105819; 3250441966; 4118548399; 1200080426;
   2821735955; 4249261313; 1770035416; 2336552879; 4294925233; 2304563134;
   1804603682; 4254626195; 2792965006; 1236535329; 4129170786; 3225465664;
   643717713; 3921069994; 3593408605; 38016083; 3634488961; 3889429448;
   568446438; 3275163606; 4107603335; 1163531501; 2850285829; 4243563512;
   1735328473; 2368359562; 4294588738; 2272392833; 1839030562; 4259657740;
   2763975236; 1272893353; 4139469664; 3200236656; 681279174; 3936430074;
   3572445317; 76029189; 3654602809; 3873151461; 530742520; 3299628645;
   4096336452; 1126891415; 2878612391; 4237533241; 1700485571; 2399980690;
   4293915773; 2240044497; 1873313359; 4264355552; 2734768916; 1309151649;
   4149444226; 3174756917; 718787259; 3951481745].

(** Message padding: a [0x80] byte, zeros up to 56 modulo 64, then the bit
    length on 8 little-endian bytes. *)
Definition le_bytes (n : nat) (x : N) : list N :=
  map (fun i => (x / 2 ^ (8 * N.of_nat i)) mod 256) (seq 0 n).

Definition pad (msg : list N) : list N :=
  let len := N.of_nat (length msg) in
  let zeros := N.to_nat ((119 - len mod 64) mod 64) in
  msg ++ [128] ++ repeat 0 zeros ++ le_bytes 8 (8 * len).

Fixpoint le_word (bs : list N) : N :=
  match bs with
  | [] => 0
  | b :: r => b + 256 * le_word r
  end.

Fixpoint words (n : nat) (bs : list N) : list N :=
  match n with
  | O => []
  | S n' => le_word (firstn 4 bs) :: words n' (skipn 4 bs)
  end.

Definition regs : Type := N * N * N * N.

Definition round (m : list N) (r : regs) (i : nat) : regs :=
  let '(a, b, c, d) := r in
  let i' := N.of_nat i in
  let '(f, g) :=
    if i' <? 16 then (N.lor (N.land b c) (N.land (lnot32 b) d), i')
    else if i' <? 32 then
      (N.lor (N.land d b) (N.land (lnot32 d) c), (5 * i' + 1) mod 16)
    else if i' <? 48 then (N.lxor (N.lxor b c) d, (3 * i' + 5) mod 16)
    else (N.lxor c (N.lor b (lnot32 d)), (7 * i') mod 16) in
  let f' := wrap (f + a + nth i sines 0 + nth (N.to_nat g) m 0) in
  (d, wrap (b + rotl f' (nth i shifts 0)), b, c).

Definition chunk (r : regs) (block : list N) : regs :=
  let '(a0, b0, c0, d0) := r in
  let '(a, b, c, d) := fold_left (round (words 16 block)) (seq 0 64) r in
  (wrap (a0 + a), wrap (b0 + b), wrap (c0 + c), wrap (d0 + d)).

Fixpoint chunks (n : nat) (r : regs) (bs : list N) : regs :=
  match n with
  | O => r
  | S n' => chunks n' (chunk r (firstn 64 bs)) (skipn 64 bs)
  end.

Definition digest (msg : list N) : list N :=
  let p := pad msg in
  let '(a, b, c, d) :=
    chunks (length p / 64)
      (1732584193, 4023233417, 2562383102, 271733878) p in
  le_bytes 4 a ++ le_bytes 4 b ++ le_bytes 4 c ++ le_bytes 4 d.

Definition hex_digit (x : N) : N := if x <? 10 then 48 + x else 87 + x.

Definition hexdigest (msg : list N) : str :=
  flat_map (fun b => [hex_digit (b / 16); hex_digit (b mod 16)]) (digest msg).

End MD5.

(** ** Program state, exceptions and the monad of coroutines *)

(** The dictionary built for one search result ([search], lines 75-82), with
    the key [full_content] that enrichment may add. [None] is an absent
    key. *)
Record candidate := Candidate {
  title : str;
  link : str;
  short_link : option str;
  snippet : str;
  source : str;
  published_date : str;
  full_content : option str
}.

(** [UrlShortener]: one object per owner, each with a cache of its own. *)
Record UrlShortener := MkShortener {
  use_external_api : bool;
  short_urls_cache : gmap str str
}.

(** The two objects that hold a shortener: [GoogleSearchTool.__init__]
    (search.py, line 24) and [LLMAgent.__init__] (agent.py, line 24). *)
Inductive owner := SearchTool | Agent.

#[global] Instance owner_eq_dec : EqDecision owner.
Proof. solve_decision. Defined.

(** Calls that leave the process, in the order they are made. *)
Inductive event :=
| TinyUrlGet (url : str)
| GoogleGet (q : str) (num : Z) (sort_by_date : bool)
| PageGet (url : str)
| Sleep (seconds : N)
| AnalysisCompletion (user_query : str)
| ReportCompletion (context : str).

Record state := MkState {
  search_tool_shortener : UrlShortener;
  agent_shortener : UrlShortener;
  store : gmap nat candidate;
  journal : list event
}.

Inductive exn :=
| HTTPError            (* httpx.HTTPError and its subclasses *)
| UnicodeEncodeError
| IndexError
| KeyError
| OtherException       (* any other subclass of Exception *)
| DanglingReference    (* a reference to no object: not a Python state *)
| OutOfFuel.           (* a loop of the model ran out of fuel *)

Inductive outcome (A : Type) :=
| Ret (a : A) (st : state)
| Raise (e : exn) (st : state).
Arguments Ret {A} a st.
Arguments Raise {A} e st.

Definition M (A : Type) : Type := state -> outcome A.

#[global] Instance M_ret : MRet M := fun A a st => Ret a st.

#[global] Instance M_bind : MBind M := fun A B f m st =>
  match m st with
  | Ret a st' => f a st'
  | Raise e st' => Raise e st'
  end.

Definition raise {A} (e : exn) : M A := fun st => Raise e st.

(** [try: body except C1: h1 except C2: h2 ...]: the first clause whose
    class catches the exception runs, on the state the body reached; what
    a handler raises is not caught by the clauses after it. *)
Definition clause (A : Type) : Type := (exn -> bool) * (exn -> M A).

Definition try_except {A} (body : M A) (clauses : list (clause A)) : M A := fun st =>
  match body st with
  | Ret a st' => Ret a st'
  | Raise e st' =>
      match find (fun cl : clause A => fst cl e) clauses with
      | Some cl => snd cl e st'
      | None => Raise e st'
      end
  end.

Definition is_HTTPError (e : exn) : bool :=
  match e with HTTPError => true | _ => false end.

(** [except Exception] and a bare [except]: everything a Python program can
    raise here; the two last constructors are not Python exceptions. *)
Definition is_Exception (e : exn) : bool :=
  match e with DanglingReference | OutOfFuel => false | _ => true end.

Definition get_state : M state := fun st => Ret st st.

Definition log (ev : event) : M unit := fun st =>
  Ret tt (MkState (search_tool_shortener st) (agent_shortener st) (store st)
            (journal st ++ [ev])).

Definition shortener_of (o : owner) (st : state) : UrlShortener :=
  match o with
  | SearchTool => search_tool_shortener st
  | Agent => agent_shortener st
  end.

Definition set_shortener (o : owner) (sh : UrlShortener) (st : state) : state :=
  match o with
  | SearchTool => MkState sh (agent_shortener st) (store st) (journal st)
  | Agent => MkState (search_tool_shortener st) sh (store st) (journal st)
  end.

Definition set_store (h : gmap nat candidate) (st : state) : state :=
  MkState (search_tool_shortener st) (agent_shortener st) h (journal st).

(** A new dictionary object. *)
Definition alloc (c : candidate) : M nat := fun st =>
  let r := fresh (dom (store st)) in
  Ret r (set_store (<[r := c]> (store st)) st).

Definition read (r : nat) : M candidate := fun st =>
  match store st !! r with
  | Some c => Ret c st
  | None => Raise DanglingReference st
  end.

Definition write (r : nat) (c : candidate) : M unit := fun st =>
  Ret tt (set_store (<[r := c]> (store st)) st).

(** [print(text)]: standard output encodes in UTF-8, as Python sets it up
    on a UTF-8 locale, so that a text with a lone surrogate makes [print]
    raise [UnicodeEncodeError]. The model has the prints whose text holds
    data of the program; a print of a constant text, of a number or of the
    message of an exception of a library ([str(e)]) cannot raise on these
    grounds and is left out. *)
Definition printable (text : str) : bool :=
  match encode text with
  | Some _ => true
  | None => false
  end.

Definition print_ (text : str) : M unit :=
  if printable text then mret tt else raise UnicodeEncodeError.

(** [for x in xs: body] where the body yields one value per element. *)
Fixpoint for_each {A B} (body : A -> M B) (xs : list A) : M (list B) :=
  match xs with
  | [] => mret []
  | x :: r => y ← body x; ys ← for_each body r; mret (y :: ys)
  end.

(** ** The outside world and the libraries *)

(** What [await client.get(...)] can do: raise an [httpx.HTTPError] (time
    out, connection or protocol error), raise something else (an invalid
    URL, for one), or return a response. *)
Inductive http_result :=
| RaisedHTTPError
| RaisedOther
| Response (status_code : N) (content_type : str) (content : list N).

(** One item of the [items] array of the search index. [metatags] is
    [item.get("pagemap", {}).get("metatags", [{}])] before its default
    applies: the list of the values of [article:published_time]. *)
Record item := Item {
  item_title : option str;
  item_link : option str;
  item_snippet : option str;
  item_metatags : option (list (option str))
}.

Inductive search_result :=
| SearchRaisedHTTPError
| SearchNotJson
| SearchJson (status_code : N) (items : option (list item)).

(** The value under the key [max_results] of the analysis: an integer, or
    a value that [min] cannot compare with 10 (null, a string, an array,
    an object). A JSON number with a fraction or a boolean, which [min]
    compares and the request would carry as it is, is left out of the
    model. *)
Inductive max_results_value :=
| IntValue (n : Z)
| Incomparable.

(** The parsed query analysis: the two keys the orchestrator reads, [None]
    for a missing key. *)
Record analysis := Analysis {
  search_query : option str;
  max_results : option max_results_value
}.

(** The world answers a call from the number of calls made before it and
    from the request. A completion that raises, or whose payload does not
    parse, is [None]. *)
Record world := World {
  tinyurl : nat -> str -> http_result;
  google : nat -> str -> Z -> bool -> search_result;
  site : nat -> str -> http_result;
  analyst : nat -> str -> option analysis;
  reporter : nat -> str -> option str
}.

(** A parsed document: the strings and the tags of the tree that
    [BeautifulSoup(html, 'html.parser')] builds. *)
#[warnings="-register-all"]
Inductive node :=
| Text (s : str)
| Tag (name : str) (classes : list str) (children : list node).

(** What [bytes.decode(charset)] does: it returns the text, or raises
    [UnicodeDecodeError], [LookupError] (no such codec, or a codec that is
    no text encoding) or another exception (the codec [undefined] raises
    [UnicodeError], a name with a null character [ValueError]). *)
Inductive decoded :=
| Decoded (text : str)
| RaisedUnicodeDecodeError
| RaisedLookupError
| RaisedOtherError.

(** What [''.encode(charset)] does, which the summarizer uses to test a
    character set: it returns, or raises [LookupError] or another
    exception. *)
Inductive encoder_lookup :=
| EncoderFound
| EncoderLookupError
| EncoderRaisedOther.

(** Library code that is not in the repository. [html_parser] is [None]
    when building the tree raises; [decode charset bytes] and
    [encoder charset] are the codecs of the standard library;
    [raises_for_status] tells for which status codes
    [Response.raise_for_status] raises. *)
Record libraries := Libraries {
  html_parser : str -> option (list node);
  decode : str -> list N -> decoded;
  encoder : str -> encoder_lookup;
  decode_utf8_replace : list N -> str;
  raises_for_status : N -> bool
}.

(** ** tools/url_shortener.py *)

Section UrlShortenerMethods.

Context (w : world).

(** [_shorten_with_external_api] (lines 43-63): the body of a 200 response,
    [None] for another status and for any exception. *)
Definition _shorten_with_external_api (url : str) : M (option str) :=
  st ← get_state;
  log (TinyUrlGet url);;
  mret (match tinyurl w (length (journal st)) url with
        | Response status_code _ text =>
            if status_code =? 200 then Some text else None
        | _ => None
        end).

(** [_shorten_locally] (lines 65-79). *)
Definition _shorten_locally (url : str) : M str :=
  match encode url with
  | Some bytes => mret (py "https://short.url/" ++ firstn 8 (MD5.hexdigest bytes))
  | None => raise UnicodeEncodeError
  end.

Definition cache_put (self : owner) (url shortened : str) : M unit := fun st =>
  let sh := shortener_of self st in
  Ret tt (set_shortener self
            (MkShortener (use_external_api sh)
               (<[url := shortened]> (short_urls_cache sh))) st).

Definition shorten_miss_local (self : owner) (url : str) : M str :=
  shortened ← _shorten_locally url;
  cache_put self url shortened;;
  mret shortened.

(** [shorten] (lines 18-41); [self] is the owner of the shortener. *)
Definition shorten (self : owner) (url : str) : M str :=
  st ← get_state;
  match short_urls_cache (shortener_of self st) !! url with
  | Some cached => mret cached
  | None =>
      if use_external_api (shortener_of self st) then
        shortened ← _shorten_with_external_api url;
        match shortened with
        | Some (c :: text) =>
            cache_put self url (c :: text);;
            mret (c :: text)
        | _ => shorten_miss_local self url
        end
      else shorten_miss_local self url
  end.

End UrlShortenerMethods.

(** ** The content extractor *)

(** [s.split(sep)] for a separator that is not empty; [skip] counts the
    characters of a separator just found that are still to be passed. *)
Fixpoint split_from (sep : str) (skip : nat) (piece : str) (s : str) : list str :=
  match s with
  | [] => [rev piece]
  | c :: s' =>
      match skip with
      | S k => split_from sep k piece s'
      | O =>
          if startswith sep s then rev piece :: split_from sep (length sep - 1) [] s'
          else split_from sep 0 (c :: piece) s'
      end
  end.

Definition split (sep s : str) : list str := split_from sep 0 [] s.

(** The names that [soup([...])] finds and [decompose] removes. *)
Definition removed_tags : list str :=
  map py ["script"; "style"; "meta"; "noscript"; "header"; "footer"; "nav"; "aside"]%string.

Definition has_name (names : list str) (name : str) : bool :=
  existsb (str_eqb name) names.

Fixpoint decompose (n : node) : list node :=
  match n with
  | Text s => [Text s]
  | Tag name classes children =>
      if has_name removed_tags name then []
      else [Tag name classes (flat_map decompose children)]
  end.

(** The tags of a tree in document order, the tag itself first. *)
Fixpoint tags (n : node) : list node :=
  match n with
  | Text _ => []
  | Tag _ _ children => n :: flat_map tags children
  end.

(** The selectors of the two cleaners: a tag name, or [div.<class>]. *)
Inductive selector :=
| ByName (name : str)
| DivWithClass (class : str).

Definition matches (sel : selector) (n : node) : bool :=
  match n, sel with
  | Tag name _ _, ByName wanted => str_eqb name wanted
  | Tag name classes _, DivWithClass class =>
      str_eqb name (py "div") && existsb (str_eqb class) classes
  | Text _, _ => false
  end.

(** [soup.select(sel)] and [soup.find_all(name)]. *)
Definition select (sel : selector) (soup : list node) : list node :=
  List.filter (fun n => matches sel n) (flat_map tags soup).

Fixpoint strings (n : node) : list str :=
  match n with
  | Text s => [s]
  | Tag _ _ children => flat_map strings children
  end.

(** [get_text(separator, strip=True)]: the stripped strings that are not
    empty, joined. *)
Definition stripped_strings (ns : list node) : list str :=
  List.filter (fun s => negb (str_eqb s [])) (map strip (flat_map strings ns)).

Definition get_text (separator : str) (ns : list node) : str :=
  join separator (stripped_strings ns).

(** [len(x.get_text(strip=True))], the key of both [max] calls. *)
Definition text_len (n : node) : nat := length (get_text [] [n]).

(** [max(first :: rest, key=text_len)]: the first of the maximal elements. *)
Fixpoint max_by_text_len (best : node) (rest : list node) : node :=
  match rest with
  | [] => best
  | x :: r =>
      if (text_len best <? text_len x)%nat then max_by_text_len x r
      else max_by_text_len best r
  end.

#[warnings="-abstract-large-number"]
Definition max_content_length : nat := 10000.

Definition truncation_marker : str := Eval vm_compute in py "...(內容過長，已截斷)".
Definition no_content_sentinel : str :=
  Eval vm_compute in py "無法從此頁面提取有意義的內容".
Definition error_sentinel : str := Eval vm_compute in py "內容處理錯誤".

Definition normalize (main_content : str) : str :=
  strip (collapse_spaces main_content).

(** Lines 244-254 of search.py: the marker is added when the text that was
    kept has the maximal length. *)
Definition limit_length (main_content : str) : str :=
  match main_content with
  | [] => no_content_sentinel
  | _ :: _ =>
      let kept := firstn max_content_length (normalize main_content) in
      if (length kept =? max_content_length)%nat then kept ++ truncation_marker
      else kept
  end.

(** Lines 263-274 of summarizer.py: the marker is added when the text that
    was kept is shorter than the text before the cut. *)
Definition limit_length_summarizer (main_content : str) : str :=
  match main_content with
  | [] => no_content_sentinel
  | _ :: _ =>
      let original_length := length (normalize main_content) in
      let kept := firstn max_content_length (normalize main_content) in
      if (length kept <? original_length)%nat then kept ++ truncation_marker
      else kept
  end.

(** [' '.join(p.get_text(strip=True) for p in paragraphs)], or the text of
    the whole page when there is no paragraph. *)
Definition paragraphs_or_page (soup : list node) : str :=
  match select (ByName (py "p")) soup with
  | [] => get_text [32] soup
  | paragraphs => join [32] (map (fun p => get_text [] [p]) paragraphs)
  end.

Definition content_selectors : list selector :=
  [ByName (py "article"); ByName (py "main"); DivWithClass (py "content");
   DivWithClass (py "article"); DivWithClass (py "post")].

Definition content_selectors_summarizer : list selector :=
  content_selectors ++ [ByName (py "body")].

(** The containers in the order of the selectors ([extend] of an empty list
    adds nothing, so the test [if elements] needs no case). *)
Definition potential_content_elements (sels : list selector) (soup : list node)
    : list node :=
  flat_map (fun sel => select sel soup) sels.

(** Lines 220-241 of search.py: the text of the longest container, or the
    paragraphs, or the page. *)
Definition main_content_of (soup : list node) : str :=
  match potential_content_elements content_selectors soup with
  | first :: rest => get_text [32] [max_by_text_len first rest]
  | [] => paragraphs_or_page soup
  end.

(** Lines 235-260 of summarizer.py: the containers of 100 characters or
    less are set aside, unless all are. The third branch of the [if] of
    the source (no element at all) cannot be reached inside
    [if potential_content_elements]. *)
Definition main_content_of_summarizer (soup : list node) : str :=
  match potential_content_elements content_selectors_summarizer soup with
  | first :: rest =>
      let longest_element :=
        match List.filter (fun el => (100 <? text_len el)%nat) (first :: rest) with
        | f :: r => max_by_text_len f r
        | [] => max_by_text_len first rest
        end in
      get_text [32] [longest_element]
  | [] => paragraphs_or_page soup
  end.

Section ContentExtractor.

Context (lib : libraries).

(** [GoogleSearchTool._clean_html_content] (search.py, lines 200-258), the
    cleaner that enrichment calls. An exception inside its [try] is a
    parser that raises. *)
Definition _clean_html_content (html_content : str) : str :=
  match html_parser lib html_content with
  | None => error_sentinel
  | Some parsed => limit_length (main_content_of (flat_map decompose parsed))
  end.

(** [ContentSummarizer._clean_html] (summarizer.py, lines 211-278), which
    the pipeline does not call. *)
Definition _clean_html (html_content : str) : str :=
  match html_parser lib html_content with
  | None => error_sentinel
  | Some parsed =>
      limit_length_summarizer (main_content_of_summarizer (flat_map decompose parsed))
  end.

End ContentExtractor.

(** ** tools/search.py *)

Definition max_urls_to_crawl : nat := 5.
Definition max_retries : N := 2.

(** [content_type.split('charset=')[-1].split(';')[0].strip()] *)
Definition charset_of (content_type : str) : str :=
  strip (default [] (head (split (py ";")
                             (default [] (last (split (py "charset=") content_type)))))).

Section GoogleSearchTool.

Context (w : world) (lib : libraries).

(** Lines 174-185: the declared character set, then UTF-8 with
    replacement when decoding raises [UnicodeDecodeError] or
    [LookupError]; another exception of the codec is not caught here. *)
Definition decode_content (content_type : str) (content : list N) : M str :=
  if str_in (py "charset=") content_type then
    match decode lib (charset_of content_type) content with
    | Decoded html_content => mret html_content
    | RaisedUnicodeDecodeError | RaisedLookupError =>
        mret (decode_utf8_replace lib content)
    | RaisedOtherError => raise OtherException
    end
  else mret (decode_utf8_replace lib content).

(** [await client.get(url)] on a scraped site. *)
Definition client_get (url : str) : M (N * str * list N) :=
  st ← get_state;
  log (PageGet url);;
  match site w (length (journal st)) url with
  | RaisedHTTPError => raise HTTPError
  | RaisedOther => raise OtherException
  | Response status_code content_type content =>
      mret (status_code, content_type, content)
  end.

Definition raise_for_status (status_code : N) : M unit :=
  if raises_for_status lib status_code then raise HTTPError else mret tt.

Definition sleep (seconds : N) : M unit := log (Sleep seconds).

(** What one turn of the loop of [get_page_content] decides. *)
Inductive turn :=
| Continue (retry_count : N)
| Return (html_content : option str).

(** The body of the [while] (lines 157-196). Of the texts of the prints
    of lines 169, 192 and 195 the model has the part up to the URL; what
    follows is a number, or the message of an exception of a library. *)
Definition attempt (url : str) (retry_count : N) : M turn :=
  try_except
    ('(status_code, content_type, content) ← client_get url;
     if (400 <=? status_code) && (status_code <? 600) then
       if retry_count <? max_retries then
         sleep 1;; mret (Continue (retry_count + 1))
       else
         print_ (py "無法訪問網站 " ++ url);;
         mret (Return None)
     else
       raise_for_status status_code;;
       html_content ← decode_content content_type content;
       mret (Return (Some html_content)))
    [(is_HTTPError,
      fun _ =>
        if retry_count <? max_retries then
          sleep 1;; mret (Continue (retry_count + 1))
        else
          print_ (py "HTTP錯誤 " ++ url);;
          mret (Return None));
     (is_Exception,
      fun _ =>
        print_ (py "無法獲取頁面內容 " ++ url);;
        mret (Return None))].

(** [while retry_count <= max_retries], and line 198 after the loop. *)
Fixpoint attempts (fuel : nat) (url : str) (retry_count : N) : M (option str) :=
  match fuel with
  | O => raise OutOfFuel
  | S fuel' =>
      if retry_count <=? max_retries then
        t ← attempt url retry_count;
        match t with
        | Continue retry_count' => attempts fuel' url retry_count'
        | Return html_content => mret html_content
        end
      else mret None
  end.

(** [get_page_content] (lines 136-198). *)
Definition get_page_content (url : str) : M (option str) :=
  attempts 3 url 0.

Definition with_full_content (c : candidate) (text : str) : candidate :=
  Candidate (title c) (link c) (short_link c) (snippet c) (source c)
    (published_date c) (Some text).

(** [result['short_link']] (line 112): [KeyError] for a missing key. *)
Definition short_link_of (c : candidate) : M str :=
  match short_link c with
  | Some short_url => mret short_url
  | None => raise KeyError
  end.

(** The body of the loop of [_enrich_search_results] (lines 109-128): the
    copy is a new object. The prints of lines 110, 123, 125 and 128 show
    numbers and constant texts. *)
Definition enrich_one (result : nat) : M nat :=
  c ← read result;
  let url := link c in
  print_ (py "標題: " ++ title c);;
  short_url ← short_link_of c;
  print_ (py "縮短連結: " ++ short_url);;
  print_ (py "原始連結: " ++ url);;
  full_content ← get_page_content url;
  match full_content with
  | Some (ch :: text) =>
      alloc (with_full_content c (_clean_html_content lib (ch :: text)))
  | _ => alloc c
  end.

(** [_enrich_search_results] (lines 96-134): the results after the first
    [max_urls_to_crawl] are the objects of the input list. *)
Definition _enrich_search_results (search_results : list nat) : M (list nat) :=
  enriched_results ← for_each enrich_one (firstn max_urls_to_crawl search_results);
  mret (enriched_results ++ skipn max_urls_to_crawl search_results).

(** [item.get("pagemap", {}).get("metatags", [{}])[0]
      .get("article:published_time", "")] *)
Definition published_time (it : item) : M str :=
  match item_metatags it with
  | None => mret []
  | Some [] => raise IndexError
  | Some (first :: _) => mret (default [] first)
  end.

(** The body of the loop of [search] (lines 63-83). The first print
    starts with the number of the item, which the text of the model
    leaves out. *)
Definition format_item (it : item) : M nat :=
  let original_url := default [] (item_link it) in
  short_url ← shorten w SearchTool original_url;
  print_ (py ". 標題: " ++ default [] (item_title it));;
  print_ (py "   原始連結: " ++ original_url);;
  print_ (py "   縮短連結: " ++ short_url);;
  print_ (py "   摘要: " ++ firstn 150 (default [] (item_snippet it)) ++ py "..." ++ [10]);;
  published ← published_time it;
  alloc (Candidate (default [] (item_title it)) original_url (Some short_url)
           (default [] (item_snippet it)) (py "google") published None).

(** [client.get(self.base_url, params=params)], [raise_for_status] and
    [response.json()] (lines 50-54). *)
Definition search_get (query : str) (num : Z) (sort_by_date : bool)
    : M (option (list item)) :=
  st ← get_state;
  log (GoogleGet query num sort_by_date);;
  match google w (length (journal st)) query num sort_by_date with
  | SearchRaisedHTTPError => raise HTTPError
  | SearchNotJson => raise OtherException
  | SearchJson status_code items =>
      raise_for_status status_code;;
      mret items
  end.

(** [search] (lines 26-94). *)
Definition search (query : str) (num_results : Z) (sort_by_date deep_search : bool)
    : M (list nat) :=
  try_except
    (search_results ← search_get query (Z.min num_results 10) sort_by_date;
     match search_results with
     | None => mret []
     | Some items =>
         formatted_results ← for_each format_item items;
         if deep_search then _enrich_search_results formatted_results
         else mret formatted_results
     end)
    [(is_HTTPError, fun _ => mret [])].

End GoogleSearchTool.

(** ** tools/agent.py *)

(** The character class of the pattern of the consistency pass (line 238):
    anything but white space, a closing parenthesis, a closing bracket, a
    double quote and a single quote. *)
Definition url_char (c : N) : bool :=
  negb (isspace c || (c =? 41) || (c =? 93) || (c =? 34) || (c =? 39)).

Fixpoint take_while (f : N -> bool) (s : str) : str :=
  match s with
  | c :: s' => if f c then c :: take_while f s' else []
  | [] => []
  end.

(** The pattern of line 238 matched at the start of [s]: [http], an optional
    [s], [://], then one or more characters of the class, as many as there
    are. The optional letter leaves one way to match: a text that starts
    with [https://] cannot match [http://] at the same place. *)
Definition scheme_http : str := Eval vm_compute in py "http://".
Definition scheme_https : str := Eval vm_compute in py "https://".

Definition match_url (s : str) : option str :=
  let scheme :=
    if startswith scheme_https s then Some scheme_https
    else if startswith scheme_http s then Some scheme_http
    else None in
  match scheme with
  | None => None
  | Some prefix =>
      match take_while url_char (skipn (length prefix) s) with
      | [] => None
      | body => Some (prefix ++ body)
      end
  end.

(** [re.findall(pattern, s)]: the matches from left to right, the search
    resuming where the last match ends. *)
Fixpoint findall_from (skip : nat) (s : str) : list str :=
  match s with
  | [] => []
  | _ :: s' =>
      match skip with
      | S k => findall_from k s'
      | O =>
          match match_url s with
          | Some url => url :: findall_from (length url - 1) s'
          | None => findall_from 0 s'
          end
      end
  end.

Definition findall (s : str) : list str := findall_from 0 s.

(** [s.replace(old, new)]: the occurrences of [old] from left to right,
    without overlap; an empty [old] puts [new] around every character. *)
Fixpoint replace_from (old new : str) (skip : nat) (s : str) : str :=
  match s with
  | [] => []
  | c :: s' =>
      match skip with
      | S k => replace_from old new k s'
      | O =>
          if startswith old s then new ++ replace_from old new (length old - 1) s'
          else c :: replace_from old new 0 s'
      end
  end.

Definition replace (old new s : str) : str :=
  match old with
  | [] => new ++ flat_map (fun c => c :: new) s
  | _ :: _ => replace_from old new 0 s
  end.

(** [str(n)] *)
Definition str_of_nat (n : nat) : str := py (NilEmpty.string_of_uint (Nat.to_uint n)).

(** The dictionary that [process_query] returns; the key [raw_results] is
    absent from the answer without results. *)
Record response := Response_ {
  type : str;
  query : str;
  answer_search_query : str;
  answer : str;
  raw_results : option (list nat);
  used_tools : list str
}.

Definition with_short_link (c : candidate) (short_url : str) : candidate :=
  Candidate (title c) (link c) (Some short_url) (snippet c) (source c)
    (published_date c) (full_content c).

(** Lines 174-184: the block of one source in the context. *)
Definition source_block (i : nat) (c : candidate) (short_url : str) : str :=
  py "來源 " ++ str_of_nat (i + 1) ++ [58; 10] ++
  py "標題: " ++ title c ++ [10] ++
  py "網址: " ++ short_url ++ [10] ++
  py "原始網址: " ++ link c ++ [10] ++
  match full_content c with
  | Some (ch :: text) =>
      let content := ch :: text in
      py "內容: " ++
      (if (1000 <? length content)%nat then firstn 1000 content ++ py "..."
       else content) ++ [10; 10]
  | _ => py "摘要: " ++ snippet c ++ [10; 10]
  end.

(** [any(short_url == url for short_url in url_map.values())] *)
Definition is_short_url (url_map : gmap str str) (url : str) : bool :=
  existsb (fun kv : str * str => str_eqb (snd kv) url) (map_to_list url_map).

Section LLMAgent.

Context (w : world) (lib : libraries).

(** [_analyze_query] (lines 75-141): the parsed payload, or the raw query
    with five results when the completion or its parsing raises. The time
    and the time zone only enter the prompt. *)
Definition _analyze_query (user_query : str) : M analysis :=
  st ← get_state;
  log (AnalysisCompletion user_query);;
  match analyst w (length (journal st)) user_query with
  | Some result => mret result
  | None => mret (Analysis (Some user_query) (Some (IntValue 5)))
  end.

(** Lines 163-169: the short URL of a result; a result without one is
    given one, in place. *)
Definition ensure_short_link (result : nat) : M (candidate * str) :=
  c ← read result;
  match short_link c with
  | Some (ch :: rest) => mret (c, ch :: rest)
  | _ =>
      short_url ← shorten w Agent (link c);
      write result (with_short_link c short_url);;
      mret (with_short_link c short_url, short_url)
  end.

(** The first loop of [_generate_comprehensive_report] (lines 161-184). *)
Fixpoint build_context (i : nat) (search_results : list nat)
    (url_map : gmap str str) (context : str) : M (gmap str str * str) :=
  match search_results with
  | [] => mret (url_map, context)
  | result :: rest =>
      '(c, short_url) ← ensure_short_link result;
      build_context (S i) rest (<[link c := short_url]> url_map)
        (context ++ source_block i c short_url)
  end.

(** The completion request of the report (lines 224-234); of the prompt
    the journal keeps the context. *)
Definition report_completion (context : str) : M str :=
  st ← get_state;
  log (ReportCompletion context);;
  match reporter w (length (journal st)) context with
  | Some report => mret report
  | None => raise OtherException
  end.

(** The body of the loop of the consistency pass (lines 239-250). *)
Definition rewrite_url (url_map : gmap str str) (report url : str) : M str :=
  match url_map !! url with
  | Some short_url => mret (replace url short_url report)
  | None =>
      if is_short_url url_map url then mret report
      else
        try_except
          (short_url ← shorten w Agent url;
           mret (replace url short_url report))
          [(fun _ => true, fun _ => mret report)]
  end.

Fixpoint rewrite_urls (url_map : gmap str str) (urls : list str) (report : str)
    : M str :=
  match urls with
  | [] => mret report
  | url :: rest =>
      report' ← rewrite_url url_map report url;
      rewrite_urls url_map rest report'
  end.

(** Lines 236-252. *)
Definition consistency_pass (url_map : gmap str str) (report : str) : M str :=
  rewrite_urls url_map (findall report) report.

(** Lines 257-262: the list of the first three results. *)
Definition basic_line (result : nat) : M str :=
  r ← read result;
  mret (py "- " ++ title r ++ py ": " ++ default (link r) (short_link r)).

Definition basic_report (search_results : list nat) : M str :=
  basic_info ← for_each basic_line (firstn 3 search_results);
  mret (py "在生成報告過程中遇到技術問題。以下是搜尋到的基本資訊:" ++ [10; 10] ++
        join [10; 10] basic_info).

(** [_generate_comprehensive_report] (lines 143-262). The query, the
    search keywords and the time are parts of the prompt only, of which
    the journal keeps the context. *)
Definition _generate_comprehensive_report (search_results : list nat) : M str :=
  '(url_map, context) ← build_context 0 search_results ∅ [];
  try_except
    (report ← report_completion context;
     consistency_pass url_map report)
    [(is_Exception, fun _ => basic_report search_results)].

(** [self.search_tool.search(search_query, max_results, deep_search=True)]
    (line 51): for a value that [min] cannot compare with 10, line 42 of
    search.py raises [TypeError] before the request is made. *)
Definition search_for (search_query : str) (max_results : max_results_value)
    : M (list nat) :=
  match max_results with
  | IntValue n => search w lib search_query n true true
  | Incomparable => raise OtherException
  end.

(** [process_query] (lines 26-73). The time stamp and the time zone only
    enter the prompts. *)
Definition process_query (user_query : str) : M response :=
  query_analysis ← _analyze_query user_query;
  match search_query query_analysis with
  | None => raise KeyError
  | Some search_query =>
      print_ (py "使用查詢關鍵字: '" ++ search_query ++ py "'");;
      search_results ←
        search_for search_query
          (default (IntValue 5) (max_results query_analysis));
      match search_results with
      | [] =>
          mret (Response_ (py "no_results") user_query search_query
                  (py "很抱歉，我找不到關於「" ++ search_query ++
                   py "」的相關資訊。請嘗試使用其他關鍵字或更明確的描述。")
                  None [py "search"])
      | _ :: _ =>
          report ← _generate_comprehensive_report search_results;
          mret (Response_ (py "search_and_report") user_query search_query
                  report (Some search_results) [py "search"; py "analyze"])
      end
  end.

End LLMAgent.

(** ** tools/utils.py *)

(** The pattern [<[^>]+>] of [clean_snippet] matched at the start of [s]:
    the length of the match. The class takes every character up to the
    next [>], so there is a match when that [>] exists and is not the
    character after the [<]. *)
Definition not_gt (c : N) : bool := negb (c =? 62).

Definition match_tag (s : str) : option nat :=
  match s with
  | [] => None
  | c :: rest =>
      if c =? 60 then
        match take_while not_gt rest with
        | [] => None
        | body =>
            match skipn (length body) rest with
            | [] => None
            | _ :: _ => Some (length body + 2)%nat
            end
        end
      else None
  end.

(** [re.sub(r'<[^>]+>', '', s)] *)
Fixpoint remove_tags_from (skip : nat) (s : str) : str :=
  match s with
  | [] => []
  | c :: s' =>
      match skip with
      | S k => remove_tags_from k s'
      | O =>
          match match_tag s with
          | Some n => remove_tags_from (n - 1) s'
          | None => c :: remove_tags_from 0 s'
          end
      end
  end.

Definition remove_tags (s : str) : str := remove_tags_from 0 s.

(** [clean_snippet] (lines 4-18). *)
Definition clean_snippet (snippet : str) : str :=
  strip (collapse_spaces (remove_tags snippet)).

Definition with_snippet (c : candidate) (text : str) : candidate :=
  Candidate (title c) (link c) (short_link c) text (source c)
    (published_date c) (full_content c).

(** [filter_results] (lines 20-35): the results are the objects of the
    input list, and the snippet of a result that is kept is cleaned in
    place. *)
Fixpoint filter_results (results : list nat) (min_length : Z) : M (list nat) :=
  match results with
  | [] => mret []
  | result :: rest =>
      c ← read result;
      if (min_length <=? Z.of_nat (length (snippet c)))%Z then
        write result (with_snippet c (clean_snippet (snippet c)));;
        filtered ← filter_results rest min_length;
        mret (result :: filtered)
      else filter_results rest min_length
  end.

(** [s.split()]: the maximal runs of characters that are not white space;
    [word] is the run being read, last character first. *)
Fixpoint split_words_from (word : str) (s : str) : list str :=
  match s with
  | [] =>
      match word with
      | [] => []
      | _ :: _ => [rev word]
      end
  | c :: s' =>
      if isspace c then
        match word with
        | [] => split_words_from [] s'
        | _ :: _ => rev word :: split_words_from [] s'
        end
      else split_words_from (c :: word) s'
  end.

Definition split_words (s : str) : list str := split_words_from [] s.

Definition stopwords : list str :=
  Eval vm_compute in
    map py ["的"; "是"; "在"; "有"; "和"; "與"; "了"; "我"; "你"; "他"; "她"; "它"; "們";
            "什麼"; "如何"; "為什麼"]%string.

Section Keywords.

(** [str.lower], of the standard library. *)
Context (lower : str -> str).

(** [extract_keywords] (lines 37-50). *)
Definition extract_keywords (query : str) : list str :=
  List.filter (fun word => negb (existsb (str_eqb (lower word)) stopwords))
    (split_words query).

End Keywords.

(** ** tools/summarizer.py: the fetch of one page *)

Definition summarizer_max_retries : N := 3.

Definition status_error_message : str :=
  Eval vm_compute in py "無法訪問此網站，伺服器返回錯誤: ".
Definition request_error_message : str :=
  Eval vm_compute in py "無法從該網站獲取內容：".

(** What one turn of the loop of [_extract_content_from_url] decides: to
    go round again, to leave the loop with the page ([break]), or to
    return at once. *)
Inductive summarizer_turn :=
| Retry (retry_count : N)
| Break (html_content : str)
| Give (result : option str).

(** How the [try] block of lines 142-172 ends: with the page, or in one of
    the three [except] clauses (lines 174, 183 and 192). *)
Inductive tried :=
| Fetched (html_content : str)
| StatusRejected (status_code : N)
| RequestFailed
| Unexpected.

Section ContentSummarizer.

Context (w : world) (lib : libraries).

(** [str(req_err)] for the [httpx.RequestError] that the request made
    after [n] external calls raised. *)
Context (error_text : nat -> str -> str).

(** Lines 148-170: the character set of the header is kept when
    [''.encode] accepts it; decoding with it falls back on UTF-8 with
    replacement on [UnicodeDecodeError] only. Of the texts of the prints
    of lines 157 and 168 the model has the part up to the character
    set. *)
Definition decode_content_summarizer (url content_type : str) (content : list N)
    : M str :=
  charset ←
    (if str_in (py "charset=") content_type then
       let charset_part := charset_of content_type in
       match encoder lib charset_part with
       | EncoderFound => mret (Some charset_part)
       | EncoderLookupError =>
           print_ (py "從 " ++ url ++ py " 獲取到無效的charset: " ++ charset_part);;
           mret None
       | EncoderRaisedOther => raise OtherException
       end
     else mret None);
  match charset with
  | Some (c :: charset') =>
      match decode lib (c :: charset') content with
      | Decoded html_content => mret html_content
      | RaisedUnicodeDecodeError =>
          print_ (py "從 " ++ url ++ py " 解碼內容時發生錯誤 (Charset: " ++ c :: charset');;
          mret (decode_utf8_replace lib content)
      | RaisedLookupError | RaisedOtherError => raise OtherException
      end
  | _ => mret (decode_utf8_replace lib content)
  end.

(** The [try] block and the clause that catches what it raises.
    [client.get] raises no [httpx.HTTPStatusError], so that the clause of
    line 174 is entered from [raise_for_status] only, and the clause of
    line 183 from [client.get] only. *)
Definition try_fetch (url : str) : M tried :=
  try_except
    ('(status_code, content_type, content) ← client_get w url;
     if raises_for_status lib status_code then mret (StatusRejected status_code)
     else
       html_content ← decode_content_summarizer url content_type content;
       mret (Fetched html_content))
    [(is_HTTPError, fun _ => mret RequestFailed);
     (is_Exception, fun _ => mret Unexpected)].

(** The body of the [while] (lines 141-195); what a clause raises leaves
    the function. Of the texts of the prints the model has the part up
    to the URL. *)
Definition extract_attempt (url : str) (retry_count : N) : M summarizer_turn :=
  st ← get_state;
  r ← try_fetch url;
  match r with
  | Fetched html_content => mret (Break html_content)
  | StatusRejected status_code =>
      print_ (py "從 " ++ url);;
      if summarizer_max_retries <=? retry_count + 1 then
        print_ (py "從 " ++ url);;
        mret (Give (Some (status_error_message ++
                          str_of_nat (N.to_nat status_code))))
      else sleep 1;; mret (Retry (retry_count + 1))
  | RequestFailed =>
      print_ (py "從 " ++ url);;
      if summarizer_max_retries <=? retry_count + 1 then
        print_ (py "從 " ++ url);;
        mret (Give (Some (request_error_message ++
                          error_text (length (journal st)) url)))
      else sleep 1;; mret (Retry (retry_count + 1))
  | Unexpected =>
      print_ (py "從 " ++ url);;
      mret (Give None)
  end.

(** [while retry_count < self.max_retries], and lines 197-208 after the
    loop: [_clean_html] catches what it raises, so that the clause of
    line 206 is never entered. *)
Fixpoint extract_attempts (fuel : nat) (url : str) (retry_count : N)
    : M (option str) :=
  match fuel with
  | O => raise OutOfFuel
  | S fuel' =>
      if retry_count <? summarizer_max_retries then
        t ← extract_attempt url retry_count;
        match t with
        | Retry retry_count' => extract_attempts fuel' url retry_count'
        | Break html_content => mret (Some (_clean_html lib html_content))
        | Give result => mret result
        end
      else
        print_ (py "從 " ++ url);;
        mret None
  end.

(** [ContentSummarizer._extract_content_from_url] (lines 122-208). *)
Definition _extract_content_from_url (url : str) : M (option str) :=
  extract_attempts 3 url 0.

End ContentSummarizer.

(** ** Vocabulary of the statements *)

Definition state_of {A} (o : outcome A) : state :=
  match o with
  | Ret _ st => st
  | Raise _ st => st
  end.

Definition returns {A} (o : outcome A) : Prop :=
  match o with
  | Ret _ _ => True
  | Raise _ _ => False
  end.

(** The cache of the shortener of [self] holds [v] for [url]. *)
Definition cached (self : owner) (url v : str) (st : state) : Prop :=
  short_urls_cache (shortener_of self st) !! url = Some v.

(** Any further use of the shorteners: a sequence of calls of [shorten], by
    either owner, on any URL. *)
Fixpoint after_calls (w : world) (calls : list (owner * str)) (st : state) : state :=
  match calls with
  | [] => st
  | (o, u) :: rest => after_calls w rest (state_of (shorten w o u st))
  end.

Definition nonempty (s : option str) : Prop :=
  match s with
  | Some (_ :: _) => True
  | _ => False
  end.

(** A state as the program builds it: no shortener caches an empty value. *)
Definition caches_nonempty (st : state) : Prop :=
  forall self url v, cached self url v st -> v <> [].

Definition initial_state : state :=
  MkState (MkShortener true ∅) (MkShortener true ∅) ∅ [].

(** The state after one more external call, and after one more cache
    entry. *)
Definition logged (ev : event) (st : state) : state :=
  MkState (search_tool_shortener st) (agent_shortener st) (store st)
    (journal st ++ [ev]).

Definition put (self : owner) (url v : str) (st : state) : state :=
  set_shortener self
    (MkShortener (use_external_api (shortener_of self st))
       (<[url := v]> (short_urls_cache (shortener_of self st)))) st.

(** [_shorten_locally] as a value. *)
Definition local_short_url (url : str) : option str :=
  match encode url with
  | Some bytes => Some (py "https://short.url/" ++ firstn 8 (MD5.hexdigest bytes))
  | None => None
  end.

Definition logged_all (evs : list event) (st : state) : state :=
  MkState (search_tool_shortener st) (agent_shortener st) (store st)
    (journal st ++ evs).

(** An attempt of [get_page_content] that is followed by another one when
    attempts are left: an [httpx.HTTPError], a status code from 400 to 599,
    or a status code that [raise_for_status] rejects. *)
Definition retryable (lib : libraries) (r : http_result) : bool :=
  match r with
  | RaisedHTTPError => true
  | RaisedOther => false
  | Response status_code _ _ =>
      ((400 <=? status_code) && (status_code <? 600)) ||
      raises_for_status lib status_code
  end.

(** [decode_content] as a value: [None] when the codec of the declared
    character set raises an exception that is neither [UnicodeDecodeError]
    nor [LookupError]. *)
Definition decoded_page (lib : libraries) (content_type : str) (content : list N)
    : option str :=
  if str_in (py "charset=") content_type then
    match decode lib (charset_of content_type) content with
    | Decoded html_content => Some html_content
    | RaisedUnicodeDecodeError | RaisedLookupError =>
        Some (decode_utf8_replace lib content)
    | RaisedOtherError => None
    end
  else Some (decode_utf8_replace lib content).

(** What the last attempt gives to the caller. *)
Definition page_of (lib : libraries) (r : http_result) : option str :=
  match r with
  | Response status_code content_type content =>
      if retryable lib r then None
      else decoded_page lib content_type content
  | _ => None
  end.

(** How [get_page_content] ends after its last request: with the page, or
    with [None] after a print that shows the URL. *)
Definition fetch_outcome (url : str) (page : option str) (st : state)
    : outcome (option str) :=
  match page with
  | Some html_content => Ret (Some html_content) st
  | None => if printable url then Ret None st else Raise UnicodeEncodeError st
  end.

(** The external calls of [k + 1] attempts: one second of sleep before each
    attempt but the first. *)
Fixpoint attempts_trace (url : str) (k : nat) : list event :=
  match k with
  | O => [PageGet url]
  | S k' => PageGet url :: Sleep 1 :: attempts_trace url k'
  end.

Definition page_gets (evs : list event) : list str :=
  flat_map (fun ev => match ev with PageGet url => [url] | _ => [] end) evs.

(** A parser given by the trees of the markups of interest; it raises on
    any other markup. *)
Definition parser_of (table : list (str * list node)) (html : str)
    : option (list node) :=
  match find (fun entry : str * list node => str_eqb (fst entry) html) table with
  | Some entry => Some (snd entry)
  | None => None
  end.

Definition library_of (table : list (str * list node)) : libraries :=
  Libraries (parser_of table) (fun _ _ => RaisedLookupError)
    (fun _ => EncoderLookupError) (fun bytes => bytes)
    (fun status_code => negb ((200 <=? status_code) && (status_code <? 300))).

Definition tag (name : string) (children : list node) : node :=
  Tag (py name) [] children.

(** [m] relates every state to the state it leaves, whether it returns or
    raises. *)
Definition preserves {A} (rel : state -> state -> Prop) (m : M A) : Prop :=
  forall st, rel st (state_of (m st)).

Definition same_store (st st' : state) : Prop := store st' = store st.

(** The fields of a candidate other than [short_link]. *)
Definition same_but_short_link (c c' : candidate) : Prop :=
  title c' = title c /\ link c' = link c /\ snippet c' = snippet c /\
  source c' = source c /\ published_date c' = published_date c /\
  full_content c' = full_content c.

(** What report synthesis may do to the store: no object appears or
    disappears, and an object changes at most by receiving a [short_link],
    which happens only to the objects of [refs] that had none. *)
Definition fills_short_links (refs : list nat) (st st' : state) : Prop :=
  forall r,
    match store st !! r, store st' !! r with
    | Some c, Some c' =>
        same_but_short_link c c' /\
        (nonempty (short_link c) \/ ~ In r refs -> c' = c)
    | None, None => True
    | _, _ => False
    end.

Definition value_of {A} (o : outcome A) : option A :=
  match o with
  | Ret a _ => Some a
  | Raise _ _ => None
  end.

Definition has_short_link (st : state) (r : nat) : Prop :=
  exists c, store st !! r = Some c /\ nonempty (short_link c).

(** The copy that enrichment makes of a result, from what the fetch of its
    page returned. *)
Definition enriched (lib : libraries) (c : candidate) (content : option str)
    : candidate :=
  match content with
  | Some (ch :: text) => with_full_content c (_clean_html_content lib (ch :: text))
  | _ => c
  end.

(** A result whose lines enrichment can print (lines 111-113 of search.py):
    it has a [short_link], and its title, its short URL and its link can be
    encoded for the standard output. *)
Definition printable_result (c : candidate) : Prop :=
  exists short_url, short_link c = Some short_url /\
    printable (title c) = true /\ printable short_url = true /\
    printable (link c) = true.

(** The shortening service is of no use for [url]: it raises, answers
    another status than 200, or answers an empty body. *)
Definition service_fails_for (w : world) (url : str) : Prop :=
  forall n,
    match tinyurl w n url with
    | Response status_code _ body => status_code <> 200 \/ body = []
    | _ => True
    end.

(** Where the short URL [v] of [url] can come from in a run that starts in
    [st]: the cache of the search tool held it, the service answered it,
    or it is the local form. *)
Definition resolved_from (w : world) (st : state) (url v : str) : Prop :=
  cached SearchTool url v st \/
  (exists n content_type, tinyurl w n url = Response 200 content_type v) \/
  local_short_url url = Some v.

(** Every entry of the cache of [self] satisfies [P]. *)
Definition cache_within (self : owner) (P : str -> str -> Prop) (st : state) : Prop :=
  forall url v, cached self url v st -> P url v.

(** The provider gives nothing to work on: the request raises an
    [httpx.HTTPError], its status is rejected, or the payload has no
    [items], or an empty list of them. *)
Definition provider_gave_nothing (lib : libraries) (r : search_result) : Prop :=
  match r with
  | SearchRaisedHTTPError => True
  | SearchNotJson => False
  | SearchJson status_code items =>
      raises_for_status lib status_code = true \/ items = None \/ items = Some []
  end.

(** [_analyze_query] as a value. *)
Definition analysis_of (w : world) (user_query : str) (st : state) : analysis :=
  match analyst w (length (journal st)) user_query with
  | Some result => result
  | None => Analysis (Some user_query) (Some (IntValue 5))
  end.

(** The invariant of the loop of [search]: a result built so far carries
    the short URL that the cache of the search tool holds for its link, and
    no full content; its lines have been printed. *)
Definition formatted (st : state) (r : nat) : Prop :=
  exists c v, store st !! r = Some c /\ full_content c = None /\
              short_link c = Some v /\ cached SearchTool (link c) v st /\
              printable_result c.

(** The answer of [process_query] when the search found nothing (lines
    55-61 of agent.py): no key [raw_results]. *)
Definition no_results_response (user_query search_query : str) : response :=
  Response_ (py "no_results") user_query search_query
    (py "很抱歉，我找不到關於「" ++ search_query ++
     py "」的相關資訊。請嘗試使用其他關鍵字或更明確的描述。")
    None [py "search"].

(** A string that the pattern of the consistency pass matches as a whole. *)
Definition url_shaped (u : str) : Prop := match_url u = Some u.

(** The URLs that the scan of the consistency pass finds in a report. *)
Definition scanned (report u : str) : Prop := In u (findall report).

(** A URL of the scan that the pass may replace: a key of the map, or a
    URL that is no value of the map (lines 241 and 244 of agent.py). *)
Definition rewritable (url_map : gmap str str) (u : str) : Prop :=
  is_Some (url_map !! u) \/ is_short_url url_map u = false.

(** A text that starts with [http://] or with [https://]. *)
Definition has_scheme (v : str) : Prop :=
  startswith scheme_http v = true \/ startswith scheme_https v = true.

(** Where the short URL [v] that the pass puts for the URL [u] can come
    from, in a pass that starts in [st]: the map, for a key; for a URL that
    is neither a key nor a value of the map, the shortener of the agent,
    that is its cache, an answer of the service that is not empty, or the
    local form. *)
Definition substituted (w : world) (url_map : gmap str str) (st : state)
    (u v : str) : Prop :=
  url_map !! u = Some v \/
  (url_map !! u = None /\ is_short_url url_map u = false /\
   (cached Agent u v st \/
    (v <> [] /\ exists n content_type, tinyurl w n u = Response 200 content_type v) \/
    local_short_url u = Some v)).

(** The parts of a match of the pattern: the scheme, then one character of
    the class or more. *)
Definition url_parts (u : str) : Prop :=
  exists prefix b body,
    (prefix = scheme_http \/ prefix = scheme_https) /\
    u = prefix ++ b :: body /\
    forallb url_char (b :: body) = true.

(** Nothing, or a character that ends a match. *)
Definition ends_url (rest : str) : Prop :=
  rest = [] \/ exists d r, rest = d :: r /\ url_char d = false.

(** A text and what the pass has made of it so far, read from left to
    right: the characters at which no match starts are kept, and every
    match [u] of the scan, a URL of [U], stands as [sub u]. *)
Inductive rendered (sub : str -> str) (U : str -> Prop) : str -> str -> Prop :=
| rendered_nil : rendered sub U [] []
| rendered_skip c T R :
    match_url (c :: T) = None -> rendered sub U T R ->
    rendered sub U (c :: T) (c :: R)
| rendered_url u T R :
    match_url (u ++ T) = Some u -> U u -> rendered sub U T R ->
    rendered sub U (u ++ T) (sub u ++ R).

(** A text that the pass leaves alone once it is written: it contains
    neither [L] nor a URL of the scan that the pass may replace. *)
Definition inert (url_map : gmap str str) (report L text : str) : Prop :=
  str_in L text = false /\
  forall u, scanned report u -> rewritable url_map u -> str_in u text = false.

(** No URL of the scan that the pass may replace is a proper part of [L]. *)
Definition found_whole (url_map : gmap str str) (report L : str) : Prop :=
  forall u, scanned report u -> rewritable url_map u -> str_in u L = true -> u = L.

(** The invariant of the loop of the pass that started in [st0]: the
    cache of the agent holds, for the URLs of the scan that it may be asked
    for, values that the shortener resolved; a URL of the scan stands as
    itself or as an inert text that starts like a URL; and [L], when no
    other URL of the scan is a part of it, stands as itself or as [S]. *)
Definition pass_invariant (w : world) (url_map : gmap str str) (report L S : str)
    (st0 : state) (sub : str -> str) (st : state) : Prop :=
  (forall u v, scanned report u -> url_map !! u = None ->
     is_short_url url_map u = false -> cached Agent u v st ->
     substituted w url_map st0 u v) /\
  (forall u, scanned report u ->
     sub u = u \/
     ((exists r, sub u = 104 :: r) /\ inert url_map report L (sub u))) /\
  (scanned report L -> found_whole url_map report L -> sub L = L \/ sub L = S).

(** ** Concrete worlds and states for the examples *)

(** One search result, as the search tool builds it. *)
Definition sample_candidate (short : option str) : candidate :=
  Candidate (py "Example") (py "https://example.com/a") short
    (py "An example page") (py "google") [] None.

Definition state_with (c : candidate) : state :=
  MkState (MkShortener true ∅) (MkShortener true ∅) {[ 0%nat := c ]} [].

(** A service that is down for the first call and up afterwards. *)
Definition recovering_world : world :=
  World (fun n _ => if (n =? 0)%nat then RaisedHTTPError
                    else Response 200 [] (py "https://tinyurl.com/abc"))
    (fun _ _ _ _ => SearchJson 200 None)
    (fun _ _ => RaisedHTTPError)
    (fun _ _ => None)
    (fun _ _ => None).

(** A site that answers every request with a page that declares the
    character set [undefined], and a table of codecs for it: the codec
    [undefined] of the standard library raises [UnicodeError] whatever it
    is given, [ascii] decodes the bytes of an ASCII page to the same
    characters, and a name outside the table is unknown. *)
Definition undefined_charset_world : world :=
  World (fun _ _ => RaisedHTTPError)
    (fun _ _ _ _ => SearchJson 200 None)
    (fun _ _ => Response 200 (py "text/html; charset=undefined") (py "<p>Hello</p>"))
    (fun _ _ => None)
    (fun _ _ => None).

Definition codec_libraries : libraries :=
  Libraries (fun _ => Some [])
    (fun charset bytes =>
       if str_eqb charset (py "undefined") then RaisedOtherError
       else if str_eqb charset (py "ascii") then Decoded bytes
       else RaisedLookupError)
    (fun charset =>
       if str_eqb charset (py "undefined") then EncoderRaisedOther
       else if str_eqb charset (py "ascii") then EncoderFound
       else EncoderLookupError)
    (fun bytes => bytes)
    (fun status_code => negb ((200 <=? status_code) && (status_code <? 300))).

Definition plain_libraries : libraries :=
  Libraries (fun _ => Some []) (fun _ _ => RaisedLookupError)
    (fun _ => EncoderLookupError) (fun bytes => bytes)
    (fun status_code => negb ((200 <=? status_code) && (status_code <? 300))).

(** A world without shortening service and without reachable sites, whose
    search index answers two items, and one whose index answers none. *)
Definition two_items : list item :=
  [Item (Some (py "First")) (Some (py "https://example.com/a"))
     (Some (py "first snippet")) None;
   Item (Some (py "Second")) (Some (py "https://example.org/b"))
     (Some (py "second snippet")) (Some [Some (py "2025-01-01")])].

Definition offline_world (items : option (list item)) : world :=
  World (fun _ _ => RaisedHTTPError)
    (fun _ _ _ _ => SearchJson 200 items)
    (fun _ _ => RaisedHTTPError)
    (fun _ _ => None)
    (fun _ _ => None).

(** A world whose search index answers with a body that is not JSON (the
    HTML page of a gateway, say), so that [response.json()] raises. *)
Definition not_json_world : world :=
  World (fun _ _ => RaisedHTTPError)
    (fun _ _ _ _ => SearchNotJson)
    (fun _ _ => RaisedHTTPError)
    (fun _ _ => None)
    (fun _ _ => None).

(** A world whose completion model writes the given narrative, and whose
    other services are down. *)
Definition narrating_world (narrative : str) : world :=
  World (fun _ _ => RaisedHTTPError)
    (fun _ _ _ _ => SearchJson 200 None)
    (fun _ _ => RaisedHTTPError)
    (fun _ _ => None)
    (fun _ _ => Some narrative).

Definition candidate_at (url short : str) : candidate :=
  Candidate (py "Example") url (Some short) (py "An example page") (py "google")
    [] None.

(** A page whose only container is a short teaser, next to a paragraph of
    120 characters. *)
Definition teaser_markup : str :=
  py "<html><body><article>Teaser</article><p>" ++ repeat 120 120 ++
  py "</p></body></html>".

Definition teaser_page : list node :=
  [tag "html" [tag "body" [tag "article" [Text (py "Teaser")];
                           tag "p" [Text (repeat 120 120)]]]].

(** A page whose text has exactly [max_content_length] characters. *)
Definition full_text : str := repeat 97 max_content_length.

Definition full_markup : str := py "<p>" ++ full_text ++ py "</p>".

Definition full_page : list node := [tag "p" [Text full_text]].

(** ** Vocabulary of the further properties *)

(** A digit of [hexdigest]: [0-9a-f]. *)
Definition is_lower_hex (c : N) : bool :=
  ((48 <=? c) && (c <=? 57)) || ((97 <=? c) && (c <=? 102)).

(** The journal of [st'] is the journal of [st] followed by external calls
    that all satisfy [P]. *)
Definition grows (P : event -> bool) (st st' : state) : Prop :=
  exists evs, journal st' = journal st ++ evs /\ forallb P evs = true.

Definition is_TinyUrlGet (ev : event) : bool :=
  match ev with TinyUrlGet _ => true | _ => false end.

(** A page request, or the pause before the next one. *)
Definition is_fetch (ev : event) : bool :=
  match ev with PageGet _ | Sleep _ => true | _ => false end.

(** The dictionary that [search] builds for an item (lines 75-82), given
    its short URL. *)
Definition candidate_of (it : item) (short_url : str) : candidate :=
  Candidate (default [] (item_title it)) (default [] (item_link it)) (Some short_url)
    (default [] (item_snippet it)) (py "google")
    (match item_metatags it with
     | Some (first :: _) => default [] first
     | _ => []
     end)
    None.

(** An item of which [search] cannot print a line (lines 70-73): the
    title, the link, the first 150 characters of the snippet, or the short
    URL that the cache of the search tool holds for the link in [st], has no
    UTF-8 encoding. *)
Definition unprintable_item (it : item) (st : state) : Prop :=
  printable (default [] (item_title it)) = false \/
  printable (default [] (item_link it)) = false \/
  printable (firstn 150 (default [] (item_snippet it))) = false \/
  exists short_url,
    cached SearchTool (default [] (item_link it)) short_url st /\
    printable short_url = false.

(** An index that answers one item whose title holds a lone surrogate, as
    JSON can spell it ([\ud800]). *)
Definition surrogate_title_world : world :=
  World (fun _ _ => RaisedHTTPError)
    (fun _ _ _ _ =>
       SearchJson 200
         (Some [Item (Some [55296]) (Some (py "https://example.com/a"))
                  (Some (py "first snippet")) None]))
    (fun _ _ => RaisedHTTPError)
    (fun _ _ => None)
    (fun _ _ => None).

(** An index that answers one item whose [metatags] list is empty. *)
Definition bare_metatags_world : world :=
  World (fun _ _ => RaisedHTTPError)
    (fun _ _ _ _ =>
       SearchJson 200
         (Some [Item (Some (py "First")) (Some (py "https://example.com/a"))
                  (Some (py "first snippet")) (Some [])]))
    (fun _ _ => RaisedHTTPError)
    (fun _ _ => None)
    (fun _ _ => None).

(** A tag that [decompose] must not leave in the tree. *)
Definition is_removed_tag (n : node) : bool :=
  match n with
  | Tag name _ _ => has_name removed_tags name
  | Text _ => false
  end.

(** White space occurs only as single spaces: every white-space character
    is [U+0020] and is not followed by a white-space character. *)
Fixpoint single_spaced (s : str) : bool :=
  match s with
  | [] => true
  | c :: s' =>
      (if isspace c then (c =? 32) && negb (existsb isspace (firstn 1 s')) else true)
      && single_spaced s'
  end.

(** No match of the tag pattern of [clean_snippet] starts anywhere in
    [s]. *)
Fixpoint tag_free (s : str) : bool :=
  match s with
  | [] => true
  | _ :: s' =>
      match match_tag s with
      | None => true
      | Some _ => false
      end && tag_free s'
  end.

(** The test of line 32 of utils.py on the object [r] of the store. *)
Definition long_enough (min_length : Z) (st : state) (r : nat) : bool :=
  match store st !! r with
  | Some c => (min_length <=? Z.of_nat (length (snippet c)))%Z
  | None => false
  end.

(** A word as [str.split()] yields them: not empty, without white
    space. *)
Definition is_word (word : str) : bool :=
  negb (str_eqb word []) && forallb (fun c => negb (isspace c)) word.

(** A word of the query as [str.split()] cuts it: a stretch of the query
    without white space, not empty, that starts where the query starts or
    after a white space and ends where the query ends or before a white
    space. *)
Definition word_of (query word : str) : Prop :=
  is_word word = true /\
  exists before after,
    query = before ++ word ++ after /\
    (before = [] \/ exists b c, before = b ++ [c] /\ isspace c = true) /\
    (after = [] \/ exists c a, after = c :: a /\ isspace c = true).

(** The dictionary [c] after line 33 of utils.py. *)
Definition cleaned (c : candidate) : candidate :=
  with_snippet c (clean_snippet (snippet c)).

Definition not_stopword (lower : str -> str) (word : str) : bool :=
  negb (existsb (str_eqb (lower word)) stopwords).

(** A request of [_extract_content_from_url] that is followed by another
    one when attempts are left: an [httpx.RequestError], or a status that
    [raise_for_status] rejects. *)
Definition failing (lib : libraries) (r : http_result) : bool :=
  match r with
  | RaisedHTTPError => true
  | RaisedOther => false
  | Response status_code _ _ => raises_for_status lib status_code
  end.

(** [decode_content_summarizer] as a value, for a URL that can be
    printed: [None] when an exception ends the [try] block, which is when
    [''.encode] or the codec raises an exception that the inner clauses
    do not catch, or when a print of the character set raises. *)
Definition decoded_summarizer (lib : libraries) (content_type : str)
    (content : list N) : option str :=
  if str_in (py "charset=") content_type then
    let charset_part := charset_of content_type in
    match encoder lib charset_part with
    | EncoderFound =>
        match charset_part with
        | _ :: _ =>
            match decode lib charset_part content with
            | Decoded html_content => Some html_content
            | RaisedUnicodeDecodeError =>
                if printable charset_part then Some (decode_utf8_replace lib content)
                else None
            | RaisedLookupError | RaisedOtherError => None
            end
        | [] => Some (decode_utf8_replace lib content)
        end
    | EncoderLookupError =>
        if printable charset_part then Some (decode_utf8_replace lib content)
        else None
    | EncoderRaisedOther => None
    end
  else Some (decode_utf8_replace lib content).

(** What the last request of [_extract_content_from_url] gives to the
    caller, [n] external calls having been made before it. *)
Definition extracted (lib : libraries) (error_text : nat -> str -> str) (n : nat)
    (url : str) (r : http_result) : option str :=
  match r with
  | RaisedHTTPError => Some (request_error_message ++ error_text n url)
  | RaisedOther => None
  | Response status_code content_type content =>
      if raises_for_status lib status_code then
        Some (status_error_message ++ str_of_nat (N.to_nat status_code))
      else option_map (_clean_html lib) (decoded_summarizer lib content_type content)
  end.

(** A site that answers 404 to every request. *)
Definition missing_page_world : world :=
  World (fun _ _ => RaisedHTTPError)
    (fun _ _ _ _ => SearchJson 200 None)
    (fun _ _ => Response 404 [] [])
    (fun _ _ => None)
    (fun _ _ => None).

Definition is_ReportCompletion (ev : event) : bool :=
  match ev with ReportCompletion _ => true | _ => false end.

(** The external calls that follow the search request in a run of
    [process_query]. *)
Definition is_pipeline_call (ev : event) : bool :=
  is_TinyUrlGet ev || is_fetch ev || is_ReportCompletion ev.

(** A completion model whose analysis lacks the key [search_query]. *)
Definition keyless_world : world :=
  World (fun _ _ => RaisedHTTPError)
    (fun _ _ _ _ => SearchJson 200 None)
    (fun _ _ => RaisedHTTPError)
    (fun _ _ => Some (Analysis None (Some (IntValue 3))))
    (fun _ _ => None).

(** Line 260 of agent.py. *)
Definition basic_line_of (c : candidate) : str :=
  py "- " ++ title c ++ py ": " ++ default (link c) (short_link c).

Definition fallback_header : str :=
  Eval vm_compute in py "在生成報告過程中遇到技術問題。以下是搜尋到的基本資訊:".

(** The results [refs] are the dictionaries [cs], each with a short link
    that is not empty. *)
Definition results_with_short_links (st : state) (refs : list nat)
    (cs : list candidate) : Prop :=
  Forall2 (fun r c => store st !! r = Some c /\ nonempty (short_link c)) refs cs.

(** An external call that the consistency pass may make: a shortening
    request for a URL of the scan that is neither a key nor a value of the
    URL map. *)
Definition shortens_new_url (url_map : gmap str str) (urls : list str)
    (ev : event) : Prop :=
  exists u, ev = TinyUrlGet u /\ In u urls /\
            url_map !! u = None /\ is_short_url url_map u = false.

(** * Properties *)

Ltac unfold_M :=
  unfold mbind, mret, M_bind, M_ret, raise, get_state, log, cache_put in *.

Section ShortenerFacts.

Context (w : world).

Lemma shortener_of_set self sh st :
  shortener_of self (set_shortener self sh st) = sh.
Proof. destruct self; reflexivity. Qed.

Lemma shortener_of_set_other self other sh st :
  self <> other -> shortener_of self (set_shortener other sh st) = shortener_of self st.
Proof. destruct self, other; intros H; try reflexivity; congruence. Qed.

Lemma shorten_hit self url v st :
  cached self url v st -> shorten w self url st = Ret v st.
Proof.
  unfold cached, shorten. intros H. unfold_M. simpl. rewrite H. reflexivity.
Qed.

(** The ways through [shorten]: a hit; a miss answered by the service; a
    miss answered by the local form, or by [UnicodeEncodeError] when the
    URL has no UTF-8 encoding. *)
Lemma shorten_cases self url st :
  (exists v, cached self url v st /\ shorten w self url st = Ret v st) \/
  (short_urls_cache (shortener_of self st) !! url = None /\
   exists st1, (st1 = st \/ st1 = logged (TinyUrlGet url) st) /\
     ((exists v, v <> [] /\ shorten w self url st = Ret v (put self url v st1) /\
         ((exists content_type,
             tinyurl w (length (journal st)) url = Response 200 content_type v) \/
          local_short_url url = Some v)) \/
      (encode url = None /\ shorten w self url st = Raise UnicodeEncodeError st1))).
Proof.
  destruct (short_urls_cache (shortener_of self st) !! url) as [c|] eqn:Hc.
  { left. exists c. split; [exact Hc|]. now apply shorten_hit. }
  right. split; [reflexivity|].
  assert (Hlocal : forall st1, shortener_of self st1 = shortener_of self st ->
    (exists v, v <> [] /\ shorten_miss_local self url st1 = Ret v (put self url v st1) /\
       ((exists content_type,
           tinyurl w (length (journal st)) url = Response 200 content_type v) \/
        local_short_url url = Some v)) \/
    (encode url = None /\ shorten_miss_local self url st1 = Raise UnicodeEncodeError st1)).
  { intros st1 _. unfold shorten_miss_local, _shorten_locally, local_short_url.
    unfold_M. destruct (encode url) as [b|]; [left|right; auto].
    eexists. split; [|split; [reflexivity|right; reflexivity]]. discriminate. }
  unfold shorten. unfold_M. simpl. rewrite Hc.
  destruct (use_external_api (shortener_of self st)).
  - exists (logged (TinyUrlGet url) st). split; [now right|].
    unfold _shorten_with_external_api. unfold_M. simpl.
    fold (logged (TinyUrlGet url) st).
    destruct (tinyurl w (length (journal st)) url) as [| |code ct body];
      try (apply Hlocal; destruct self; reflexivity).
    destruct (code =? 200) eqn:Hcode; [|apply Hlocal; destruct self; reflexivity].
    destruct body as [|c body]; [apply Hlocal; destruct self; reflexivity|].
    apply N.eqb_eq in Hcode. subst code.
    left. eexists. split; [|split; [reflexivity|left; eauto]]. discriminate.
  - exists st. split; [now left|]. now apply Hlocal.
Qed.

Lemma cached_logged self url v ev st :
  cached self url v (logged ev st) <-> cached self url v st.
Proof. unfold cached. destruct self; reflexivity. Qed.

Lemma cached_put self url v o u x st :
  cached self url v (put o u x st) <->
  (if decide (self = o /\ url = u) then v = x else cached self url v st).
Proof.
  unfold cached, put. destruct (decide (self = o)) as [->|Hne].
  - rewrite shortener_of_set. simpl.
    destruct (decide (url = u)) as [->|Hu].
    + rewrite lookup_insert_eq. rewrite decide_True by auto.
      split; congruence.
    + rewrite lookup_insert_ne by auto. rewrite decide_False by tauto. reflexivity.
  - rewrite shortener_of_set_other by auto. rewrite decide_False by tauto. reflexivity.
Qed.

Lemma store_put o u x st : store (put o u x st) = store st.
Proof. destruct o; reflexivity. Qed.

(** A call of [shorten] keeps every entry of both caches. *)
Lemma shorten_keeps o u st self url v :
  cached self url v st -> cached self url v (state_of (shorten w o u st)).
Proof.
  intros H.
  destruct (shorten_cases o u st) as [(c & _ & ->)|(Hmiss & st1 & Hst1 & Hcase)];
    [exact H|].
  assert (H1 : cached self url v st1).
  { destruct Hst1 as [->| ->]; [exact H|now apply cached_logged]. }
  destruct Hcase as [(x & _ & -> & _)|(_ & ->)]; simpl; [|exact H1].
  apply cached_put. case_decide as Hd; [|exact H1].
  destruct Hd as [-> ->].
  unfold cached in H. congruence.
Qed.

Lemma shorten_store o u st : store (state_of (shorten w o u st)) = store st.
Proof.
  destruct (shorten_cases o u st) as [(c & _ & ->)|(_ & st1 & Hst1 & Hcase)];
    [reflexivity|].
  assert (store st1 = store st) by (destruct Hst1 as [->| ->]; reflexivity).
  destruct Hcase as [(x & _ & -> & _)|(_ & ->)]; simpl; [rewrite store_put|]; auto.
Qed.

(** The value returned is cached, and is not empty when the caches hold
    no empty value. *)
Lemma shorten_returns o u st v st' :
  shorten w o u st = Ret v st' -> cached o u v st'.
Proof.
  intros E.
  destruct (shorten_cases o u st) as [(c & Hc & E')|(_ & st1 & _ & Hcase)].
  - rewrite E in E'. injection E' as -> ->. exact Hc.
  - destruct Hcase as [(x & _ & E' & _)|(_ & E')]; rewrite E in E'; [|discriminate].
    injection E' as -> ->. apply cached_put. rewrite decide_True; auto.
Qed.

Lemma shorten_caches_nonempty o u st :
  caches_nonempty st -> caches_nonempty (state_of (shorten w o u st)).
Proof.
  intros Hwf.
  destruct (shorten_cases o u st) as [(c & _ & ->)|(_ & st1 & Hst1 & Hcase)];
    [exact Hwf|].
  assert (Hwf1 : caches_nonempty st1).
  { destruct Hst1 as [->| ->]; [exact Hwf|].
    intros self url v Hc. apply cached_logged in Hc. eapply Hwf; eauto. }
  destruct Hcase as [(x & Hx & -> & _)|(_ & ->)]; simpl; [|exact Hwf1].
  intros self url v Hc. apply cached_put in Hc.
  case_decide; [congruence|]. eapply Hwf1; eauto.
Qed.

Lemma shorten_total o u st :
  is_Some (encode u) -> returns (shorten w o u st).
Proof.
  intros [b Hb].
  destruct (shorten_cases o u st) as [(c & _ & ->)|(_ & st1 & _ & Hcase)];
    [exact I|].
  destruct Hcase as [(x & _ & -> & _)|(Hn & _)]; [exact I|congruence].
Qed.

Lemma after_calls_keeps calls : forall st self url v,
  cached self url v st -> cached self url v (after_calls w calls st).
Proof.
  induction calls as [|[o u] calls IH]; intros st self url v H; simpl; [exact H|].
  apply IH. now apply shorten_keeps.
Qed.

(** A property of the cache entries that the answers of the service and
    the local forms have is kept by [shorten]. *)
Lemma shorten_cache_within (P : str -> str -> Prop) o u st self :
  (forall url v n content_type,
      tinyurl w n url = Response 200 content_type v -> P url v) ->
  (forall url v, local_short_url url = Some v -> P url v) ->
  cache_within self P st ->
  cache_within self P (state_of (shorten w o u st)).
Proof.
  intros Hservice Hlocal Hin.
  destruct (shorten_cases o u st) as [(c & _ & ->)|(_ & st1 & Hst1 & Hcase)];
    [exact Hin|].
  assert (Hin1 : cache_within self P st1).
  { destruct Hst1 as [->| ->]; [exact Hin|].
    intros url v Hc. apply cached_logged in Hc. now apply Hin. }
  destruct Hcase as [(x & Hx & -> & Hfrom)|(_ & ->)]; simpl; [|exact Hin1].
  intros url v Hc. apply cached_put in Hc.
  case_decide as Hd; [|now apply Hin1].
  destruct Hd as [-> ->]. subst v.
  destruct Hfrom as [(ct & Ht)|Hl]; [eapply Hservice; eauto|now apply Hlocal].
Qed.

End ShortenerFacts.

(** ** C2: the value of [shorten] is stable inside one shortener *)

(** C2, as amended. Inside one [UrlShortener] object (the one of the search
    tool or the one of the agent), for every long URL that UTF-8 can
    encode: a call of [shorten] returns a short URL, and every later call
    for that URL on the same object, whatever calls were made in between,
    returns the same short URL and leaves the state as it is, so it makes
    no external call. *)
Theorem shorten_stable_per_shortener (w : world) (self : owner) (url : str) (st : state) :
  is_Some (encode url) ->
  exists v st1,
    shorten w self url st = Ret v st1 /\
    forall calls,
      shorten w self url (after_calls w calls st1) = Ret v (after_calls w calls st1).
Proof.
  intros Henc.
  pose proof (shorten_total w self url st Henc) as Hret.
  destruct (shorten w self url st) as [v st1|] eqn:E; [|contradiction].
  exists v, st1. split; [reflexivity|]. intros calls.
  apply shorten_hit, after_calls_keeps. eapply shorten_returns; eauto.
Qed.

(** The statement above for the search tool, on a first resolution in the
    initial state while the service is down. *)
Lemma shorten_stable_per_shortener_witness :
  exists v st1,
    shorten recovering_world SearchTool (py "https://example.com/a") initial_state
      = Ret v st1 /\
    forall calls,
      shorten recovering_world SearchTool (py "https://example.com/a")
        (after_calls recovering_world calls st1)
      = Ret v (after_calls recovering_world calls st1).
Proof.
  apply (shorten_stable_per_shortener recovering_world SearchTool
           (py "https://example.com/a") initial_state).
  vm_compute. eauto.
Defined.

(** C2 fails across the components: the search tool and the agent hold two
    shorteners. After the search tool has resolved a URL (to the local
    form, the service being down), the agent resolves the same URL again:
    it calls the service a second time and gets another short URL. *)
Lemma shorten_not_stable_across_components :
  let url := py "https://example.com/a" in
  let first := shorten recovering_world SearchTool url initial_state in
  let second := shorten recovering_world Agent url (state_of first) in
  value_of first = Some (py "https://short.url/cd69b81e") /\
  value_of second = Some (py "https://tinyurl.com/abc") /\
  value_of first <> value_of second /\
  journal (state_of first) = [TinyUrlGet url] /\
  journal (state_of second) = [TinyUrlGet url; TinyUrlGet url].
Proof.
  vm_compute. repeat split; try reflexivity. discriminate.
Qed.

(** ** Printing *)

Section PrintFacts.

Lemma encode_app a : forall b,
  encode (a ++ b) =
    match encode a, encode b with
    | Some x, Some y => Some (x ++ y)
    | _, _ => None
    end.
Proof.
  induction a as [|c a IH]; intros b.
  - cbn [app encode]. destruct (encode b); reflexivity.
  - cbn [app encode]. rewrite IH.
    destruct (encode_point c), (encode a), (encode b); try reflexivity.
    rewrite app_assoc. reflexivity.
Qed.

Lemma printable_app a b : printable (a ++ b) = printable a && printable b.
Proof.
  unfold printable. rewrite encode_app.
  destruct (encode a), (encode b); reflexivity.
Qed.

Lemma printable_label label text :
  printable label = true -> printable (label ++ text) = printable text.
Proof. intros H. rewrite printable_app, H. reflexivity. Qed.

Lemma printable_tail text tail :
  printable tail = true -> printable (text ++ tail) = printable text.
Proof. intros H. rewrite printable_app, H. apply andb_true_r. Qed.

Lemma printable_encode text : printable text = true <-> is_Some (encode text).
Proof.
  unfold printable. destruct (encode text); split; eauto; try discriminate.
  intros [x Hx]. discriminate.
Qed.

Lemma print_ok text st : printable text = true -> print_ text st = Ret tt st.
Proof. unfold print_. intros ->. reflexivity. Qed.

Lemma print_fails text st :
  printable text = false -> print_ text st = Raise UnicodeEncodeError st.
Proof. unfold print_. intros ->. reflexivity. Qed.

Lemma print_state text st : state_of (print_ text st) = st.
Proof. unfold print_. destruct (printable text); reflexivity. Qed.

End PrintFacts.

(** ** C4: the retry loop of the page fetcher *)

Section PageFetcher.

Context (w : world) (lib : libraries).

Lemma logged_all_app evs evs' st :
  logged_all evs' (logged_all evs st) = logged_all (evs ++ evs') st.
Proof. unfold logged_all. simpl. now rewrite app_assoc. Qed.

Lemma decode_content_spec content_type content st :
  decode_content lib content_type content st =
    match decoded_page lib content_type content with
    | Some html_content => Ret html_content st
    | None => Raise OtherException st
    end.
Proof.
  unfold decode_content, decoded_page.
  destruct (str_in _ content_type); [|reflexivity].
  destruct (decode lib _ content); reflexivity.
Qed.

(** One turn of the loop, from the answer of the site. *)
Lemma attempt_spec url retry_count st :
  let r := site w (length (journal st)) url in
  attempt w lib url retry_count st =
    if retryable lib r then
      if retry_count <? max_retries then
        Ret (Continue (retry_count + 1)) (logged_all [PageGet url; Sleep 1] st)
      else
        if printable url then Ret (Return None) (logged_all [PageGet url] st)
        else Raise UnicodeEncodeError (logged_all [PageGet url] st)
    else
      match page_of lib r with
      | Some html_content =>
          Ret (Return (Some html_content)) (logged_all [PageGet url] st)
      | None =>
          if printable url then Ret (Return None) (logged_all [PageGet url] st)
          else Raise UnicodeEncodeError (logged_all [PageGet url] st)
      end.
Proof.
  assert (P1 : printable (py "無法訪問網站 " ++ url) = printable url)
    by (apply printable_label; reflexivity).
  assert (P2 : printable (py "HTTP錯誤 " ++ url) = printable url)
    by (apply printable_label; reflexivity).
  assert (P3 : printable (py "無法獲取頁面內容 " ++ url) = printable url)
    by (apply printable_label; reflexivity).
  unfold attempt, try_except, client_get, raise_for_status, sleep, page_of, retryable,
    logged_all, print_.
  rewrite P1, P2, P3.
  unfold_M. simpl.
  destruct (site w (length (journal st)) url) as [| |status ct body]; simpl.
  - destruct (retry_count <? max_retries); simpl; [now rewrite <- app_assoc|].
    destruct (printable url); reflexivity.
  - destruct (printable url); reflexivity.
  - destruct ((400 <=? status) && (status <? 600)); simpl.
    + destruct (retry_count <? max_retries); simpl; [now rewrite <- app_assoc|].
      destruct (printable url); reflexivity.
    + destruct (raises_for_status lib status); simpl.
      * destruct (retry_count <? max_retries); simpl; [now rewrite <- app_assoc|].
        destruct (printable url); reflexivity.
      * rewrite decode_content_spec.
        destruct (decoded_page lib ct body); simpl; [reflexivity|].
        destruct (printable url); reflexivity.
Qed.

Lemma attempts_step fuel url retry_count st :
  attempts w lib (S fuel) url retry_count st =
    if retry_count <=? max_retries then
      let r := site w (length (journal st)) url in
      if retryable lib r && (retry_count <? max_retries) then
        attempts w lib fuel url (retry_count + 1)
          (logged_all [PageGet url; Sleep 1] st)
      else
        fetch_outcome url (page_of lib r) (logged_all [PageGet url] st)
    else Ret None st.
Proof.
  assert (Hpage : forall r, retryable lib r = true -> page_of lib r = None).
  { intros [| |s ct b] H; try reflexivity. unfold page_of. now rewrite H. }
  cbn [attempts]. destruct (retry_count <=? max_retries); [|reflexivity].
  unfold mbind, M_bind. rewrite attempt_spec. cbv zeta. unfold fetch_outcome.
  destruct (retryable lib _) eqn:Hr; cbn [andb].
  - destruct (retry_count <? max_retries); [reflexivity|].
    rewrite (Hpage _ Hr). destruct (printable url); reflexivity.
  - destruct (page_of lib _); [reflexivity|]. destruct (printable url); reflexivity.
Qed.

Lemma journal_logged_all evs st :
  journal (logged_all evs st) = journal st ++ evs.
Proof. reflexivity. Qed.

(** The whole loop, from the answers of the site: [k] retries, where
    every attempt before the last one was retryable and, unless the last
    one is the third, the last one was not. *)
Lemma attempts_spec extra url st :
  let answer j := site w (length (journal st) + 2 * j) url in
  exists k, (k <= 2)%nat /\
    (forall j, (j < k)%nat -> retryable lib (answer j) = true) /\
    ((k < 2)%nat -> retryable lib (answer k) = false) /\
    attempts w lib (3 + extra) url 0 st =
      fetch_outcome url (page_of lib (answer k))
        (logged_all (attempts_trace url k) st).
Proof.
  intros answer.
  assert (A0 : site w (length (journal st)) url = answer 0%nat).
  { unfold answer. f_equal. lia. }
  assert (A1 : site w (length (journal (logged_all [PageGet url; Sleep 1] st))) url
               = answer 1%nat).
  { unfold answer. rewrite journal_logged_all, length_app. f_equal. }
  assert (A2 : site w (length (journal (logged_all [PageGet url; Sleep 1]
                 (logged_all [PageGet url; Sleep 1] st)))) url = answer 2%nat).
  { unfold answer. rewrite !journal_logged_all, !length_app. simpl. f_equal. lia. }
  change (3 + extra)%nat with (S (S (S extra))).
  rewrite attempts_step. change (0 <=? max_retries) with true. cbv iota zeta.
  rewrite A0. change (0 <? max_retries) with true. rewrite andb_true_r.
  destruct (retryable lib (answer 0%nat)) eqn:R0.
  2:{ exists 0%nat. repeat split; [lia|intros; lia|auto]. }
  rewrite attempts_step. change (0 + 1 <=? max_retries) with true. cbv iota zeta.
  rewrite A1. change (0 + 1 <? max_retries) with true. rewrite andb_true_r.
  destruct (retryable lib (answer 1%nat)) eqn:R1.
  2:{ exists 1%nat. repeat split; [lia| |auto|].
      - intros j Hj. assert (j = 0%nat) as -> by lia. exact R0.
      - now rewrite logged_all_app. }
  rewrite attempts_step. change (0 + 1 + 1 <=? max_retries) with true. cbv iota zeta.
  rewrite A2. change (0 + 1 + 1 <? max_retries) with false. rewrite andb_false_r.
  exists 2%nat. repeat split; [lia| |intros; lia|].
  - intros j Hj. destruct j as [|[|j]]; [exact R0|exact R1|lia].
  - rewrite !logged_all_app. reflexivity.
Qed.

Lemma fetch_outcome_printable url page st :
  printable url = true -> fetch_outcome url page st = Ret page st.
Proof. unfold fetch_outcome. intros ->. destruct page; reflexivity. Qed.

Lemma fetch_outcome_state url page st : state_of (fetch_outcome url page st) = st.
Proof. unfold fetch_outcome. destruct page, (printable url); reflexivity. Qed.

End PageFetcher.

(** C4, as amended. [get_page_content] makes [k + 1 <= 3] requests and
    sleeps one second before each request but the first. A request is
    followed by another one exactly when fewer than three were made and it
    was retryable: it raised an [httpx.HTTPError], or its status code is
    between 400 and 599, or [raise_for_status] rejects its status code.
    The call returns the decoded page of the last request, or it fails,
    which is after the third request, or at once when a request raises an
    exception that is not an [httpx.HTTPError] or when the codec of the
    declared character set raises an exception that is neither
    [UnicodeDecodeError] nor [LookupError]. A failure is the value [None]
    for every URL that [print] can show, so that the call raises nothing
    then; for another URL (a lone surrogate) it is the [UnicodeEncodeError]
    of the print of the failure. Nothing else changes in the state. *)
Theorem get_page_content_retries (w : world) (lib : libraries) (url : str) (st : state) :
  let answer j := site w (length (journal st) + 2 * j) url in
  exists k, (k <= 2)%nat /\
    (forall j, (j < k)%nat -> retryable lib (answer j) = true) /\
    ((k < 2)%nat -> retryable lib (answer k) = false) /\
    get_page_content w lib url st =
      fetch_outcome url (page_of lib (answer k)) (logged_all (attempts_trace url k) st) /\
    (printable url = true ->
     get_page_content w lib url st =
       Ret (page_of lib (answer k)) (logged_all (attempts_trace url k) st)) /\
    length (page_gets (attempts_trace url k)) = S k /\
    (forall extra, attempts w lib (3 + extra) url 0 st = get_page_content w lib url st).
Proof.
  intros answer.
  destruct (attempts_spec w lib 0 url st) as (k & Hk & Hbefore & Hlast & E).
  exists k. split; [exact Hk|]. split; [exact Hbefore|]. split; [exact Hlast|].
  split; [exact E|]. split; [|split].
  - intros Hurl. unfold get_page_content.
    change (attempts w lib 3 url 0 st) with (attempts w lib (3 + 0) url 0 st).
    rewrite E. now apply fetch_outcome_printable.
  - destruct k as [|[|[|k]]]; try reflexivity. lia.
  - intros extra. unfold get_page_content.
    destruct (attempts_spec w lib extra url st) as (k' & Hk' & Hbefore' & Hlast' & E').
    change (attempts w lib 3 url 0 st) with (attempts w lib (3 + 0) url 0 st).
    rewrite E, E'.
    assert (k' = k) as ->; [|reflexivity].
    destruct (Nat.lt_trichotomy k' k) as [Hlt|[Heq|Hgt]]; [|exact Heq|].
    + rewrite Hbefore in Hlast' by exact Hlt. assert (k' < 2)%nat by lia.
      specialize (Hlast' ltac:(lia)). discriminate.
    + rewrite Hbefore' in Hlast by exact Hgt.
      specialize (Hlast ltac:(lia)). discriminate.
Qed.

(** The statement above for a site that cannot be reached: three requests,
    two pauses, and [None]. *)
Lemma get_page_content_retries_witness :
  let w := offline_world None in
  let lib := plain_libraries in
  let url := py "https://example.com/a" in
  let st := initial_state in
  let answer j := site w (length (journal st) + 2 * j) url in
  get_page_content w lib url st = Ret None (logged_all (attempts_trace url 2) st) /\
  exists k, (k <= 2)%nat /\
    (forall j, (j < k)%nat -> retryable lib (answer j) = true) /\
    ((k < 2)%nat -> retryable lib (answer k) = false) /\
    get_page_content w lib url st =
      fetch_outcome url (page_of lib (answer k)) (logged_all (attempts_trace url k) st) /\
    (printable url = true ->
     get_page_content w lib url st =
       Ret (page_of lib (answer k)) (logged_all (attempts_trace url k) st)) /\
    length (page_gets (attempts_trace url k)) = S k /\
    (forall extra, attempts w lib (3 + extra) url 0 st = get_page_content w lib url st).
Proof.
  cbv zeta. split; [vm_compute; reflexivity|].
  exact (get_page_content_retries (offline_world None) plain_libraries
           (py "https://example.com/a") initial_state).
Defined.

(** C4 fails where it says that a failure is returned only after all
    attempts are exhausted: here the first request is answered with status
    200 and a page that declares the character set [undefined]; decoding
    raises [UnicodeError], the clause [except Exception] returns [None], and
    one request has been made. *)
Lemma get_page_content_fails_without_retry :
  let url := py "https://example.com/a" in
  let o := get_page_content undefined_charset_world codec_libraries url initial_state in
  site undefined_charset_world 0 url
    = Response 200 (py "text/html; charset=undefined") (py "<p>Hello</p>") /\
  retryable codec_libraries (site undefined_charset_world 0 url) = false /\
  charset_of (py "text/html; charset=undefined") = py "undefined" /\
  o = Ret None (state_of o) /\
  journal (state_of o) = [PageGet url] /\
  length (page_gets (journal (state_of o))) = 1%nat.
Proof.
  vm_compute. repeat split; reflexivity.
Qed.

(** ** Lists *)

Lemma in_firstn {A} (x : A) n l : In x (firstn n l) -> In x l.
Proof.
  intros H. rewrite <- (firstn_skipn n l). apply in_or_app. now left.
Qed.

Lemma in_skipn {A} (x : A) n l : In x (skipn n l) -> In x l.
Proof.
  intros H. rewrite <- (firstn_skipn n l). apply in_or_app. now right.
Qed.

(** ** Frame rules of the monad *)

Section Frames.

Context {rel : state -> state -> Prop}.
Context (rel_refl : forall st, rel st st).
Context (rel_trans : forall a b c, rel a b -> rel b c -> rel a c).

Lemma preserves_ret {A} (a : A) : preserves rel (mret a).
Proof. intros st. apply rel_refl. Qed.

Lemma preserves_bind {A B} (m : M A) (f : A -> M B) :
  preserves rel m -> (forall a, preserves rel (f a)) -> preserves rel (m ≫= f).
Proof.
  intros Hm Hf st. unfold mbind, M_bind. specialize (Hm st).
  destruct (m st) as [a st1|e st1]; simpl in *; [|exact Hm].
  eapply rel_trans; [exact Hm|apply Hf].
Qed.

Lemma preserves_try_except {A} (body : M A) clauses :
  preserves rel body ->
  (forall cl e, In cl clauses -> preserves rel (snd cl e)) ->
  preserves rel (try_except body clauses).
Proof.
  intros Hb Hc st. unfold try_except. specialize (Hb st).
  destruct (body st) as [a st1|e st1]; simpl in *; [exact Hb|].
  destruct (find (fun cl : clause A => fst cl e) clauses) as [cl|] eqn:F; [|exact Hb].
  apply find_some in F as [Hin _].
  eapply rel_trans; [exact Hb|]. now apply Hc.
Qed.

Lemma preserves_for_each {A B} (body : A -> M B) xs :
  (forall x, In x xs -> preserves rel (body x)) -> preserves rel (for_each body xs).
Proof.
  induction xs as [|x xs IH]; intros H; cbn [for_each].
  - apply preserves_ret.
  - apply preserves_bind; [apply H; now left|]. intros y.
    apply preserves_bind; [apply IH; intros; apply H; now right|].
    intros ys. apply preserves_ret.
Qed.

End Frames.

Section StoreFrames.

Lemma same_store_refl st : same_store st st.
Proof. reflexivity. Qed.

Lemma same_store_trans a b c : same_store a b -> same_store b c -> same_store a c.
Proof. unfold same_store. congruence. Qed.

Lemma read_same_store r : preserves same_store (read r).
Proof. intros st. unfold read. destruct (store st !! r); reflexivity. Qed.

Lemma shorten_same_store w o u : preserves same_store (shorten w o u).
Proof. intros st. apply shorten_store. Qed.

End StoreFrames.

(** ** Strings: prefixes, occurrences, the pattern of URLs *)

Section StringFacts.

Lemma startswith_app p r : startswith p (p ++ r) = true.
Proof. induction p as [|a p IH]; simpl; [reflexivity|]. now rewrite N.eqb_refl. Qed.

Lemma startswith_split p : forall s, startswith p s = true -> exists r, s = p ++ r.
Proof.
  induction p as [|a p IH]; intros s H; simpl in *; [eauto|].
  destruct s as [|b s]; [discriminate|].
  apply andb_prop in H as [Hab H]. apply N.eqb_eq in Hab. subst b.
  destruct (IH s H) as [r ->]. eauto.
Qed.

Lemma startswith_nil_r p : startswith p [] = true -> p = [].
Proof. destruct p; [reflexivity|discriminate]. Qed.

Lemma str_in_cons p c s :
  str_in p (c :: s) = startswith p (c :: s) || str_in p s.
Proof. reflexivity. Qed.

Lemma occurrences_zero p : forall s, occurrences p s = 0%nat <-> str_in p s = false.
Proof.
  induction s as [|c s IH].
  - simpl. destruct (startswith p []); simpl; split; intros; congruence || lia.
  - cbn [occurrences str_in]. destruct (startswith p (c :: s)); simpl.
    + split; intros; congruence || lia.
    + exact IH.
Qed.

Lemma take_while_split f : forall s,
  exists rest, s = take_while f s ++ rest /\
               forallb f (take_while f s) = true /\
               (rest = [] \/ exists d r, rest = d :: r /\ f d = false).
Proof.
  induction s as [|c s IH]; simpl.
  - exists []. auto.
  - destruct (f c) eqn:Hc.
    + destruct IH as (rest & E & Hall & Hend). exists rest. simpl.
      rewrite Hc, Hall. repeat split; auto. congruence.
    + exists (c :: s). repeat split; auto. right. eauto.
Qed.

Lemma scheme_chars prefix :
  prefix = scheme_http \/ prefix = scheme_https ->
  forallb url_char prefix = true /\ exists rest, prefix = 104 :: rest.
Proof. intros [->| ->]; split; try reflexivity; eexists; reflexivity. Qed.

(** A match splits the text into the match and a rest that starts with no
    character of the class. *)
Lemma match_url_Some s u :
  match_url s = Some u ->
  exists rest, s = u ++ rest /\ ends_url rest /\ url_parts u.
Proof.
  unfold match_url.
  set (scheme := if startswith scheme_https s then Some scheme_https
                 else if startswith scheme_http s then Some scheme_http else None).
  assert (Hs : forall prefix, scheme = Some prefix ->
            (prefix = scheme_http \/ prefix = scheme_https) /\
            exists tail, s = prefix ++ tail).
  { intros prefix. subst scheme.
    destruct (startswith scheme_https s) eqn:H1.
    - intros E. injection E as <-. split; [now right|]. now apply startswith_split.
    - destruct (startswith scheme_http s) eqn:H2; [|discriminate].
      intros E. injection E as <-. split; [now left|]. now apply startswith_split. }
  destruct scheme as [prefix|]; [|discriminate].
  destruct (Hs prefix eq_refl) as (Hp & tail & ->).
  rewrite drop_app_length.
  destruct (take_while_split url_char tail) as (rest & E & Hall & Hend).
  destruct (take_while url_char tail) as [|b body] eqn:Hb; [discriminate|].
  intros Hu. injection Hu as <-.
  exists rest. split; [rewrite <- app_assoc; congruence|].
  split; [exact Hend|]. exists prefix, b, body. auto.
Qed.

Lemma url_shaped_parts u : url_shaped u -> url_parts u.
Proof.
  intros H. destruct (match_url_Some u u H) as (rest & _ & _ & Hp). exact Hp.
Qed.

Lemma url_parts_chars u :
  url_parts u -> forallb url_char u = true /\ exists rest, u = 104 :: rest.
Proof.
  intros (prefix & b & body & Hp & -> & Hall).
  destruct (scheme_chars prefix Hp) as (Hc & rest & ->).
  split; [|eexists; reflexivity].
  rewrite forallb_app, Hc. exact Hall.
Qed.

(** A text that starts with a URL has a match at its start. *)
Lemma match_url_of_prefix u s :
  url_parts u -> startswith u s = true -> match_url s <> None.
Proof.
  intros (prefix & b & body & Hp & -> & Hall) H.
  destruct (startswith_split _ _ H) as [r ->].
  simpl in Hall. apply andb_prop in Hall as [Hb _].
  destruct Hp as [->| ->]; unfold match_url; cbn; rewrite Hb; discriminate.
Qed.

End StringFacts.

Section Straddle.

(** One more character of [x] against the scheme: either [x] ends here,
    and the next character of the text, an [h], is not the one that the
    scheme has at this place; or [x] goes on with the character of the
    scheme. *)
Ltac next_char H x :=
  let Heq := fresh "Heq" in
  destruct x as [|? x]; cbn [startswith app] in H;
  apply andb_prop in H as [Heq H];
  [ vm_compute in Heq; discriminate Heq | apply N.eqb_eq in Heq; subst ].

Lemma url_parts_one prefix c :
  prefix = scheme_http \/ prefix = scheme_https -> url_char c = true ->
  url_parts (prefix ++ [c]).
Proof.
  intros Hp Hc. exists prefix, c, []. repeat split; auto. simpl. now rewrite Hc.
Qed.

(** A URL cannot start in the text before a URL and end inside it, unless
    the text before already starts a match. *)
Lemma straddle L x Y Z :
  url_parts L -> x <> [] ->
  startswith L (x ++ 104 :: Y) = true ->
  match_url (x ++ 104 :: Z) <> None.
Proof.
  intros (prefix & b & body & Hp & -> & Hall) Hx H.
  simpl in Hall. apply andb_prop in Hall as [Hb _].
  destruct x as [|x0 x]; [congruence|]. clear Hx.
  destruct Hp as [->| ->]; unfold scheme_http, scheme_https in H;
    cbn [startswith app] in H;
    apply andb_prop in H as [Heq H]; apply N.eqb_eq in Heq; subst.
  - do 6 next_char H x.
    destruct x as [|x7 x]; cbn [startswith app] in H.
    + apply (match_url_of_prefix (scheme_http ++ [104])).
      * apply url_parts_one; [now left|reflexivity].
      * reflexivity.
    + apply andb_prop in H as [Heq _]. apply N.eqb_eq in Heq. subst.
      apply (match_url_of_prefix (scheme_http ++ [x7])).
      * apply url_parts_one; [now left|exact Hb].
      * exact (startswith_app _ (x ++ 104 :: Z)).
  - do 7 next_char H x.
    destruct x as [|x8 x]; cbn [startswith app] in H.
    + apply (match_url_of_prefix (scheme_https ++ [104])).
      * apply url_parts_one; [now right|reflexivity].
      * reflexivity.
    + apply andb_prop in H as [Heq _]. apply N.eqb_eq in Heq. subst.
      apply (match_url_of_prefix (scheme_https ++ [x8])).
      * apply url_parts_one; [now right|exact Hb].
      * exact (startswith_app _ (x ++ 104 :: Z)).
Qed.

End Straddle.

Section ReplaceFacts.

Lemma replace_from_skip old new a : forall t,
  replace_from old new (length a) (a ++ t) = replace_from old new 0 t.
Proof. induction a as [|c a IH]; intros t; simpl; [reflexivity|apply IH]. Qed.

Lemma replace_from_hit old new t :
  old <> [] ->
  replace_from old new 0 (old ++ t) = new ++ replace_from old new 0 t.
Proof.
  destruct old as [|c old]; [congruence|]. intros _.
  cbn [app replace_from].
  change (c :: old ++ t) with ((c :: old) ++ t). rewrite startswith_app.
  replace (length (c :: old) - 1)%nat with (length old) by (simpl; lia).
  now rewrite replace_from_skip.
Qed.

Lemma replace_from_miss old new c t :
  startswith old (c :: t) = false ->
  replace_from old new 0 (c :: t) = c :: replace_from old new 0 t.
Proof. intros H. cbn [replace_from]. now rewrite H. Qed.

Lemma replace_nonempty old new t :
  old <> [] -> replace old new t = replace_from old new 0 t.
Proof. destruct old; [congruence|reflexivity]. Qed.

Lemma findall_from_skip a : forall t,
  findall_from (length a) (a ++ t) = findall_from 0 t.
Proof. induction a as [|c a IH]; intros t; simpl; [reflexivity|apply IH]. Qed.

Lemma findall_miss c t : match_url (c :: t) = None -> findall (c :: t) = findall t.
Proof. intros H. unfold findall. cbn [findall_from]. now rewrite H. Qed.

Lemma findall_hit u t :
  u <> [] -> match_url (u ++ t) = Some u -> findall (u ++ t) = u :: findall t.
Proof.
  destruct u as [|c u]; [congruence|]. intros _ H.
  unfold findall. cbn [app findall_from].
  change (c :: u ++ t) with ((c :: u) ++ t). rewrite H.
  replace (length (c :: u) - 1)%nat with (length u) by (simpl; lia).
  now rewrite findall_from_skip.
Qed.

(** A string of the class that is a prefix of [a ++ t], where [t] starts
    outside the class, is a prefix of [a]. *)
Lemma startswith_before_end L : forall a t,
  forallb url_char L = true -> ends_url t ->
  startswith L (a ++ t) = true -> startswith L a = true.
Proof.
  induction L as [|c L IH]; intros a t Hall Hend H; [reflexivity|].
  simpl in Hall. apply andb_prop in Hall as [Hc Hall].
  destruct a as [|x a].
  - simpl in H. destruct Hend as [->|(d & r & -> & Hd)]; [discriminate|].
    apply andb_prop in H as [Heq _]. apply N.eqb_eq in Heq. congruence.
  - cbn [app startswith] in *. apply andb_prop in H as [Heq H].
    rewrite Heq. simpl. eapply IH; eauto.
Qed.

Lemma startswith_str_in p s : startswith p s = true -> str_in p s = true.
Proof. intros H. destruct s; simpl in *; now rewrite H. Qed.

(** No occurrence of [L] in [v], none in [R], and [R] starts outside the
    class: none in [v ++ R]. *)
Lemma str_in_app_ends L R : forall v,
  forallb url_char L = true -> ends_url R ->
  str_in L v = false -> str_in L R = false -> str_in L (v ++ R) = false.
Proof.
  induction v as [|c v IH]; intros Hall Hend Hv HR; [exact HR|].
  cbn [app]. rewrite str_in_cons. rewrite str_in_cons in Hv.
  apply orb_false_elim in Hv as [Hs Hv].
  rewrite (IH Hall Hend Hv HR), orb_false_r.
  destruct (startswith L (c :: v ++ R)) eqn:E; [|reflexivity].
  change (c :: v ++ R) with ((c :: v) ++ R) in E.
  apply startswith_before_end in E; auto. congruence.
Qed.

(** [replace] copies a stretch in which [L] does not occur, when the text
    after it starts outside the class. *)
Lemma replace_from_copy L S t : forall a,
  forallb url_char L = true -> ends_url t -> str_in L a = false ->
  replace_from L S 0 (a ++ t) = a ++ replace_from L S 0 t.
Proof.
  induction a as [|c a IH]; intros Hall Hend Ha; [reflexivity|].
  rewrite str_in_cons in Ha. apply orb_false_elim in Ha as [Hs Ha].
  cbn [app]. rewrite replace_from_miss; [now rewrite IH|].
  destruct (startswith L (c :: a ++ t)) eqn:E; [|reflexivity].
  change (c :: a ++ t) with ((c :: a) ++ t) in E.
  apply startswith_before_end in E; auto. congruence.
Qed.

Lemma replace_from_absent L S : forall t,
  str_in L t = false -> replace_from L S 0 t = t.
Proof.
  induction t as [|c t IH]; intros H; [reflexivity|].
  rewrite str_in_cons in H. apply orb_false_elim in H as [Hs Ht].
  rewrite replace_from_miss by exact Hs. now rewrite IH.
Qed.

Lemma startswith_length p : forall s,
  startswith p s = true -> (length p <= length s)%nat.
Proof.
  induction p as [|a p IH]; intros s H; simpl; [lia|].
  destruct s as [|b s]; [discriminate|].
  simpl in H. apply andb_prop in H as [_ H]. apply IH in H. simpl. lia.
Qed.

Lemma startswith_app_l p : forall s t,
  startswith p s = true -> startswith p (s ++ t) = true.
Proof.
  induction p as [|a p IH]; intros s t H; [reflexivity|].
  destruct s as [|b s]; [discriminate|].
  cbn [app startswith] in *. apply andb_prop in H as [Hab H].
  rewrite Hab. simpl. now apply IH.
Qed.

(** [replace] of a string of the class works on a stretch by itself when
    the text after the stretch starts outside the class. *)
Lemma replace_from_app_ends old new t :
  forallb url_char old = true -> ends_url t ->
  forall a k, (k <= length a)%nat ->
    replace_from old new k (a ++ t)
    = replace_from old new k a ++ replace_from old new 0 t.
Proof.
  intros Hall Hend. induction a as [|c a IH]; intros k Hk.
  - simpl in Hk. assert (k = 0%nat) as -> by lia.
    destruct t; reflexivity.
  - destruct k as [|k]; cbn [app replace_from].
    + destruct (startswith old (c :: a ++ t)) eqn:E.
      * change (c :: a ++ t) with ((c :: a) ++ t) in E.
        apply startswith_before_end in E; auto. rewrite E.
        apply startswith_length in E. simpl in E.
        rewrite IH by lia. now rewrite app_assoc.
      * destruct (startswith old (c :: a)) eqn:E'.
        -- apply (startswith_app_l _ _ t) in E'. cbn [app] in E'. congruence.
        -- rewrite IH by (simpl; lia). reflexivity.
    + apply IH. simpl in Hk. lia.
Qed.

Lemma replace_from_whole old new : old <> [] -> replace_from old new 0 old = new.
Proof.
  intros H. rewrite <- (app_nil_r old) at 2.
  rewrite replace_from_hit by exact H. simpl. apply app_nil_r.
Qed.

Lemma replace_from_head old r t :
  old <> [] -> exists r'', replace_from old (104 :: r) 0 (104 :: t) = 104 :: r''.
Proof.
  intros _. cbn [replace_from].
  destruct (startswith old (104 :: t)); cbn [app]; eauto.
Qed.

End ReplaceFacts.

(** ** C6, C7, C8: the content extractor *)

(** C6, the cleaner of the pipeline against the claim. The list of
    containers of [_clean_html_content] has no [body], and no container is
    set aside for being short: on the teaser page it selects the six
    characters of the article. The cleaner of summarizer.py, which has
    both, selects the body. *)
Theorem pipeline_cleaner_selects_short_container :
  let lib := library_of [(teaser_markup, teaser_page)] in
  _clean_html_content lib teaser_markup = py "Teaser" /\
  _clean_html lib teaser_markup = py "Teaser " ++ repeat 120 120 /\
  last content_selectors = Some (DivWithClass (py "post")) /\
  last content_selectors_summarizer = Some (ByName (py "body")).
Proof. vm_compute. repeat split; reflexivity. Qed.

Lemma limit_length_exact main_content :
  main_content <> [] ->
  length (normalize main_content) = max_content_length ->
  limit_length main_content = normalize main_content ++ truncation_marker /\
  limit_length_summarizer main_content = normalize main_content.
Proof.
  intros Hne Hlen. unfold limit_length, limit_length_summarizer.
  destruct main_content as [|c rest]; [congruence|].
  rewrite firstn_all2 by lia. rewrite Hlen.
  rewrite Nat.eqb_refl, Nat.ltb_irrefl. split; reflexivity.
Qed.

Section PlainText.

(** A text without white space. *)
Context (t : str) (Hplain : forallb (fun c => negb (isspace c)) t = true).

Lemma lstrip_plain s :
  forallb (fun c => negb (isspace c)) s = true -> lstrip s = s.
Proof.
  destruct s as [|c s]; [reflexivity|]. simpl. intros H.
  apply andb_prop in H as [Hc _]. apply negb_true_iff in Hc. now rewrite Hc.
Qed.

Lemma forallb_rev {A} (f : A -> bool) (l : list A) :
  forallb f l = true -> forallb f (rev l) = true.
Proof.
  intros H. apply forallb_forall. intros x Hx. apply in_rev in Hx.
  rewrite forallb_forall in H. now apply H.
Qed.

Lemma strip_plain : strip t = t.
Proof.
  unfold strip, rstrip. rewrite (lstrip_plain t Hplain).
  rewrite lstrip_plain by now apply forallb_rev.
  apply rev_involutive.
Qed.

Lemma collapse_plain s :
  forallb (fun c => negb (isspace c)) s = true -> collapse_from false s = s.
Proof.
  induction s as [|c s IH]; [reflexivity|]. simpl. intros H.
  apply andb_prop in H as [Hc H]. apply negb_true_iff in Hc.
  rewrite Hc. now rewrite IH.
Qed.

Lemma normalize_plain : normalize t = t.
Proof.
  unfold normalize, collapse_spaces. rewrite collapse_plain by exact Hplain.
  exact strip_plain.
Qed.

(** The page made of one paragraph with the text [t]: both cleaners
    select the text of the paragraph. *)
Lemma paragraph_main_content :
  t <> [] ->
  main_content_of (flat_map decompose [tag "p" [Text t]]) = t /\
  main_content_of_summarizer (flat_map decompose [tag "p" [Text t]]) = t.
Proof.
  intros Hne.
  assert (Hsoup : flat_map decompose [tag "p" [Text t]] = [tag "p" [Text t]])
    by reflexivity.
  assert (Hnone : potential_content_elements content_selectors_summarizer
                    [tag "p" [Text t]] = []) by reflexivity.
  assert (Hnone' : potential_content_elements content_selectors
                     [tag "p" [Text t]] = []) by reflexivity.
  assert (Hpar : paragraphs_or_page [tag "p" [Text t]] = t).
  { unfold paragraphs_or_page.
    change (select (ByName (py "p")) [tag "p" [Text t]]) with [tag "p" [Text t]].
    cbn [map join]. unfold get_text, stripped_strings.
    cbn [flat_map strings tag app map]. rewrite strip_plain.
    cbn [List.filter]. unfold str_eqb.
    rewrite bool_decide_eq_false_2 by exact Hne. reflexivity. }
  unfold main_content_of, main_content_of_summarizer.
  rewrite Hsoup, Hnone, Hnone'. split; exact Hpar.
Qed.

End PlainText.

Lemma full_text_plain : forallb (fun c => negb (isspace c)) full_text = true.
Proof.
  unfold full_text. induction max_content_length as [|n IH]; [reflexivity|].
  simpl. exact IH.
Qed.

Lemma full_page_parsed :
  parser_of [(full_markup, full_page)] full_markup = Some full_page.
Proof.
  unfold parser_of. cbn [find fst]. unfold str_eqb.
  rewrite bool_decide_eq_true_2 by reflexivity. reflexivity.
Qed.

(** C7, the cleaner of the pipeline against the claim. A text of exactly
    10,000 characters is not cut, and [_clean_html_content] still appends
    the marker, because it compares the length that was kept with the
    maximum; the cleaner of summarizer.py compares it with the length before
    the cut and appends nothing. *)
Theorem pipeline_cleaner_marks_uncut_text :
  let lib := library_of [(full_markup, full_page)] in
  length full_text = max_content_length /\
  _clean_html_content lib full_markup = full_text ++ truncation_marker /\
  _clean_html lib full_markup = full_text.
Proof.
  cbv zeta. split; [apply repeat_length|].
  unfold _clean_html_content, _clean_html, library_of. cbn [html_parser].
  rewrite full_page_parsed.
  assert (Hlen : length full_text = max_content_length) by apply repeat_length.
  assert (Hne : full_text <> []).
  { intros E. rewrite E in Hlen. discriminate Hlen. }
  unfold full_page.
  destruct (paragraph_main_content full_text full_text_plain Hne) as [-> ->].
  rewrite <- (normalize_plain full_text full_text_plain) in Hlen.
  destruct (limit_length_exact full_text Hne Hlen) as [E1 E2].
  rewrite (normalize_plain full_text full_text_plain) in E1, E2. split; assumption.
Qed.

Section TreeFacts.

Lemma node_children_ind (P : node -> Prop) :
  (forall s, P (Text s)) ->
  (forall name classes children,
      (forall c, In c children -> P c) -> P (Tag name classes children)) ->
  forall n, P n.
Proof.
  intros HText HTag. fix IH 1. intros [s|name classes children].
  - apply HText.
  - apply HTag. induction children as [|c children IHc]; intros x Hx.
    + destruct Hx.
    + destruct Hx as [<-|Hx]; [apply IH|now apply IHc].
Qed.

(** The strings of a tag of a tree are strings of the tree. *)
Lemma strings_of_tags m : forall n s,
  In n (tags m) -> In s (strings n) -> In s (strings m).
Proof.
  induction m as [t|name classes children IH] using node_children_ind;
    intros n s Hn Hs.
  - destruct Hn.
  - cbn [tags] in Hn. destruct Hn as [<-|Hn]; [exact Hs|].
    apply in_flat_map in Hn as (c & Hc & Hn).
    cbn [strings]. apply in_flat_map. exists c. split; [exact Hc|].
    eapply IH; eauto.
Qed.

Lemma filter_nil_iff {A} (f : A -> bool) (l : list A) :
  List.filter f l = [] <-> forall x, In x l -> f x = false.
Proof.
  induction l as [|a l IH]; simpl.
  - split; [intros _ x []|reflexivity].
  - destruct (f a) eqn:Ha.
    + split; [discriminate|]. intros H. specialize (H a (or_introl eq_refl)). congruence.
    + rewrite IH. split.
      * intros H x [<-|Hx]; auto.
      * intros H x Hx. apply H. now right.
Qed.

(** A tag of a page without text has no text. *)
Lemma blank_get_text separator soup n :
  stripped_strings soup = [] ->
  In n (flat_map tags soup) ->
  get_text separator [n] = [].
Proof.
  unfold get_text, stripped_strings. intros Hblank Hn.
  rewrite filter_nil_iff in Hblank.
  replace (List.filter _ _) with (@nil str); [reflexivity|].
  symmetry. apply filter_nil_iff. intros x Hx. apply Hblank.
  apply in_map_iff in Hx as (s & <- & Hs). apply in_map.
  cbn [flat_map] in Hs. rewrite app_nil_r in Hs.
  apply in_flat_map in Hn as (m & Hm & Hn).
  apply in_flat_map. exists m. split; [exact Hm|].
  eapply strings_of_tags; eauto.
Qed.

Lemma max_by_text_len_in rest : forall first,
  In (max_by_text_len first rest) (first :: rest).
Proof.
  induction rest as [|x rest IH]; intros first; cbn [max_by_text_len].
  - now left.
  - destruct (text_len first <? text_len x)%nat.
    + right. apply IH.
    + destruct (IH first) as [H|H]; [now left|right; now right].
Qed.

Lemma select_in sel soup n : In n (select sel soup) -> In n (flat_map tags soup).
Proof. unfold select. intros H. now apply filter_In in H. Qed.

Lemma potential_in sels soup n :
  In n (potential_content_elements sels soup) -> In n (flat_map tags soup).
Proof.
  unfold potential_content_elements. intros H.
  apply in_flat_map in H as (sel & _ & H). eapply select_in; eauto.
Qed.

(** A page without text, with a container or with one paragraph at most,
    has an empty main content. *)
Lemma blank_main_content soup :
  stripped_strings soup = [] ->
  potential_content_elements content_selectors soup <> [] \/
  (length (select (ByName (py "p")) soup) <= 1)%nat ->
  main_content_of soup = [].
Proof.
  intros Hblank Hshape. unfold main_content_of.
  destruct (potential_content_elements content_selectors soup) as [|first rest] eqn:E.
  - destruct Hshape as [H|H]; [congruence|].
    unfold paragraphs_or_page.
    destruct (select (ByName (py "p")) soup) as [|p [|q ps]] eqn:Ep.
    + unfold get_text. now rewrite Hblank.
    + cbn [map join]. eapply blank_get_text; eauto.
      eapply select_in. rewrite Ep. now left.
    + simpl in H. lia.
  - eapply blank_get_text; eauto. eapply potential_in. rewrite E.
    apply max_by_text_len_in.
Qed.

End TreeFacts.

(** [_clean_html_content] returns a string for every markup and raises
    nothing: the sentinel of a processing error when the parser raises,
    the cut main content otherwise, which is the sentinel of a page
    without content when the main content that was selected is empty. *)
Lemma clean_html_content_total (lib : libraries) (html_content : str) :
  (html_parser lib html_content = None /\
   _clean_html_content lib html_content = error_sentinel) \/
  (exists parsed, html_parser lib html_content = Some parsed /\
     let soup := flat_map decompose parsed in
     _clean_html_content lib html_content = limit_length (main_content_of soup) /\
     (main_content_of soup = [] ->
      _clean_html_content lib html_content = no_content_sentinel) /\
     (stripped_strings soup = [] ->
      potential_content_elements content_selectors soup <> [] \/
      (length (select (ByName (py "p")) soup) <= 1)%nat ->
      _clean_html_content lib html_content = no_content_sentinel)).
Proof.
  unfold _clean_html_content.
  destruct (html_parser lib html_content) as [parsed|]; [right|left; auto].
  exists parsed. split; [reflexivity|]. cbv zeta. split; [reflexivity|].
  assert (H : main_content_of (flat_map decompose parsed) = [] ->
              limit_length (main_content_of (flat_map decompose parsed))
              = no_content_sentinel).
  { intros ->. reflexivity. }
  split; [exact H|]. intros Hblank Hshape. apply H.
  now apply blank_main_content.
Qed.

(** C8, at the failing input. The markup [<p></p><p></p>] has no text and
    no content container. Its two paragraphs are joined to one space
    (line 236), which passes the test [if main_content:] of line 244 and
    is stripped to nothing afterwards (line 245): the cleaner returns the
    empty string, where the claim, and the last line of the function, give
    the sentinel of a page without content. One empty paragraph, or the
    same two paragraphs in an [article], do give the sentinel. *)
Theorem clean_html_content_blank_paragraphs :
  let markup := py "<p></p><p></p>" in
  let parsed := [tag "p" []; tag "p" []] in
  let lib := library_of [(markup, parsed);
                         (py "<p></p>", [tag "p" []]);
                         (py "<article><p></p><p></p></article>",
                          [tag "article" parsed])] in
  html_parser lib markup = Some parsed /\
  stripped_strings (flat_map decompose parsed) = [] /\
  main_content_of (flat_map decompose parsed) = py " " /\
  _clean_html_content lib markup = [] /\
  _clean_html_content lib markup <> no_content_sentinel /\
  _clean_html_content lib (py "<p></p>") = no_content_sentinel /\
  _clean_html_content lib (py "<article><p></p><p></p></article>") = no_content_sentinel.
Proof.
  vm_compute. repeat split; try reflexivity. discriminate.
Qed.

(** ** C3: enrichment keeps the sequence *)

Section Enrichment.

Context (w : world) (lib : libraries).

Lemma page_gets_attempts_trace url k x :
  In x (page_gets (attempts_trace url k)) -> x = url.
Proof.
  induction k as [|k IH]; simpl.
  - intros [<-|[]]. reflexivity.
  - intros [<-|H]; [reflexivity|now apply IH].
Qed.

Lemma page_gets_app evs evs' : page_gets (evs ++ evs') = page_gets evs ++ page_gets evs'.
Proof. unfold page_gets. apply flat_map_app. Qed.

Lemma get_page_content_effect url st :
  printable url = true ->
  exists content k,
    get_page_content w lib url st
    = Ret content (logged_all (attempts_trace url k) st).
Proof.
  intros Hurl.
  destruct (attempts_spec w lib 0 url st) as (k & _ & _ & _ & E).
  rewrite fetch_outcome_printable in E by exact Hurl.
  unfold get_page_content. eauto.
Qed.

Lemma fresh_unused (h : gmap nat candidate) : h !! fresh (dom h) = None.
Proof. apply not_elem_of_dom, is_fresh. Qed.

(** One turn of the loop of enrichment: a fetch, then a new object. *)
Lemma enrich_one_spec r c st :
  store st !! r = Some c ->
  printable_result c ->
  exists content k,
    get_page_content w lib (link c) st
      = Ret content (logged_all (attempts_trace (link c) k) st) /\
    enrich_one w lib r st
      = Ret (fresh (dom (store st)))
          (set_store (<[fresh (dom (store st)) := enriched lib c content]> (store st))
             (logged_all (attempts_trace (link c) k) st)).
Proof.
  intros Hc (short_url & Hshort & Ptitle & Pshort & Plink).
  destruct (get_page_content_effect (link c) st Plink) as (content & k & E).
  exists content, k. split; [exact E|].
  unfold enrich_one, read, alloc, short_link_of, mbind, M_bind. rewrite Hc, Hshort.
  rewrite print_ok by (rewrite printable_label; [exact Ptitle|reflexivity]).
  unfold mret at 1, M_ret at 1.
  rewrite print_ok by (rewrite printable_label; [exact Pshort|reflexivity]).
  rewrite print_ok by (rewrite printable_label; [exact Plink|reflexivity]).
  rewrite E.
  destruct content as [[|ch text]|]; reflexivity.
Qed.

(** The loop of enrichment over a list of allocated results. *)
Lemma enrich_each l : forall st,
  (forall r, In r l -> exists c, store st !! r = Some c /\ printable_result c) ->
  exists outs st',
    for_each (enrich_one w lib) l st = Ret outs st' /\
    length outs = length l /\
    store st ⊆ store st' /\
    (exists evs, journal st' = journal st ++ evs /\
       forall url, In url (page_gets evs) ->
         exists r c, In r l /\ store st !! r = Some c /\ link c = url) /\
    (forall i r c, l !! i = Some r -> store st !! r = Some c ->
       exists o st_i content st_i' before,
         outs !! i = Some o /\
         journal st_i = journal st ++ before /\
         get_page_content w lib (link c) st_i = Ret content st_i' /\
         store st !! o = None /\
         store st' !! o = Some (enriched lib c content)).
Proof.
  induction l as [|r l IH]; intros st Halloc; cbn [for_each].
  - exists [], st. repeat split; auto.
    + exists []. split; [now rewrite app_nil_r|]. intros url [].
    + intros i r c Hi. destruct i; discriminate Hi.
  - destruct (Halloc r (or_introl eq_refl)) as (c & Hc & Hp).
    destruct (enrich_one_spec r c st Hc Hp) as (content & k & Eg & E1).
    set (o := fresh (dom (store st))) in *.
    set (st1 := set_store (<[o := enriched lib c content]> (store st))
                  (logged_all (attempts_trace (link c) k) st)) in *.
    assert (Hsub : store st ⊆ store st1).
    { apply insert_subseteq, fresh_unused. }
    destruct (IH st1) as (outs & st' & E & Hlen & Hsub' & (evs & Hj & Hg) & Hi).
    { intros r' Hr'. destruct (Halloc r' (or_intror Hr')) as (c' & Hc' & Hp').
      exists c'. split; [eapply lookup_weaken; eauto|exact Hp']. }
    exists (o :: outs), st'. unfold mbind, M_bind. rewrite E1, E.
    split; [reflexivity|]. split; [simpl; now rewrite Hlen|].
    split; [etrans; eauto|]. split.
    + exists (attempts_trace (link c) k ++ evs). split.
      * rewrite Hj. subst st1. simpl. now rewrite app_assoc.
      * intros url Hu. rewrite page_gets_app in Hu.
        apply in_app_or in Hu as [Hu|Hu].
        -- apply page_gets_attempts_trace in Hu. subst url.
           exists r, c. repeat split; auto. now left.
        -- destruct (Hg url Hu) as (r' & c' & Hr' & Hc' & Hl).
           destruct (Halloc r' (or_intror Hr')) as (c'' & Hc'' & _).
           pose proof (lookup_weaken _ _ _ _ Hc'' Hsub) as Hw.
           exists r', c''. repeat split; [now right|auto|congruence].
    + intros [|i] r' c' Hl Hc'.
      * injection Hl as <-. assert (c' = c) as -> by congruence.
        exists o, st, content, (logged_all (attempts_trace (link c) k) st), [].
        repeat split; auto.
        -- now rewrite app_nil_r.
        -- apply fresh_unused.
        -- eapply lookup_weaken; [|exact Hsub']. subst st1. simpl.
           apply lookup_insert_eq.
      * pose proof (lookup_weaken _ _ _ _ Hc' Hsub) as Hw.
        destruct (Hi i r' c' Hl Hw) as (o' & st_i & cont & st_i' & before & H1 & H2 & H3 & H4 & H5).
        exists o', st_i, cont, st_i', (attempts_trace (link c) k ++ before).
        repeat split; auto.
        -- rewrite H2. subst st1. simpl. now rewrite app_assoc.
        -- destruct (store st !! o') eqn:Ho; [|reflexivity].
           pose proof (lookup_weaken _ _ _ _ Ho Hsub). congruence.
Qed.

End Enrichment.

(** C3. On a list of results that carry no full content, and whose first
    five have a short link and a title, short link and link that [print]
    can show (the search tool builds them so), enrichment returns a list of
    the same length. Every input object is left as it is. The result at a
    position from [max_urls_to_crawl = 5] on is the input object itself,
    which still has no full content. The result at a position below 5 is a
    new object: the copy of the input of that position, to which the
    cleaned text of a fetch of its own link is added when that fetch
    returned a page; when the fetch failed, the copy equals the input and
    has no full content. The pages requested are links of the first five
    results only. *)
Theorem enrich_keeps_sequence (w : world) (lib : libraries) (refs : list nat) (st : state) :
  (forall r, In r refs -> exists c, store st !! r = Some c /\ full_content c = None) ->
  (forall r c, In r (firstn max_urls_to_crawl refs) -> store st !! r = Some c ->
     printable_result c) ->
  exists out st',
    _enrich_search_results w lib refs st = Ret out st' /\
    length out = length refs /\
    (forall i r c, refs !! i = Some r -> store st !! r = Some c ->
       store st' !! r = Some c /\
       if decide (i < max_urls_to_crawl)%nat then
         exists o st_i content st_i' before,
           out !! i = Some o /\
           journal st_i = journal st ++ before /\
           get_page_content w lib (link c) st_i = Ret content st_i' /\
           store st' !! o = Some (enriched lib c content) /\
           (content = None ->
            store st' !! o = Some c /\ full_content (enriched lib c content) = None)
       else out !! i = Some r /\ full_content c = None) /\
    (exists evs, journal st' = journal st ++ evs /\
       forall url, In url (page_gets evs) ->
         exists r c, In r (firstn max_urls_to_crawl refs) /\
                     store st !! r = Some c /\ link c = url).
Proof.
  intros Hin Hshown.
  destruct (enrich_each w lib (firstn max_urls_to_crawl refs) st)
    as (outs & st' & E & Hlen & Hsub & Hj & Hi).
  { intros r Hr. destruct (Hin r (in_firstn _ _ _ Hr)) as (c & Hc & _). eauto. }
  exists (outs ++ skipn max_urls_to_crawl refs), st'.
  unfold _enrich_search_results, mbind, M_bind. rewrite E.
  split; [reflexivity|]. split.
  { rewrite length_app, Hlen, <- length_app, firstn_skipn. reflexivity. }
  split; [|exact Hj].
  intros i r c Hl Hc.
  split; [eapply lookup_weaken; eauto|].
  assert (Hnone : full_content c = None).
  { destruct (Hin r) as (c' & Hc' & Hf); [|congruence].
    apply list_elem_of_In, list_elem_of_lookup. eauto. }
  case_decide as Hlt.
  - assert (Hl' : firstn max_urls_to_crawl refs !! i = Some r).
    { rewrite lookup_take_lt; auto. }
    destruct (Hi i r c Hl' Hc) as (o & st_i & content & st_i' & before & H1 & H2 & H3 & H4 & H5).
    exists o, st_i, content, st_i', before. repeat split; auto.
    + rewrite lookup_app_l; auto. apply lookup_lt_Some in H1. exact H1.
    + subst content. exact H5.
    + subst content. exact Hnone.
  - split; [|exact Hnone].
    assert (Hfive : length outs = max_urls_to_crawl).
    { rewrite Hlen. apply firstn_length_le.
      apply lookup_lt_Some in Hl. lia. }
    rewrite lookup_app_r by lia. rewrite Hfive.
    rewrite lookup_drop. rewrite <- Hl. f_equal. lia.
Qed.

(** The statement above on a list that names one allocated result six
    times, with sites that cannot be reached. *)
Lemma enrich_keeps_sequence_witness :
  let w := offline_world None in
  let lib := plain_libraries in
  let refs := [0; 0; 0; 0; 0; 0]%nat in
  let st := state_with (sample_candidate (Some (py "https://tinyurl.com/abc"))) in
  exists out st',
    _enrich_search_results w lib refs st = Ret out st' /\
    length out = length refs /\
    (forall i r c, refs !! i = Some r -> store st !! r = Some c ->
       store st' !! r = Some c /\
       if decide (i < max_urls_to_crawl)%nat then
         exists o st_i content st_i' before,
           out !! i = Some o /\
           journal st_i = journal st ++ before /\
           get_page_content w lib (link c) st_i = Ret content st_i' /\
           store st' !! o = Some (enriched lib c content) /\
           (content = None ->
            store st' !! o = Some c /\ full_content (enriched lib c content) = None)
       else out !! i = Some r /\ full_content c = None) /\
    (exists evs, journal st' = journal st ++ evs /\
       forall url, In url (page_gets evs) ->
         exists r c, In r (firstn max_urls_to_crawl refs) /\
                     store st !! r = Some c /\ link c = url).
Proof.
  apply (enrich_keeps_sequence (offline_world None) plain_libraries [0; 0; 0; 0; 0; 0]%nat
           (state_with (sample_candidate (Some (py "https://tinyurl.com/abc"))))).
  - intros r Hr. assert (r = 0%nat) as ->.
    { simpl in Hr. repeat destruct Hr as [Hr|Hr]; auto. destruct Hr. }
    eexists. split; reflexivity.
  - intros r c Hr Hc. assert (r = 0%nat) as ->.
    { simpl in Hr. repeat destruct Hr as [Hr|Hr]; auto. destruct Hr. }
    injection Hc as <-. eexists. repeat split; reflexivity.
Defined.

(** ** C5 and C9: the search client *)

Section SearchClient.

Context (w : world) (lib : libraries).

Lemma cached_set_store self url v h st :
  cached self url v (set_store h st) <-> cached self url v st.
Proof. unfold cached. destruct self; reflexivity. Qed.

(** What a formatted result is: a new object that carries the value that
    [shorten] returned and no full content, and whose lines were printed. *)
Lemma format_item_spec it st o st' :
  format_item w it st = Ret o st' ->
  exists v st1 c,
    shorten w SearchTool (default [] (item_link it)) st = Ret v st1 /\
    store st1 !! o = None /\
    link c = default [] (item_link it) /\
    short_link c = Some v /\
    full_content c = None /\
    printable_result c /\
    st' = set_store (<[o := c]> (store st1)) st1.
Proof.
  unfold format_item, published_time, alloc, mbind, M_bind.
  destruct (shorten w SearchTool (default [] (item_link it)) st) as [v st1|e st1];
    [|discriminate].
  unfold print_. rewrite !printable_label by reflexivity.
  destruct (printable (default [] (item_title it))) eqn:Ptitle; [|discriminate].
  unfold mret at 1, M_ret at 1.
  destruct (printable (default [] (item_link it))) eqn:Plink; [|discriminate].
  unfold mret at 1, M_ret at 1.
  destruct (printable v) eqn:Pshort; [|discriminate].
  unfold mret at 1, M_ret at 1.
  destruct (printable (firstn 150 (default [] (item_snippet it)) ++ _));
    [|discriminate].
  unfold mret, M_ret, raise.
  destruct (item_metatags it) as [[|first rest]|]; try discriminate.
  all: intros E; injection E as <- <-; do 3 eexists;
    (split; [reflexivity|]); (split; [apply not_elem_of_dom, is_fresh|]);
    repeat split; try reflexivity; exists v; repeat split; assumption.
Qed.

Lemma format_each (P : str -> str -> Prop) items : forall st refs st',
  (forall url v n content_type,
      tinyurl w n url = Response 200 content_type v -> P url v) ->
  (forall url v, local_short_url url = Some v -> P url v) ->
  for_each (format_item w) items st = Ret refs st' ->
  caches_nonempty st ->
  caches_nonempty st' /\
  (cache_within SearchTool P st -> cache_within SearchTool P st') /\
  (forall r, formatted st r -> formatted st' r) /\
  (forall r, In r refs -> formatted st' r).
Proof.
  induction items as [|it items IH]; intros st refs st' Hservice Hlocal E Hwf;
    cbn [for_each] in E.
  - injection E as <- <-. repeat split; auto. intros r [].
  - unfold mbind, M_bind in E.
    destruct (format_item w it st) as [o st1|] eqn:E1; [|discriminate].
    destruct (for_each (format_item w) items st1) as [os st2|] eqn:E2; [|discriminate].
    injection E as <- <-.
    destruct (format_item_spec it st o st1 E1)
      as (v & st0 & c & Es & Hfresh & Hl & Hs & Hf & Hp & ->).
    pose proof (shorten_caches_nonempty w SearchTool (default [] (item_link it)) st Hwf) as Hwf0.
    pose proof (shorten_returns w SearchTool (default [] (item_link it)) st v st0 Es) as Hcv.
    rewrite Es in Hwf0. simpl in Hwf0.
    assert (Hwf1 : caches_nonempty (set_store (<[o := c]> (store st0)) st0)).
    { intros self url x Hx. apply cached_set_store in Hx. eapply Hwf0; eauto. }
    destruct (IH _ _ _ Hservice Hlocal E2 Hwf1) as (Hwf2 & Hloc2 & Hkeep2 & Hin2).
    assert (Hkeep1 : forall r, formatted st r ->
              formatted (set_store (<[o := c]> (store st0)) st0) r).
    { intros r (c' & v' & Hc' & Hf' & Hs' & Hcache' & Hp').
      exists c', v'. split; [|split; [exact Hf'|split; [exact Hs'|split; [|exact Hp']]]].
      - simpl. pose proof (shorten_store w SearchTool (default [] (item_link it)) st) as Hst.
        rewrite Es in Hst. simpl in Hst.
        rewrite lookup_insert_ne; [congruence|].
        intros ->. congruence.
      - apply cached_set_store.
        pose proof (shorten_keeps w SearchTool (default [] (item_link it)) st
                      SearchTool (link c') v' Hcache') as Hk.
        now rewrite Es in Hk. }
    split; [exact Hwf2|]. split; [|split].
    + intros Hloc. apply Hloc2.
      pose proof (shorten_cache_within w P SearchTool (default [] (item_link it)) st
                    SearchTool Hservice Hlocal Hloc) as Hl0.
      rewrite Es in Hl0. simpl in Hl0.
      intros url x Hx. apply cached_set_store in Hx. now apply Hl0.
    + intros r Hr. apply Hkeep2, Hkeep1, Hr.
    + intros r [<-|Hr]; [|now apply Hin2].
      apply Hkeep2. exists c, v.
      split; [simpl; apply lookup_insert_eq|].
      split; [exact Hf|]. split; [exact Hs|]. split; [|exact Hp].
      apply cached_set_store. rewrite Hl. exact Hcv.
Qed.

Lemma search_get_spec q n sort st :
  search_get w lib q n sort st =
    let st1 := logged (GoogleGet q n sort) st in
    match google w (length (journal st)) q n sort with
    | SearchRaisedHTTPError => Raise HTTPError st1
    | SearchNotJson => Raise OtherException st1
    | SearchJson status_code items =>
        if raises_for_status lib status_code then Raise HTTPError st1
        else Ret items st1
    end.
Proof.
  unfold search_get, raise_for_status. unfold_M. simpl.
  destruct (google w (length (journal st)) q n sort) as [| |code items]; try reflexivity.
  destruct (raises_for_status lib code); reflexivity.
Qed.

(** [search] returns the empty list, or the formatted results, enriched
    when a deep search is asked for. *)
Lemma search_cases q n sort deep st refs st' :
  search w lib q n sort deep st = Ret refs st' ->
  refs = [] \/
  exists items results st2,
    for_each (format_item w) items (logged (GoogleGet q (Z.min n 10) sort) st)
      = Ret results st2 /\
    (if deep then _enrich_search_results w lib results st2 = Ret refs st'
     else refs = results /\ st' = st2).
Proof.
  unfold search, try_except. unfold mbind at 1, M_bind at 1.
  rewrite search_get_spec. cbv zeta.
  destruct (google w (length (journal st)) q (Z.min n 10) sort) as [| |code items];
    cbn [find fst snd is_HTTPError].
  - unfold mret, M_ret. intros E. injection E as <- <-. now left.
  - discriminate.
  - destruct (raises_for_status lib code); cbn [find fst snd is_HTTPError].
    { unfold mret, M_ret. intros E. injection E as <- <-. now left. }
    destruct items as [items|]; [|unfold mret, M_ret; intros E; injection E as <- <-; now left].
    unfold mbind, M_bind.
    destruct (for_each (format_item w) items _) as [results st2|e st2] eqn:Ef.
    + destruct deep.
      * destruct (_enrich_search_results w lib results st2) as [out st3|e st3] eqn:Ee.
        -- intros E. injection E as <- <-. right. exists items, results, st2. auto.
        -- destruct (is_HTTPError e); cbn [find fst snd];
             [unfold mret, M_ret; intros E; injection E as <- <-; now left|discriminate].
      * unfold mret, M_ret. intros E. injection E as <- <-.
        right. exists items, results, st2. auto.
    + destruct (is_HTTPError e); cbn [find fst snd];
        [unfold mret, M_ret; intros E; injection E as <- <-; now left|discriminate].
Qed.

End SearchClient.

Lemma enriched_fields lib c content :
  link (enriched lib c content) = link c /\
  short_link (enriched lib c content) = short_link c.
Proof. destruct content as [[|ch text]|]; split; reflexivity. Qed.

(** Enrichment keeps the link and the short link of every result. *)
Lemma enrich_keeps_short_links w lib results st refs st' (good : candidate -> Prop) :
  (forall c c', link c' = link c -> short_link c' = short_link c -> good c -> good c') ->
  (forall r, In r results ->
     exists c, store st !! r = Some c /\ printable_result c /\ good c) ->
  _enrich_search_results w lib results st = Ret refs st' ->
  forall r, In r refs -> exists c, store st' !! r = Some c /\ good c.
Proof.
  intros Hgood Hin E r Hr.
  destruct (enrich_each w lib (firstn max_urls_to_crawl results) st)
    as (outs & st1 & E1 & Hlen & Hsub & _ & Hi).
  { intros r0 Hr0. destruct (Hin r0 (in_firstn _ _ _ Hr0)) as (c & Hc & Hp & _). eauto. }
  unfold _enrich_search_results, mbind, M_bind in E. rewrite E1 in E.
  injection E as <- <-.
  apply in_app_or in Hr as [Hr|Hr].
  - apply list_elem_of_In, list_elem_of_lookup in Hr as [i Hi'].
    assert (Hlt : (i < length (firstn max_urls_to_crawl results))%nat).
    { rewrite <- Hlen. eapply lookup_lt_Some; eauto. }
    apply lookup_lt_is_Some in Hlt as [r0 Hr0].
    assert (Hr0in : In r0 results).
    { eapply in_firstn, list_elem_of_In, list_elem_of_lookup. eauto. }
    destruct (Hin r0 Hr0in) as (c0 & Hc0 & _ & Hg0).
    destruct (Hi i r0 c0 Hr0 Hc0) as (o & _ & content & _ & _ & Ho & _ & _ & _ & Hst).
    assert (o = r) as -> by congruence.
    exists (enriched lib c0 content). split; [exact Hst|].
    destruct (enriched_fields lib c0 content) as [Hl Hs].
    eapply Hgood; eauto.
  - destruct (Hin r (in_skipn _ _ _ Hr)) as (c & Hc & _ & Hg).
    exists c. split; [eapply lookup_weaken; eauto|exact Hg].
Qed.

(** The results of [search] carry a short link that is not empty and that
    was resolved for their link. *)
Lemma search_results_resolved (w : world) (lib : libraries)
    (q : str) (n : Z) (sort deep : bool) (st : state) (refs : list nat) (st' : state) :
  caches_nonempty st ->
  search w lib q n sort deep st = Ret refs st' ->
  forall r, In r refs ->
    exists c v,
      store st' !! r = Some c /\
      short_link c = Some v /\
      v <> [] /\
      resolved_from w st (link c) v.
Proof.
  intros Hwf E r Hr.
  destruct (search_cases w lib q n sort deep st refs st' E)
    as [->|(items & results & st2 & Ef & Hd)]; [destruct Hr|].
  set (st1 := logged (GoogleGet q (Z.min n 10) sort) st) in *.
  assert (Hwf1 : caches_nonempty st1).
  { intros self url v Hc. apply cached_logged in Hc. eapply Hwf; eauto. }
  destruct (format_each w (resolved_from w st) items st1 results st2)
    as (Hwf2 & Hfrom2 & _ & Hfmt); auto.
  { intros url v k ct H. right. left. eauto. }
  { intros url v H. right. now right. }
  set (good := fun c : candidate =>
    exists v, short_link c = Some v /\ v <> [] /\ resolved_from w st (link c) v).
  assert (Hres : forall r0, In r0 results ->
            exists c, store st2 !! r0 = Some c /\ printable_result c /\ good c).
  { intros r0 Hr0. destruct (Hfmt r0 Hr0) as (c & v & Hc & _ & Hs & Hcache & Hp).
    exists c. split; [exact Hc|]. split; [exact Hp|]. exists v. split; [exact Hs|].
    split; [eapply Hwf2; eauto|].
    apply Hfrom2; [|exact Hcache].
    intros url x Hx. apply cached_logged in Hx. now left. }
  assert (Hfinal : exists c, store st' !! r = Some c /\ good c).
  { destruct deep.
    - eapply (enrich_keeps_short_links w lib results st2 refs st' good); eauto.
      intros c c' Hl Hs (v & Hv & Hne & Hloc). exists v.
      rewrite Hs, Hl. auto.
    - destruct Hd as [-> ->]. destruct (Hres r Hr) as (c & Hc & _ & Hg). eauto. }
  destruct Hfinal as (c & Hc & v & Hs & Hne & Hfrom). exists c, v. auto.
Qed.

(** C5. In a state whose caches hold no empty value (the initial state is
    one, and [shorten] keeps it so), every candidate of the list that
    [search] returns carries a short link that is not empty. That short
    link is a value that the cache of the search tool already held for the
    link of the candidate, or the body of a 200 answer of the shortening
    service for that link, or the local form of the link: the fixed prefix
    and the first eight digits of the MD5 of the link. It is the local form
    whenever the link was not cached and the service fails for it (it
    raises, answers another status than 200, or an empty body). *)
Theorem search_short_links_nonempty (w : world) (lib : libraries)
    (q : str) (n : Z) (sort deep : bool) (st : state) (refs : list nat) (st' : state) :
  caches_nonempty st ->
  search w lib q n sort deep st = Ret refs st' ->
  forall r, In r refs ->
    exists c v,
      store st' !! r = Some c /\
      short_link c = Some v /\
      v <> [] /\
      resolved_from w st (link c) v /\
      (short_urls_cache (search_tool_shortener st) !! link c = None ->
       service_fails_for w (link c) ->
       local_short_url (link c) = Some v).
Proof.
  intros Hwf E r Hr.
  destruct (search_results_resolved w lib q n sort deep st refs st' Hwf E r Hr)
    as (c & v & Hc & Hs & Hne & Hfrom).
  exists c, v. repeat split; auto.
  intros Hmiss Hfails.
  destruct Hfrom as [Hc'|[(k & ct & Hk)|Hl]]; [|exfalso|exact Hl].
  - unfold cached in Hc'. simpl in Hc'. congruence.
  - specialize (Hfails k). rewrite Hk in Hfails. destruct Hfails; congruence.
Qed.

Lemma initial_caches_nonempty : caches_nonempty initial_state.
Proof. intros self url v H. destruct self; discriminate H. Qed.

(** The statement above on a search of two items without shortening
    service, for the first candidate returned. *)
Lemma search_short_links_nonempty_witness :
  let w := offline_world (Some two_items) in
  let st := initial_state in
  let o := search w plain_libraries (py "test") 5 true true st in
  exists c v,
    store (state_of o) !! hd 0%nat (default [] (value_of o)) = Some c /\
    short_link c = Some v /\
    v <> [] /\
    resolved_from w st (link c) v /\
    (short_urls_cache (search_tool_shortener st) !! link c = None ->
     service_fails_for w (link c) ->
     local_short_url (link c) = Some v).
Proof.
  cbv zeta.
  apply (search_short_links_nonempty (offline_world (Some two_items)) plain_libraries
           (py "test") 5 true true initial_state
           (default [] (value_of (search (offline_world (Some two_items)) plain_libraries
                                    (py "test") 5 true true initial_state)))
           (state_of (search (offline_world (Some two_items)) plain_libraries
                        (py "test") 5 true true initial_state))).
  - exact initial_caches_nonempty.
  - vm_compute. reflexivity.
  - vm_compute. left. reflexivity.
Defined.

Section NoResults.

Context (w : world) (lib : libraries).

Lemma search_empty q n sort deep st :
  provider_gave_nothing lib (google w (length (journal st)) q (Z.min n 10) sort) ->
  search w lib q n sort deep st = Ret [] (logged (GoogleGet q (Z.min n 10) sort) st).
Proof.
  intros H. unfold search, try_except. unfold mbind at 1, M_bind at 1.
  rewrite search_get_spec. cbv zeta.
  destruct (google w (length (journal st)) q (Z.min n 10) sort) as [| |code items];
    cbn [find fst snd is_HTTPError provider_gave_nothing] in *.
  - reflexivity.
  - contradiction.
  - destruct (raises_for_status lib code); cbn [find fst snd is_HTTPError];
      [reflexivity|].
    destruct H as [H|[->| ->]]; [discriminate|reflexivity|].
    cbn [for_each]. unfold mbind, M_bind, mret, M_ret.
    destruct deep; reflexivity.
Qed.

(** An answer of the index that is not JSON: [response.json()] raises an
    exception that is no [httpx.HTTPError], which line 92 lets through. *)
Lemma search_not_json q n sort deep st :
  google w (length (journal st)) q (Z.min n 10) sort = SearchNotJson ->
  search w lib q n sort deep st
    = Raise OtherException (logged (GoogleGet q (Z.min n 10) sort) st).
Proof.
  intros H. unfold search, try_except. unfold mbind at 1, M_bind at 1.
  rewrite search_get_spec. cbv zeta. rewrite H. reflexivity.
Qed.

Lemma process_query_searched user_query st sq n :
  search_query (analysis_of w user_query st) = Some sq ->
  default (IntValue 5) (max_results (analysis_of w user_query st)) = IntValue n ->
  printable sq = true ->
  process_query w lib user_query st =
    match search w lib sq n true true (logged (AnalysisCompletion user_query) st) with
    | Ret [] st2 => Ret (no_results_response user_query sq) st2
    | Ret (r :: rs) st2 =>
        match _generate_comprehensive_report w (r :: rs) st2 with
        | Ret report st3 =>
            Ret (Response_ (py "search_and_report") user_query sq report
                   (Some (r :: rs)) [py "search"; py "analyze"]) st3
        | Raise e st3 => Raise e st3
        end
    | Raise e st2 => Raise e st2
    end.
Proof.
  intros Hq Hn Hp.
  assert (Hprint : forall s, print_ (py "使用查詢關鍵字: '" ++ sq ++ py "'") s = Ret tt s).
  { intros s. apply print_ok. rewrite printable_label by reflexivity.
    rewrite printable_app, Hp. reflexivity. }
  unfold process_query, _analyze_query.
  unfold analysis_of in Hq, Hn.
  unfold mbind, M_bind, get_state, log, logged in *. cbn [journal state_of].
  destruct (analyst w (length (journal st)) user_query) as [a|];
    cbn [find fst snd is_Exception mret M_ret raise] in *.
  - rewrite Hq, Hprint, Hn. cbn [search_for].
    destruct (search w lib sq n true true _) as [[|r rs] st2|e st2]; reflexivity.
  - cbn [search_query max_results default] in *.
    injection Hq as <-. injection Hn as <-. rewrite Hprint. unfold id. cbn [search_for].
    destruct (search w lib user_query 5 true true _) as [[|r rs] st2|e st2]; reflexivity.
Qed.

End NoResults.




(** ** C10: what report synthesis does to the candidates *)

Section ReportFrames.

Context (w : world).

Lemma fills_refl refs st : fills_short_links refs st st.
Proof.
  intros r. destruct (store st !! r) as [c|]; [|exact I].
  split; [repeat split|reflexivity].
Qed.

Lemma fills_trans refs a b c :
  fills_short_links refs a b -> fills_short_links refs b c ->
  fills_short_links refs a c.
Proof.
  intros Hab Hbc r. specialize (Hab r). specialize (Hbc r).
  destruct (store a !! r) as [ca|], (store b !! r) as [cb|], (store c !! r) as [cc|];
    try contradiction; try exact I.
  destruct Hab as [(A1 & A2 & A3 & A4 & A5 & A6) Ha].
  destruct Hbc as [(B1 & B2 & B3 & B4 & B5 & B6) Hb].
  split; [repeat split; congruence|].
  intros H. specialize (Ha H). subst cb. now apply Hb.
Qed.

Lemma same_store_fills refs st st' :
  same_store st st' -> fills_short_links refs st st'.
Proof.
  unfold same_store. intros E r. rewrite E.
  destruct (store st !! r) as [c|]; [|exact I].
  split; [repeat split|reflexivity].
Qed.

Lemma preserves_weaken {A} (rel rel' : state -> state -> Prop) (m : M A) :
  (forall st st', rel st st' -> rel' st st') -> preserves rel m -> preserves rel' m.
Proof. intros H Hm st. apply H, Hm. Qed.

Lemma ensure_short_link_fills refs r :
  In r refs -> preserves (fills_short_links refs) (ensure_short_link w r).
Proof.
  intros Hin st. unfold ensure_short_link, read, write. unfold_M.
  destruct (store st !! r) as [c|] eqn:Hc; [|apply fills_refl].
  destruct (short_link c) as [[|ch rest]|] eqn:Hs; simpl; try apply fills_refl.
  all: pose proof (shorten_store w Agent (link c) st) as Hst;
    destruct (shorten w Agent (link c) st) as [v st1|e st1]; simpl in *;
    [|now apply same_store_fills].
  all: intros r'; cbn [store set_store]; destruct (decide (r' = r)) as [->|Hne].
  all: try (rewrite Hc, lookup_insert_eq; split; [repeat split|];
            intros [Hn|Hn]; [rewrite Hs in Hn; destruct Hn|contradiction]).
  all: rewrite lookup_insert_ne by auto; rewrite Hst;
    destruct (store st !! r') as [c'|]; [|exact I];
    split; [repeat split|reflexivity].
Qed.

Lemma build_context_fills refs l : forall i url_map context,
  (forall r, In r l -> In r refs) ->
  preserves (fills_short_links refs) (build_context w i l url_map context).
Proof.
  induction l as [|r l IH]; intros i url_map context Hsub; cbn [build_context].
  - apply (preserves_ret (fills_refl refs)).
  - apply (preserves_bind (fills_trans refs)).
    + apply ensure_short_link_fills, Hsub. now left.
    + intros [c short_url]. apply IH. intros r' Hr'. apply Hsub. now right.
Qed.

Lemma rewrite_url_same_store url_map report url :
  preserves same_store (rewrite_url w url_map report url).
Proof.
  unfold rewrite_url.
  destruct (url_map !! url); [apply (preserves_ret same_store_refl)|].
  destruct (is_short_url url_map url); [apply (preserves_ret same_store_refl)|].
  apply (preserves_try_except same_store_trans).
  - apply (preserves_bind same_store_trans);
      [apply shorten_same_store|].
    intros v. apply (preserves_ret same_store_refl).
  - intros cl e [<-|[]]. apply (preserves_ret same_store_refl).
Qed.

Lemma rewrite_urls_same_store url_map urls : forall report,
  preserves same_store (rewrite_urls w url_map urls report).
Proof.
  induction urls as [|url urls IH]; intros report; cbn [rewrite_urls].
  - apply (preserves_ret same_store_refl).
  - apply (preserves_bind same_store_trans);
      [apply rewrite_url_same_store|apply IH].
Qed.

Lemma report_completion_same_store context :
  preserves same_store (report_completion w context).
Proof.
  intros st. unfold report_completion. unfold_M. simpl.
  destruct (reporter w (length (journal st)) context); reflexivity.
Qed.

Lemma basic_report_same_store refs : preserves same_store (basic_report refs).
Proof.
  unfold basic_report.
  apply (preserves_bind same_store_trans).
  - apply (preserves_for_each same_store_refl same_store_trans).
    intros r _. unfold basic_line.
    apply (preserves_bind same_store_trans);
      [apply read_same_store|].
    intros c. apply (preserves_ret same_store_refl).
  - intros lines. apply (preserves_ret same_store_refl).
Qed.

Lemma report_body_same_store refs url_map context :
  preserves same_store
    (try_except
       (report ← report_completion w context; consistency_pass w url_map report)
       [(is_Exception, fun _ => basic_report refs)]).
Proof.
  apply (preserves_try_except same_store_trans).
  - apply (preserves_bind same_store_trans);
      [apply report_completion_same_store|].
    intros report. apply rewrite_urls_same_store.
  - intros cl e [<-|[]]. apply basic_report_same_store.
Qed.

(** The synthesizer writes to the store in its first loop only, and only
    the [short_link] of a result that had none. *)
Lemma report_fills refs :
  preserves (fills_short_links refs) (_generate_comprehensive_report w refs).
Proof.
  unfold _generate_comprehensive_report.
  apply (preserves_bind (fills_trans refs)).
  - apply build_context_fills. auto.
  - intros [url_map context].
    eapply preserves_weaken; [apply same_store_fills|apply report_body_same_store].
Qed.

Lemma build_context_reads l : forall i url_map context st,
  (forall r, In r l -> has_short_link st r) ->
  exists result, build_context w i l url_map context st = Ret result st.
Proof.
  induction l as [|r l IH]; intros i url_map context st H; cbn [build_context].
  - eexists. reflexivity.
  - destruct (H r (or_introl eq_refl)) as (c & Hc & Hs).
    unfold mbind, M_bind, ensure_short_link, read. unfold_M. rewrite Hc.
    destruct (short_link c) as [[|ch rest]|]; try contradiction.
    apply IH. intros r' Hr'. apply H. now right.
Qed.

Lemma rewrite_url_returns url_map report url st :
  returns (rewrite_url w url_map report url st).
Proof.
  unfold rewrite_url.
  destruct (url_map !! url); [exact I|].
  destruct (is_short_url url_map url); [exact I|].
  unfold try_except, mbind, M_bind.
  destruct (shorten w Agent url st); exact I.
Qed.

Lemma rewrite_urls_returns url_map urls : forall report st,
  returns (rewrite_urls w url_map urls report st).
Proof.
  induction urls as [|url urls IH]; intros report st; cbn [rewrite_urls];
    [exact I|].
  unfold mbind, M_bind.
  pose proof (rewrite_url_returns url_map report url st) as H.
  destruct (rewrite_url w url_map report url st); [apply IH|contradiction].
Qed.

Lemma basic_line_reads r c st :
  store st !! r = Some c -> exists line, basic_line r st = Ret line st.
Proof.
  intros Hc. unfold basic_line, read. unfold_M. rewrite Hc. eexists. reflexivity.
Qed.

Lemma for_each_basic_line l : forall st,
  (forall r, In r l -> is_Some (store st !! r)) ->
  exists lines, for_each basic_line l st = Ret lines st.
Proof.
  induction l as [|r l IH]; intros st H; cbn [for_each].
  - eexists. reflexivity.
  - destruct (H r (or_introl eq_refl)) as [c Hc].
    destruct (basic_line_reads r c st Hc) as [line E1].
    destruct (IH st) as [lines E]; [intros; apply H; now right|].
    unfold mbind, M_bind. rewrite E1, E. eexists. reflexivity.
Qed.

Lemma basic_report_returns refs st :
  (forall r, In r refs -> is_Some (store st !! r)) ->
  returns (basic_report refs st).
Proof.
  intros H. unfold basic_report, mbind, M_bind.
  destruct (for_each_basic_line (firstn 3 refs) st) as [lines ->]; [|exact I].
  intros r Hr. apply H. eapply in_firstn; eauto.
Qed.

Lemma report_body_returns refs url_map context st :
  (forall r, In r refs -> is_Some (store st !! r)) ->
  returns
    (try_except
       (report ← report_completion w context; consistency_pass w url_map report)
       [(is_Exception, fun _ => basic_report refs)] st).
Proof.
  intros H. unfold try_except, mbind at 1, M_bind at 1, report_completion.
  unfold_M. simpl.
  destruct (reporter w (length (journal st)) context) as [report|]; simpl.
  - pose proof (rewrite_urls_returns url_map (findall report) report
                  (logged (ReportCompletion context) st)) as Hr.
    unfold consistency_pass, logged in *.
    destruct (rewrite_urls w url_map (findall report) report _); [exact I|contradiction].
  - apply basic_report_returns. exact H.
Qed.

End ReportFrames.

(** What synthesis does to any list: it creates and deletes no candidate,
    and changes a candidate at most by writing its [short_link], which it
    does only to the candidates of the list that had none (or an empty
    one). On a list whose candidates all carry a short link, synthesis
    returns and leaves the store as it was. *)
Lemma report_keeps_store (w : world) (refs : list nat) (st : state) :
  (forall r, In r refs -> has_short_link st r) ->
  let o := _generate_comprehensive_report w refs st in
  returns o /\ store (state_of o) = store st.
Proof.
  intros H o. split.
  - subst o. unfold _generate_comprehensive_report, mbind, M_bind.
    destruct (build_context_reads w refs 0%nat ∅ [] st H) as [[url_map context] ->].
    apply report_body_returns. intros r Hr. destruct (H r Hr) as (c & -> & _). eauto.
  - pose proof (report_fills w refs st) as F. fold o in F.
    apply map_eq. intros r. specialize (F r).
    destruct (store st !! r) as [c|] eqn:Hc, (store (state_of o) !! r) as [c'|];
      try contradiction; [|reflexivity].
    destruct F as [_ F]. f_equal. apply F.
    destruct (in_dec Nat.eq_dec r refs) as [Hin|Hout]; [left|now right].
    destruct (H r Hin) as (c0 & Hc0 & Hs). congruence.
Qed.

(** C10. The list that [process_query] passes to the synthesizer is the
    list that [search] returned (lines 51 and 64 of agent.py). For every
    such list, from a state whose caches hold no empty value, synthesis
    returns, and the store of candidates after it is the store before it:
    every candidate of the list, and every other one, has the same value in
    every field. More generally this holds for every list whose candidates
    carry a short link that is not empty; and whatever the list,
    synthesis creates and deletes no candidate and never changes a [title],
    [link], [snippet], [source], [published_date] or [full_content]. *)
Theorem report_keeps_candidates (w : world) (lib : libraries)
    (q : str) (n : Z) (sort deep : bool) (st0 : state) (refs : list nat) (st : state) :
  caches_nonempty st0 ->
  search w lib q n sort deep st0 = Ret refs st ->
  let o := _generate_comprehensive_report w refs st in
  returns o /\
  store (state_of o) = store st /\
  (forall r, In r refs ->
     exists c, store st !! r = Some c /\ store (state_of o) !! r = Some c) /\
  (forall others s,
     (forall r, In r others -> has_short_link s r) ->
     returns (_generate_comprehensive_report w others s) /\
     store (state_of (_generate_comprehensive_report w others s)) = store s) /\
  (forall others s,
     fills_short_links others s (state_of (_generate_comprehensive_report w others s))).
Proof.
  intros Hwf E o.
  assert (H : forall r, In r refs -> has_short_link st r).
  { intros r Hr.
    destruct (search_results_resolved w lib q n sort deep st0 refs st Hwf E r Hr)
      as (c & v & Hc & Hs & Hne & _).
    exists c. split; [exact Hc|]. rewrite Hs. destruct v; [congruence|exact I]. }
  destruct (report_keeps_store w refs st H) as [Hret Hstore]. fold o in Hret, Hstore.
  split; [exact Hret|]. split; [exact Hstore|]. split; [|split].
  - intros r Hr. destruct (H r Hr) as (c & Hc & _). exists c.
    split; [exact Hc|]. rewrite Hstore. exact Hc.
  - intros others s Hs. apply report_keeps_store. exact Hs.
  - intros others s. apply report_fills.
Qed.

(** The statement above on the search of two items, without shortening
    service and without reachable sites. *)
Lemma report_keeps_candidates_witness :
  let w := offline_world (Some two_items) in
  let lib := plain_libraries in
  let found := search w lib (py "test") 5 true true initial_state in
  let refs := default [] (value_of found) in
  let st := state_of found in
  let o := _generate_comprehensive_report w refs st in
  length refs = 2%nat /\
  returns o /\
  store (state_of o) = store st /\
  (forall r, In r refs ->
     exists c, store st !! r = Some c /\ store (state_of o) !! r = Some c) /\
  (forall others s,
     (forall r, In r others -> has_short_link s r) ->
     returns (_generate_comprehensive_report w others s) /\
     store (state_of (_generate_comprehensive_report w others s)) = store s) /\
  (forall others s,
     fills_short_links others s (state_of (_generate_comprehensive_report w others s))).
Proof.
  cbv zeta. split; [vm_compute; reflexivity|].
  apply (report_keeps_candidates (offline_world (Some two_items)) plain_libraries
           (py "test") 5 true true initial_state).
  - intros self url v H. destruct self; discriminate H.
  - vm_compute. reflexivity.
Defined.

(** A candidate without short link, which no list of [search] holds: the
    first loop of synthesis resolves its URL and writes the result into the
    candidate (lines 166-169). *)
Example report_fills_missing_short_link :
  let st := state_with (sample_candidate None) in
  let o := _generate_comprehensive_report recovering_world [0%nat] st in
  short_link <$> store st !! 0%nat = Some None /\
  short_link <$> store (state_of o) !! 0%nat
    = Some (Some (py "https://short.url/cd69b81e")).
Proof.
  cbv zeta. split; vm_compute; reflexivity.
Qed.

(** ** C1: the consistency pass *)

Section Rendering.

Context (U : str -> Prop).

Lemma match_at u T :
  match_url (u ++ T) = Some u -> url_parts u /\ ends_url T /\ u <> [].
Proof.
  intros H. destruct (match_url_Some _ _ H) as (rest & E & Hend & Hu).
  apply app_inv_head in E. subst rest.
  split; [exact Hu|]. split; [exact Hend|].
  destruct (url_parts_chars u Hu) as (_ & r & ->). discriminate.
Qed.

Lemma match_splits c T u :
  match_url (c :: T) = Some u ->
  exists rest, c :: T = u ++ rest /\ (length rest <= length T)%nat /\
               u <> [] /\ url_parts u.
Proof.
  intros Hm. destruct (match_url_Some _ _ Hm) as (rest & E & Hend & Hu).
  exists rest. split; [exact E|].
  destruct (url_parts_chars u Hu) as (_ & r & ->).
  split; [|split; [discriminate|exact Hu]].
  apply (f_equal (@length N)) in E. rewrite length_app in E. simpl in E. lia.
Qed.

(** The text as the scan reads it. *)
Lemma rendered_id n : forall T,
  (length T <= n)%nat ->
  (forall u, In u (findall T) -> U u) ->
  rendered (fun u => u) U T T.
Proof.
  induction n as [|n IH]; intros T Hlen HU.
  { destruct T; [constructor|simpl in Hlen; lia]. }
  destruct T as [|c T]; [constructor|].
  destruct (match_url (c :: T)) as [u|] eqn:Hm.
  - destruct (match_splits c T u Hm) as (rest & E & Hrest & Hne & Hu).
    rewrite E in Hm, HU |- *.
    rewrite (findall_hit u rest Hne Hm) in HU.
    apply (rendered_url (fun u => u) U u rest rest).
    + exact Hm.
    + apply HU. now left.
    + apply IH; [simpl in Hlen; lia|]. intros u' Hu'. apply HU. now right.
  - rewrite findall_miss in HU by exact Hm.
    apply rendered_skip; [exact Hm|]. apply IH; [simpl in Hlen; lia|exact HU].
Qed.

Lemma findall_parts n : forall T u,
  (length T <= n)%nat -> In u (findall T) -> url_parts u.
Proof.
  induction n as [|n IH]; intros T u Hlen Hin.
  { destruct T; [destruct Hin|simpl in Hlen; lia]. }
  destruct T as [|c T]; [destruct Hin|].
  destruct (match_url (c :: T)) as [u0|] eqn:Hm.
  - destruct (match_splits c T u0 Hm) as (rest & E & Hrest & Hne & Hu).
    rewrite E in Hm, Hin.
    rewrite (findall_hit u0 rest Hne Hm) in Hin.
    destruct Hin as [<-|Hin]; [exact Hu|].
    apply (IH rest); [simpl in Hlen; lia|exact Hin].
  - rewrite findall_miss in Hin by exact Hm.
    apply (IH T); [simpl in Hlen; lia|exact Hin].
Qed.

Context (sub : str -> str).

Lemma ends_url_rendered T R : rendered sub U T R -> ends_url T -> ends_url R.
Proof.
  intros H Hend. destruct H as [|c T R Hm H|u T R Hm Hu H].
  - now left.
  - destruct Hend as [E|(d & r & E & Hd)]; [discriminate|].
    injection E as -> ->. right. eauto.
  - destruct (match_at u T Hm) as (Hp & _ & _).
    destruct (url_parts_chars u Hp) as (_ & rest & ->).
    destruct Hend as [E|(d & r & E & Hd)]; [discriminate|].
    injection E as <- _. discriminate Hd.
Qed.

Context (Hhead : forall u, U u -> exists r, sub u = 104 :: r).

(** If a URL [P] starts in a text [x] put before the rendering and goes
    on into it, then [x] put before the original starts a match. *)
Lemma rendered_prefix P T R :
  url_parts P -> rendered sub U T R ->
  forall x, x <> [] -> startswith P (x ++ R) = true -> match_url (x ++ T) <> None.
Proof.
  intros HP H. induction H as [|c T R Hm H IH|u T R Hm Hu H IH]; intros x Hx Hs.
  - apply (match_url_of_prefix P); [exact HP|exact Hs].
  - change (x ++ c :: T) with (x ++ [c] ++ T). rewrite app_assoc.
    apply IH; [destruct x; discriminate|].
    rewrite <- app_assoc. exact Hs.
  - destruct (match_at u T Hm) as (Hp & _ & _).
    destruct (Hhead u Hu) as (v' & Hv). rewrite Hv in Hs.
    destruct (url_parts_chars u Hp) as (_ & u' & ->).
    cbn [app] in *. exact (straddle P x (v' ++ R) (u' ++ T) HP Hx Hs).
Qed.

(** A rendering in which no URL stands as a text that contains [L] does
    not contain [L]. *)
Lemma rendered_absent L T R :
  url_parts L ->
  (forall u, U u -> str_in L (sub u) = false) ->
  rendered sub U T R -> str_in L R = false.
Proof.
  intros HL Hsafe H. induction H as [|c T R Hm H IH|u T R Hm Hu H IH].
  - simpl. rewrite orb_false_r.
    destruct (startswith L []) eqn:E; [|reflexivity].
    apply startswith_nil_r in E.
    destruct (url_parts_chars L HL) as (_ & r & ->). discriminate.
  - rewrite str_in_cons, IH, orb_false_r.
    destruct (startswith L (c :: R)) eqn:E; [|reflexivity].
    destruct (rendered_prefix L T R HL H [c]); [discriminate|exact E|exact Hm].
  - destruct (match_at u T Hm) as (_ & Hend & _).
    apply str_in_app_ends; auto.
    + apply (url_parts_chars L HL).
    + eapply ends_url_rendered; eauto.
Qed.

(** [replace] works on every URL of a rendering by itself. *)
Lemma replace_rendered u v T R :
  url_parts u ->
  rendered sub U T R ->
  rendered (fun x => replace_from u v 0 (sub x)) U T (replace_from u v 0 R).
Proof.
  intros Hp H.
  assert (Hchars : forallb url_char u = true) by apply (url_parts_chars u Hp).
  induction H as [|c T R Hm H IH|u' T R Hm Hu' H IH].
  - constructor.
  - rewrite replace_from_miss.
    + apply rendered_skip; auto.
    + destruct (startswith u (c :: R)) eqn:E; [|reflexivity].
      destruct (rendered_prefix u T R Hp H [c]); [discriminate|exact E|exact Hm].
  - destruct (match_at u' T Hm) as (_ & Hend & _).
    assert (HendR : ends_url R) by (eapply ends_url_rendered; eauto).
    rewrite replace_from_app_ends by (auto; lia).
    apply (rendered_url (fun x => replace_from u v 0 (sub x)) U u' T); auto.
Qed.

End Rendering.

Section ConsistencyPass.

Context (w : world) (url_map : gmap str str) (report L S : str) (st0 : state).
Context (Hkey : url_map !! L = Some S).
Context (Hvalues : forall u v, scanned report u -> substituted w url_map st0 u v ->
                     has_scheme v /\ inert url_map report L v).
Context (Hparts : forall u u' v, scanned report u -> rewritable url_map u ->
                    scanned report u' -> substituted w url_map st0 u v ->
                    str_in u u' = true ->
                    u = u' \/ inert url_map report L (replace u v u')).
Context (Hkept : forall u, scanned report u -> url_map !! u = None ->
                   str_in L u = true ->
                   is_short_url url_map u = false /\ printable u = true).

Lemma scanned_parts u : scanned report u -> url_parts u.
Proof. apply (findall_parts (length report)). lia. Qed.

Lemma scanned_head u : scanned report u -> exists r, u = 104 :: r.
Proof. intros Hu. apply (url_parts_chars u (scanned_parts u Hu)). Qed.

Lemma has_scheme_head v : has_scheme v -> exists r, v = 104 :: r.
Proof.
  intros [H|H]; apply startswith_split in H as [r ->]; eexists; reflexivity.
Qed.

Lemma invariant_head sub st u :
  pass_invariant w url_map report L S st0 sub st -> scanned report u ->
  exists r, sub u = 104 :: r.
Proof.
  intros (_ & Hsub & _) Hu. destruct (Hsub u Hu) as [->|[H _]]; [|exact H].
  now apply scanned_head.
Qed.

(** What stands for the URLs of the scan after [u] was replaced by a
    value [v] that the pass may put for it. *)
Lemma step_invariant u v sub st st' :
  scanned report u -> rewritable url_map u ->
  substituted w url_map st0 u v ->
  pass_invariant w url_map report L S st0 sub st ->
  (forall x y, scanned report x -> url_map !! x = None ->
     is_short_url url_map x = false -> cached Agent x y st' ->
     substituted w url_map st0 x y) ->
  let sub' := fun x => replace_from u v 0 (sub x) in
  pass_invariant w url_map report L S st0 sub' st' /\
  str_in L (sub' u) = false /\
  (forall x, scanned report x -> str_in L (sub x) = false ->
             str_in L (sub' x) = false).
Proof.
  intros Hu Hrw Hv (_ & Hsub & HL) Hcache sub'.
  destruct (Hvalues u v Hu Hv) as (Hscheme & Hinert).
  destruct (has_scheme_head v Hscheme) as (rv & Ev).
  assert (Hne : u <> []).
  { destruct (scanned_head u Hu) as (r & ->). discriminate. }
  assert (Hgood : forall x, inert url_map report L (sub x) -> sub' x = sub x).
  { intros x [_ Hx]. unfold sub'. apply replace_from_absent. now apply Hx. }
  assert (Hstep : forall x, scanned report x -> sub x = x ->
            sub' x = x \/
            ((exists r, sub' x = 104 :: r) /\ inert url_map report L (sub' x))).
  { intros x Hx E. unfold sub'. rewrite E.
    destruct (str_in u x) eqn:Hin.
    - right. destruct (Hparts u x v Hu Hrw Hx Hv Hin) as [<-|Hdamaged].
      + rewrite replace_from_whole by exact Hne. split; [eauto|exact Hinert].
      + rewrite replace_nonempty in Hdamaged by exact Hne.
        split; [|exact Hdamaged].
        destruct (scanned_head x Hx) as (r & ->). rewrite Ev.
        apply replace_from_head. exact Hne.
    - left. now apply replace_from_absent. }
  split; [split; [exact Hcache|split]|split].
  - intros x Hx. destruct (Hsub x Hx) as [E|[Hh Hi]]; [now apply Hstep|].
    right. rewrite (Hgood x Hi). auto.
  - intros HLs Hwhole. unfold sub'. destruct (HL HLs Hwhole) as [E|E]; rewrite E.
    + destruct (str_in u L) eqn:Hin.
      * right. assert (u = L) as -> by now apply Hwhole.
        rewrite replace_from_whole by exact Hne.
        destruct Hv as [Hv|(Hv & _)]; congruence.
      * left. now apply replace_from_absent.
    + right. apply replace_from_absent.
      assert (HS : substituted w url_map st0 L S) by now left.
      destruct (Hvalues L S HLs HS) as (_ & _ & HSi). now apply HSi.
  - destruct (Hsub u Hu) as [E|[_ Hi]].
    + unfold sub'. rewrite E. rewrite replace_from_whole by exact Hne.
      exact (proj1 Hinert).
    + rewrite (Hgood u Hi). exact (proj1 Hi).
  - intros x Hx Hfree. destruct (Hsub x Hx) as [E|[_ Hi]].
    + destruct (Hstep x Hx E) as [E'|[_ Hi']]; [|exact (proj1 Hi')].
      rewrite E'. rewrite <- E. exact Hfree.
    + rewrite (Hgood x Hi). exact Hfree.
Qed.

Lemma invariant_state sub st st' :
  pass_invariant w url_map report L S st0 sub st ->
  (forall x y, cached Agent x y st' <-> cached Agent x y st) ->
  pass_invariant w url_map report L S st0 sub st'.
Proof.
  intros (Hcache & Hsub & HL) Hsame. split; [|split; [exact Hsub|exact HL]].
  intros x y Hx Hk Hs Hc. apply Hsame in Hc. now apply Hcache.
Qed.

(** A URL of the scan that the pass leaves as it is. *)
Lemma kept_free u sub st :
  scanned report u -> url_map !! u = None ->
  pass_invariant w url_map report L S st0 sub st ->
  is_short_url url_map u = true \/ encode u = None ->
  str_in L (sub u) = false.
Proof.
  intros Hu Hk (_ & Hsub & _) Hwhy.
  destruct (Hsub u Hu) as [E|[_ Hi]]; [|exact (proj1 Hi)].
  rewrite E. destruct (str_in L u) eqn:Hin; [|reflexivity].
  destruct (Hkept u Hu Hk Hin) as [Hs Hp]. unfold printable in Hp.
  destruct Hwhy as [Hw|Hw]; [congruence|]. rewrite Hw in Hp. discriminate.
Qed.

(** One turn of the loop of the pass. *)
Lemma rewrite_url_rendered u sub R st :
  scanned report u ->
  rendered sub (scanned report) report R ->
  pass_invariant w url_map report L S st0 sub st ->
  exists sub' R' st',
    rewrite_url w url_map R u st = Ret R' st' /\
    rendered sub' (scanned report) report R' /\
    pass_invariant w url_map report L S st0 sub' st' /\
    str_in L (sub' u) = false /\
    (forall x, scanned report x -> str_in L (sub x) = false ->
               str_in L (sub' x) = false).
Proof.
  intros Hu Hr Hinv. unfold rewrite_url.
  assert (Hne : u <> []).
  { destruct (scanned_head u Hu) as (r & ->). discriminate. }
  assert (Hreplace : forall v st',
    rewritable url_map u -> substituted w url_map st0 u v ->
    (forall x y, scanned report x -> url_map !! x = None ->
       is_short_url url_map x = false -> cached Agent x y st' ->
       substituted w url_map st0 x y) ->
    exists sub' R' st'',
      Ret (replace u v R) st' = Ret R' st'' /\
      rendered sub' (scanned report) report R' /\
      pass_invariant w url_map report L S st0 sub' st'' /\
      str_in L (sub' u) = false /\
      (forall x, scanned report x -> str_in L (sub x) = false ->
                 str_in L (sub' x) = false)).
  { intros v st' Hrw Hv Hcache.
    destruct (step_invariant u v sub st st' Hu Hrw Hv Hinv Hcache) as (H1 & H2 & H3).
    exists (fun x => replace_from u v 0 (sub x)), (replace u v R), st'.
    split; [reflexivity|]. split; [|auto].
    rewrite replace_nonempty by exact Hne.
    apply replace_rendered; [|exact (scanned_parts u Hu)|exact Hr].
    intros x Hx. exact (invariant_head sub st x Hinv Hx). }
  destruct (url_map !! u) as [v|] eqn:Hk.
  { (* a key *)
    apply Hreplace; [left; eauto|now left|apply Hinv]. }
  destruct (is_short_url url_map u) eqn:Hs.
  { (* a short URL of the map *)
    exists sub, R, st. split; [reflexivity|]. split; [exact Hr|].
    split; [exact Hinv|]. split; [|auto].
    apply (kept_free u sub st Hu Hk Hinv). now left. }
  unfold try_except, mbind, M_bind.
  destruct (shorten_cases w Agent u st)
    as [(c & Hc & E)|(Hmiss & st1 & Hst1 & [(v & Hv & E & Hfrom)|(Henc & E)])];
    rewrite E; cbn [find fst snd].
  - (* the cache of the agent holds a value *)
    apply Hreplace; [now right| |apply Hinv].
    destruct Hinv as [Hcache _]. now apply Hcache.
  - (* the shortener resolves the URL *)
    assert (Hsubst : substituted w url_map st0 u v).
    { right. split; [exact Hk|]. split; [exact Hs|]. right.
      destruct Hfrom as [(ct & Ht)|Hl]; [left|now right].
      split; [exact Hv|]. eauto. }
    assert (Hst : forall x y, cached Agent x y st1 <-> cached Agent x y st).
    { intros x y. destruct Hst1 as [->| ->]; [reflexivity|apply cached_logged]. }
    apply Hreplace; [now right|exact Hsubst|].
    intros x y Hx Hkx Hsx Hxy. apply cached_put in Hxy. case_decide as Hd.
    + destruct Hd as [_ ->]. subst y. exact Hsubst.
    + destruct Hinv as [Hcache _]. apply Hcache; auto. now apply Hst.
  - (* the shortener raises, and the report is left as it is *)
    assert (Hst : forall x y, cached Agent x y st1 <-> cached Agent x y st).
    { intros x y. destruct Hst1 as [->| ->]; [reflexivity|apply cached_logged]. }
    exists sub, R, st1. split; [reflexivity|]. split; [exact Hr|].
    split; [now apply (invariant_state sub st st1)|]. split; [|auto].
    apply (kept_free u sub st Hu Hk Hinv). now right.
Qed.

(** The loop of the pass over URLs of the scan. *)
Lemma rewrite_urls_rendered urls : forall sub R st,
  (forall u, In u urls -> scanned report u) ->
  rendered sub (scanned report) report R ->
  pass_invariant w url_map report L S st0 sub st ->
  exists sub' R' st',
    rewrite_urls w url_map urls R st = Ret R' st' /\
    rendered sub' (scanned report) report R' /\
    pass_invariant w url_map report L S st0 sub' st' /\
    (forall u, In u urls -> str_in L (sub' u) = false) /\
    (forall x, scanned report x -> str_in L (sub x) = false ->
               str_in L (sub' x) = false).
Proof.
  induction urls as [|u urls IH]; intros sub R st Hin Hr Hinv.
  - exists sub, R, st. split; [reflexivity|]. split; [exact Hr|].
    split; [exact Hinv|]. split; [intros u []|auto].
  - destruct (rewrite_url_rendered u sub R st (Hin u (or_introl eq_refl)) Hr Hinv)
      as (sub1 & R1 & st1 & E1 & Hr1 & Hinv1 & Hu1 & Hkeep1).
    destruct (IH sub1 R1 st1) as (sub2 & R2 & st2 & E2 & Hr2 & Hinv2 & Hu2 & Hkeep2);
      auto.
    { intros u' Hu'. apply Hin. now right. }
    exists sub2, R2, st2. cbn [rewrite_urls]. unfold mbind, M_bind. rewrite E1, E2.
    split; [reflexivity|]. split; [exact Hr2|]. split; [exact Hinv2|]. split.
    + intros u' [<-|Hu']; [|now apply Hu2].
      apply Hkeep2; [|exact Hu1]. apply Hin. now left.
    + intros x Hx Hfree. apply Hkeep2; [exact Hx|]. now apply Hkeep1.
Qed.

Lemma initial_invariant st :
  st = st0 -> pass_invariant w url_map report L S st0 (fun u => u) st.
Proof.
  intros ->. split; [|split].
  - intros u v Hu Hk Hs Hc. right. auto.
  - intros u Hu. now left.
  - intros _ _. now left.
Qed.

End ConsistencyPass.



(** The run of the witness: both keys stand as their short forms, and the
    key before the full stop has become the short form as well. *)
Example consistency_pass_on_cited_keys :
  let url_map : gmap str str :=
    {[ py "https://example.com/a" := py "https://tinyurl.com/abc";
       py "https://example.org/b" := py "https://tinyurl.com/xyz" ]} in
  let report :=
    py "See https://example.com/a (and https://example.org/b). Again: https://example.com/a." in
  value_of (consistency_pass (narrating_world report) url_map report initial_state)
  = Some (py "See https://tinyurl.com/abc (and https://tinyurl.com/xyz). Again: https://tinyurl.com/abc.").
Proof. vm_compute. reflexivity. Qed.


(** Another URL of the narrative can undo the effect of the pass on a key
    that the pattern matches: the first URL is replaced wherever it occurs,
    also at the start of the second one, which the pass then no longer
    finds; the key inside it stays. *)
Example report_keeps_long_url_behind_prefix :
  let L := py "http://example.com/a" in
  let narrative := py "http://web.example/ http://web.example/http://example.com/a" in
  let st := state_with (candidate_at L (py "https://tinyurl.com/abc")) in
  let o := _generate_comprehensive_report (narrating_world narrative) [0%nat] st in
  url_shaped L /\
  findall narrative
    = [py "http://web.example/"; py "http://web.example/http://example.com/a"] /\
  value_of o
    = Some (py "https://short.url/843bf0d8 https://short.url/843bf0d8http://example.com/a") /\
  option_map (str_in L) (value_of o) = Some true.
Proof. vm_compute. repeat split; reflexivity. Qed.

(** ** Further properties of [tools/url_shortener.py] *)

Section DigestFacts.

Lemma le_bytes_length n x : length (MD5.le_bytes n x) = n.
Proof. unfold MD5.le_bytes. rewrite length_map, length_seq. reflexivity. Qed.

Lemma le_bytes_lt n x b : In b (MD5.le_bytes n x) -> b < 256.
Proof.
  unfold MD5.le_bytes. rewrite in_map_iff. intros (i & <- & _).
  apply N.mod_lt. discriminate.
Qed.

Lemma digest_length msg : length (MD5.digest msg) = 16%nat.
Proof.
  unfold MD5.digest.
  destruct (MD5.chunks _ _ _) as [[[a b] c] d].
  rewrite !length_app, !le_bytes_length. reflexivity.
Qed.

Lemma digest_lt msg b : In b (MD5.digest msg) -> b < 256.
Proof.
  unfold MD5.digest.
  destruct (MD5.chunks _ _ _) as [[[a0 b0] c0] d0].
  rewrite !in_app_iff. intros [H | [H | [H | H]]]; eapply le_bytes_lt; eassumption.
Qed.

Lemma hex_digit_lower x : x < 16 -> is_lower_hex (MD5.hex_digit x) = true.
Proof.
  intros Hx. unfold MD5.hex_digit, is_lower_hex.
  destruct (N.ltb_spec x 10).
  - apply orb_true_intro. left. apply andb_true_intro.
    split; apply N.leb_le; lia.
  - apply orb_true_intro. right. apply andb_true_intro.
    split; apply N.leb_le; lia.
Qed.

Lemma hexdigest_length msg : length (MD5.hexdigest msg) = 32%nat.
Proof.
  unfold MD5.hexdigest.
  assert (H : forall l : list N,
             length (flat_map (fun b => [MD5.hex_digit (b / 16);
                                         MD5.hex_digit (b mod 16)]) l)
             = (2 * length l)%nat).
  { induction l as [|b l IH]; simpl; [reflexivity | rewrite IH; lia]. }
  rewrite H, digest_length. reflexivity.
Qed.

Lemma hexdigest_lower msg : forallb is_lower_hex (MD5.hexdigest msg) = true.
Proof.
  unfold MD5.hexdigest.
  assert (H : forall l : list N, (forall b, In b l -> b < 256) ->
             forallb is_lower_hex
               (flat_map (fun b => [MD5.hex_digit (b / 16);
                                    MD5.hex_digit (b mod 16)]) l) = true).
  { induction l as [|b l IH]; intros Hl; [reflexivity|].
    cbn [flat_map app forallb].
    rewrite !hex_digit_lower, IH; try reflexivity.
    - intros x Hx. apply Hl. right. exact Hx.
    - apply N.mod_lt. discriminate.
    - apply N.Div0.div_lt_upper_bound. apply Hl. left. reflexivity. }
  apply H. intros b. apply digest_lt.
Qed.

Lemma lower_hex_url_char c : is_lower_hex c = true -> url_char c = true.
Proof.
  unfold is_lower_hex. intros H.
  assert (Hc : (48 <= c <= 57) \/ (97 <= c <= 102)).
  { apply orb_prop in H as [H | H]; apply andb_prop in H as [H1 H2];
      apply N.leb_le in H1, H2; lia. }
  unfold url_char, isspace.
  repeat match goal with
         | |- context [?a <=? ?b] => destruct (N.leb_spec a b); try lia
         | |- context [?a =? ?b] => destruct (N.eqb_spec a b); try lia
         end; reflexivity.
Qed.

Lemma forallb_firstn {A} (f : A -> bool) n : forall l,
  forallb f l = true -> forallb f (firstn n l) = true.
Proof.
  induction n as [|n IH]; intros [|x l]; simpl; try reflexivity.
  intros H. apply andb_prop in H as [-> H]. simpl. apply IH, H.
Qed.

Lemma take_while_all f : forall s, forallb f s = true -> take_while f s = s.
Proof.
  induction s as [|c s IH]; simpl; [reflexivity|].
  intros H. apply andb_prop in H as [-> H]. rewrite IH; auto.
Qed.

Lemma forallb_impl {A} (f g : A -> bool) l :
  (forall x, f x = true -> g x = true) -> forallb f l = true -> forallb g l = true.
Proof.
  intros Hfg. induction l as [|x l IH]; simpl; [reflexivity|].
  intros H. apply andb_prop in H as [Hx H]. rewrite (Hfg _ Hx), IH; auto.
Qed.

End DigestFacts.

(** X1. [_shorten_locally] changes nothing in the state; for a URL that
    UTF-8 can encode it returns [https://short.url/] followed by exactly
    eight digits of [0-9a-f], which the pattern of the consistency pass
    matches as a whole; for any other URL it raises [UnicodeEncodeError]. *)
Theorem shorten_locally_shape (url : str) (st : state) :
  match encode url with
  | Some _ =>
      exists h,
        _shorten_locally url st = Ret (py "https://short.url/" ++ h) st /\
        length h = 8%nat /\
        forallb is_lower_hex h = true /\
        url_shaped (py "https://short.url/" ++ h)
  | None => _shorten_locally url st = Raise UnicodeEncodeError st
  end.
Proof.
  unfold _shorten_locally.
  destruct (encode url) as [bytes|]; [|reflexivity].
  exists (firstn 8 (MD5.hexdigest bytes)).
  assert (Hhex : forallb is_lower_hex (firstn 8 (MD5.hexdigest bytes)) = true)
    by apply forallb_firstn, hexdigest_lower.
  repeat split.
  - rewrite length_firstn, hexdigest_length. reflexivity.
  - exact Hhex.
  - unfold url_shaped, match_url.
    change (py "https://short.url/") with (scheme_https ++ py "short.url/").
    rewrite <- app_assoc, startswith_app.
    rewrite skipn_app, Nat.sub_diag, skipn_all. cbn [app skipn].
    assert (Hall : forallb url_char (py "short.url/" ++ firstn 8 (MD5.hexdigest bytes))
                   = true).
    { rewrite forallb_app. apply andb_true_intro. split; [reflexivity|].
      eapply forallb_impl; [apply lower_hex_url_char | exact Hhex]. }
    rewrite take_while_all by exact Hall. reflexivity.
Qed.

(** X2. A call of [shorten], whether it returns or raises, keeps every
    entry of the cache it works on, changes at most the entry of the
    requested URL, and leaves the other shortener, the switch
    [use_external_api] and the store as they were; when it returns, the
    cache holds the returned value for the URL. *)
Theorem shorten_extends_cache (w : world) (self : owner) (url : str) (st : state) :
  let o := shorten w self url st in
  short_urls_cache (shortener_of self st)
    ⊆ short_urls_cache (shortener_of self (state_of o)) /\
  (forall u, u <> url ->
     short_urls_cache (shortener_of self (state_of o)) !! u
     = short_urls_cache (shortener_of self st) !! u) /\
  (forall other, other <> self ->
     shortener_of other (state_of o) = shortener_of other st) /\
  use_external_api (shortener_of self (state_of o))
    = use_external_api (shortener_of self st) /\
  store (state_of o) = store st /\
  (forall v, value_of o = Some v ->
     short_urls_cache (shortener_of self (state_of o)) !! url = Some v).
Proof.
  cbv zeta.
  destruct (shorten_cases w self url st)
    as [(v & Hc & ->) | (Hmiss & st1 & Hst1 & [(v & _ & -> & _) | (_ & ->)])];
    cbn [state_of value_of].
  - repeat split; auto. intros v' [= <-]. exact Hc.
  - assert (Hsh : forall o, shortener_of o st1 = shortener_of o st)
      by (destruct Hst1 as [-> | ->]; intros []; reflexivity).
    assert (Hstore : store st1 = store st)
      by (destruct Hst1 as [-> | ->]; reflexivity).
    unfold put. rewrite shortener_of_set. cbn [short_urls_cache use_external_api].
    rewrite !Hsh. repeat split.
    + apply insert_subseteq. exact Hmiss.
    + intros u Hu. apply lookup_insert_ne. congruence.
    + intros other Hother. rewrite shortener_of_set_other by exact Hother. apply Hsh.
    + destruct self; exact Hstore.
    + intros v' [= <-]. apply lookup_insert_eq.
  - assert (Hsh : forall o, shortener_of o st1 = shortener_of o st)
      by (destruct Hst1 as [-> | ->]; intros []; reflexivity).
    assert (Hstore : store st1 = store st)
      by (destruct Hst1 as [-> | ->]; reflexivity).
    rewrite !Hsh. repeat split; auto. discriminate.
Qed.

(** X3. A call of [shorten] makes no external call when the URL is in the
    cache or when the shortener was built with [use_external_api] off, and
    exactly one request to the shortening service otherwise, whatever the
    service answers and whether the call returns or raises. *)
Theorem shorten_calls_service_at_most_once (w : world) (self : owner) (url : str)
    (st : state) :
  journal (state_of (shorten w self url st)) =
    journal st ++
    match short_urls_cache (shortener_of self st) !! url with
    | Some _ => []
    | None =>
        if use_external_api (shortener_of self st) then [TinyUrlGet url] else []
    end.
Proof.
  unfold shorten, shorten_miss_local, _shorten_with_external_api, _shorten_locally.
  unfold_M.
  destruct (short_urls_cache (shortener_of self st) !! url) as [v|] eqn:Hc.
  - cbn [state_of]. rewrite app_nil_r. reflexivity.
  - destruct (use_external_api (shortener_of self st)) eqn:Hext.
    + cbn [journal].
      destruct (tinyurl w (length (journal st)) url) as [| |status ct text];
        try destruct (status =? 200); try destruct text;
        destruct (encode url); destruct self; reflexivity.
    + rewrite app_nil_r. destruct (encode url); destruct self; reflexivity.
Qed.

(** ** Further properties of [tools/search.py]: the search client *)

Section JournalFrames.

Context (P : event -> bool).

Lemma grows_refl st : grows P st st.
Proof. exists []. rewrite app_nil_r. split; reflexivity. Qed.

Lemma grows_trans a b c : grows P a b -> grows P b c -> grows P a c.
Proof.
  intros (e1 & H1 & F1) (e2 & H2 & F2). exists (e1 ++ e2).
  rewrite H2, H1, app_assoc, forallb_app, F1, F2. split; reflexivity.
Qed.

Lemma grows_weaken (Q : event -> bool) st st' :
  (forall ev, P ev = true -> Q ev = true) -> grows P st st' -> grows Q st st'.
Proof.
  intros HPQ (evs & H & F). exists evs. split; [exact H|].
  rewrite forallb_forall in *. auto.
Qed.

Lemma same_journal_grows st st' : journal st' = journal st -> grows P st st'.
Proof. intros H. exists []. rewrite app_nil_r. split; [exact H | reflexivity]. Qed.

Lemma read_grows r : preserves (grows P) (read r).
Proof.
  intros st. unfold read. destruct (store st !! r); apply grows_refl.
Qed.

Lemma alloc_grows c : preserves (grows P) (alloc c).
Proof. intros st. apply same_journal_grows. reflexivity. Qed.

Lemma write_grows r c : preserves (grows P) (write r c).
Proof. intros st. apply same_journal_grows. reflexivity. Qed.

Lemma print_grows text : preserves (grows P) (print_ text).
Proof. intros st. rewrite print_state. apply grows_refl. Qed.

End JournalFrames.

Section SearchCalls.

Context (w : world) (lib : libraries).

Lemma shorten_grows o u : preserves (grows is_TinyUrlGet) (shorten w o u).
Proof.
  intros st.
  assert (Hput : forall v st1, journal (put o u v st1) = journal st1)
    by (intros; destruct o; reflexivity).
  destruct (shorten_cases w o u st)
    as [(v & _ & ->) | (_ & st1 & Hst1 & [(v & _ & -> & _) | (_ & ->)])];
    cbn [state_of].
  - apply grows_refl.
  - destruct Hst1 as [-> | ->].
    + apply same_journal_grows, Hput.
    + exists [TinyUrlGet u]. rewrite Hput. split; reflexivity.
  - destruct Hst1 as [-> | ->].
    + apply grows_refl.
    + exists [TinyUrlGet u]. split; reflexivity.
Qed.

Lemma format_item_grows it : preserves (grows is_TinyUrlGet) (format_item w it).
Proof.
  unfold format_item.
  apply preserves_bind; [apply grows_trans | apply shorten_grows |].
  intros v.
  do 4 (apply preserves_bind; [apply grows_trans | apply print_grows |]; intros _).
  apply preserves_bind; [apply grows_trans | |].
  - intros st. unfold published_time.
    destruct (item_metatags it) as [[|first l]|]; apply grows_refl.
  - intros published. apply alloc_grows.
Qed.

(** What the loop of [search] builds, and what stops it. *)
Lemma format_item_outcome it st :
  match format_item w it st with
  | Ret o st' =>
      exists v,
        store st !! o = None /\
        store st' = <[o := candidate_of it v]> (store st) /\
        printable_result (candidate_of it v)
  | Raise e st' =>
      (e = UnicodeEncodeError /\ unprintable_item it st') \/
      (e = IndexError /\ item_metatags it = Some [])
  end.
Proof.
  unfold format_item, mbind, M_bind.
  pose proof (shorten_store w SearchTool (default [] (item_link it)) st) as Hstore.
  assert (Hprinted : forall v st1,
    store st1 = store st ->
    cached SearchTool (default [] (item_link it)) v st1 ->
    match
      match print_ (py ". 標題: " ++ default [] (item_title it)) st1 with
      | Ret _ st2 =>
          match print_ (py "   原始連結: " ++ default [] (item_link it)) st2 with
          | Ret _ st3 =>
              match print_ (py "   縮短連結: " ++ v) st3 with
              | Ret _ st4 =>
                  match print_ (py "   摘要: " ++
                                firstn 150 (default [] (item_snippet it)) ++
                                py "..." ++ [10]) st4 with
                  | Ret _ st5 =>
                      match published_time it st5 with
                      | Ret published st6 =>
                          alloc (Candidate (default [] (item_title it))
                                   (default [] (item_link it)) (Some v)
                                   (default [] (item_snippet it)) (py "google")
                                   published None) st6
                      | Raise e st6 => Raise e st6
                      end
                  | Raise e st5 => Raise e st5
                  end
              | Raise e st4 => Raise e st4
              end
          | Raise e st3 => Raise e st3
          end
      | Raise e st2 => Raise e st2
      end
    with
    | Ret o st' =>
        exists v,
          store st !! o = None /\
          store st' = <[o := candidate_of it v]> (store st) /\
          printable_result (candidate_of it v)
    | Raise e st' =>
        (e = UnicodeEncodeError /\ unprintable_item it st') \/
        (e = IndexError /\ item_metatags it = Some [])
    end).
  { intros v st1 Hst1 Hv. unfold print_.
    rewrite !printable_label by reflexivity.
    rewrite printable_tail by reflexivity.
    destruct (printable (default [] (item_title it))) eqn:Ptitle;
      [|left; split; [reflexivity|left; exact Ptitle]].
    unfold mret at 1, M_ret at 1.
    destruct (printable (default [] (item_link it))) eqn:Plink;
      [|left; split; [reflexivity|right; left; exact Plink]].
    unfold mret at 1, M_ret at 1.
    destruct (printable v) eqn:Pshort;
      [|left; split; [reflexivity|right; right; right; eauto]].
    unfold mret at 1, M_ret at 1.
    destruct (printable (firstn 150 (default [] (item_snippet it)))) eqn:Psnippet;
      [|left; split; [reflexivity|right; right; left; exact Psnippet]].
    unfold mret at 1, M_ret at 1.
    unfold published_time, candidate_of, alloc, mret, M_ret, raise.
    destruct (item_metatags it) as [[|first l]|];
      [ right; split; reflexivity | | ];
      (exists v; cbn [store set_store]; rewrite Hst1;
       split; [apply fresh_unused|]; split; [reflexivity|];
       exists v; repeat split; assumption). }
  destruct (shorten_cases w SearchTool (default [] (item_link it)) st)
    as [(v & Hc & Heq) | (_ & st1 & _ & [(v & _ & Heq & _) | (Henc & Heq)])];
    rewrite Heq in *; cbn [state_of] in Hstore.
  - apply Hprinted; [reflexivity|exact Hc].
  - apply Hprinted; [exact Hstore|].
    apply cached_put. rewrite decide_True by auto. reflexivity.
  - left. split; [reflexivity|]. right. left.
    unfold printable. now rewrite Henc.
Qed.

Lemma format_items_outcome items : forall st,
  match for_each (format_item w) items st with
  | Ret refs st' =>
      store st ⊆ store st' /\
      NoDup refs /\
      (forall r, In r refs -> store st !! r = None) /\
      Forall2 (fun r it =>
                 exists v, store st' !! r = Some (candidate_of it v) /\
                           printable_result (candidate_of it v))
        refs items
  | Raise e st' =>
      (e = UnicodeEncodeError /\ exists it, In it items /\ unprintable_item it st') \/
      (e = IndexError /\ exists it, In it items /\ item_metatags it = Some [])
  end.
Proof.
  induction items as [|it items IH]; intros st.
  - cbn. split; [reflexivity|]. split; [constructor|].
    split; [intros r []|constructor].
  - cbn [for_each]. unfold mbind, M_bind at 1.
    pose proof (format_item_outcome it st) as Hit.
    destruct (format_item w it st) as [o st1|e st1].
    + destruct Hit as (v & Hfresh & Hst1 & Hp).
      specialize (IH st1).
      unfold mbind, M_bind at 1.
      destruct (for_each (format_item w) items st1) as [refs st'|e st'].
      * destruct IH as (Hsub & Hnd & Hnew & Hall).
        assert (Hsub1 : store st ⊆ store st1)
          by (rewrite Hst1; apply insert_subseteq, Hfresh).
        assert (Ho1 : store st1 !! o = Some (candidate_of it v))
          by (rewrite Hst1; apply lookup_insert_eq).
        cbn. split; [|split; [|split]].
        -- etransitivity; eassumption.
        -- constructor; [|exact Hnd].
           intros Hin. apply list_elem_of_In, Hnew in Hin. congruence.
        -- intros r [<- | Hin]; [exact Hfresh|].
           apply Hnew in Hin.
           destruct (store st !! r) as [c|] eqn:Hr; [|reflexivity].
           eapply lookup_weaken in Hr; [|exact Hsub1]. congruence.
        -- constructor; [|exact Hall].
           exists v. split; [eapply lookup_weaken; eassumption|exact Hp].
      * destruct IH as [(-> & it' & Hin & H) | (-> & it' & Hin & H)];
          [left | right]; (split; [reflexivity|]); exists it'; split; auto;
          right; exact Hin.
    + destruct Hit as [(-> & H) | (-> & H)]; [left | right];
        (split; [reflexivity|]); exists it; split; auto; left; reflexivity.
Qed.

Lemma attempts_trace_fetch url k :
  forallb is_fetch (attempts_trace url k) = true /\
  length (page_gets (attempts_trace url k)) = S k.
Proof.
  induction k as [|k [IH1 IH2]]; [split; reflexivity|].
  cbn [attempts_trace forallb is_fetch andb]. split; [exact IH1|].
  change (page_gets (PageGet url :: Sleep 1 :: attempts_trace url k))
    with (url :: page_gets (attempts_trace url k)).
  cbn [length]. rewrite IH2. reflexivity.
Qed.

Lemma enrich_one_calls r st :
  exists evs,
    journal (state_of (enrich_one w lib r st)) = journal st ++ evs /\
    forallb is_fetch evs = true /\
    (length (page_gets evs) <= 3)%nat.
Proof.
  assert (Hnone : forall o : outcome nat, state_of o = st ->
            exists evs, journal (state_of o) = journal st ++ evs /\
              forallb is_fetch evs = true /\ (length (page_gets evs) <= 3)%nat).
  { intros o ->. exists []. rewrite app_nil_r. repeat split. cbn. lia. }
  unfold enrich_one, mbind, M_bind, read.
  destruct (store st !! r) as [c|]; [|now apply Hnone].
  unfold print_ at 1. destruct (printable _); [|now apply Hnone].
  unfold mret at 1, M_ret at 1. unfold short_link_of.
  destruct (short_link c) as [short_url|]; [|now apply Hnone].
  unfold mret at 1, M_ret at 1.
  unfold print_ at 1. destruct (printable _); [|now apply Hnone].
  unfold mret at 1, M_ret at 1.
  unfold print_ at 1. destruct (printable _); [|now apply Hnone].
  unfold mret at 1, M_ret at 1.
  destruct (attempts_spec w lib 0 (link c) st) as (k & Hk & _ & _ & Heq).
  unfold get_page_content. cbn [Nat.add] in Heq. rewrite Heq.
  exists (attempts_trace (link c) k).
  destruct (attempts_trace_fetch (link c) k) as [Hf Hl].
  rewrite Hf, Hl. split; [|split; [reflexivity | lia]].
  pose proof (fetch_outcome_state (link c) (page_of lib
                (site w (length (journal st) + 2 * k) (link c)))
                (logged_all (attempts_trace (link c) k) st)) as Hs.
  destruct (fetch_outcome _ _ _) as [content st1|e st1]; cbn [state_of] in *;
    subst st1; [|reflexivity].
  destruct content as [[|ch text]|]; reflexivity.
Qed.

Lemma enrich_calls l : forall st,
  exists evs,
    journal (state_of (for_each (enrich_one w lib) l st)) = journal st ++ evs /\
    forallb is_fetch evs = true /\
    (length (page_gets evs) <= 3 * length l)%nat.
Proof.
  induction l as [|r l IH]; intros st.
  - exists []. rewrite app_nil_r. repeat split. cbn. lia.
  - cbn [for_each]. unfold mbind, M_bind at 1.
    destruct (enrich_one_calls r st) as (e1 & H1 & F1 & L1).
    destruct (enrich_one w lib r st) as [o st1|e st1]; cbn [state_of] in H1.
    + destruct (IH st1) as (e2 & H2 & F2 & L2).
      exists (e1 ++ e2).
      rewrite page_gets_app, length_app, forallb_app, F1, F2.
      split; [|split; [reflexivity | cbn [length]; lia]].
      unfold mbind, M_bind at 1.
      destruct (for_each (enrich_one w lib) l st1) as [outs st2|e st2];
        unfold mret, M_ret; cbn [state_of] in *; rewrite H2, H1, app_assoc;
        reflexivity.
    + exists e1. cbn [state_of]. split; [exact H1|].
      split; [exact F1 | cbn [length]; lia].
Qed.

End SearchCalls.

(** X4. A call of [search], however it ends, makes exactly one request to
    the search index, first, asking for [min(num_results, 10)] results;
    then only requests to the shortening service; then, when [deep_search]
    is on, page requests and the pauses between them, with at most
    [3 * max_urls_to_crawl = 15] page requests; without [deep_search] it
    requests no page. *)
Theorem search_external_calls (w : world) (lib : libraries) (q : str) (n : Z)
    (sort deep : bool) (st : state) :
  exists shortenings fetches,
    journal (state_of (search w lib q n sort deep st))
      = journal st ++ GoogleGet q (Z.min n 10) sort :: shortenings ++ fetches /\
    forallb is_TinyUrlGet shortenings = true /\
    forallb is_fetch fetches = true /\
    (length (page_gets fetches) <= 3 * max_urls_to_crawl)%nat /\
    (deep = false -> fetches = []).
Proof.
  assert (Hnone : forall st1 : state,
             journal st1 = journal st ++ [GoogleGet q (Z.min n 10) sort] ->
             exists shortenings fetches,
               journal st1
                 = journal st ++ GoogleGet q (Z.min n 10) sort :: shortenings ++ fetches /\
               forallb is_TinyUrlGet shortenings = true /\
               forallb is_fetch fetches = true /\
               (length (page_gets fetches) <= 3 * max_urls_to_crawl)%nat /\
               (deep = false -> fetches = [])).
  { intros st1 H. exists [], []. rewrite H. repeat split. cbn. lia. }
  unfold search, try_except. unfold mbind, M_bind at 1.
  rewrite search_get_spec. cbv zeta.
  destruct (google w (length (journal st)) q (Z.min n 10) sort) as [| |status items].
  - apply Hnone. reflexivity.
  - apply Hnone. reflexivity.
  - destruct (raises_for_status lib status); [apply Hnone; reflexivity|].
    destruct items as [items|]; [|apply Hnone; reflexivity].
    set (st1 := logged (GoogleGet q (Z.min n 10) sort) st).
    unfold mbind, M_bind at 1.
    destruct (preserves_for_each (grows_refl is_TinyUrlGet) (grows_trans is_TinyUrlGet)
                (format_item w) items
                (fun it _ => format_item_grows w it) st1) as (e1 & H1 & F1).
    assert (Hcut : forall e : exn,
               find (fun cl : clause (list nat) => fst cl e)
                 [(is_HTTPError, fun _ : exn => mret [])] = None \/
               find (fun cl : clause (list nat) => fst cl e)
                 [(is_HTTPError, fun _ : exn => mret [])]
               = Some (is_HTTPError, fun _ : exn => mret [])).
    { intros e. cbn. destruct (is_HTTPError e); auto. }
    destruct (for_each (format_item w) items st1) as [refs st2|e st2];
      cbn [state_of] in H1.
    + destruct deep.
      * unfold _enrich_search_results. unfold mbind, M_bind at 1.
        destruct (enrich_calls w lib (firstn max_urls_to_crawl refs) st2)
          as (e2 & H2 & F2 & L2).
        exists e1, e2.
        assert (Hlen : (length (firstn max_urls_to_crawl refs) <= max_urls_to_crawl)%nat)
          by (rewrite length_firstn; lia).
        split; [|repeat split; auto; [lia | discriminate]].
        destruct (for_each (enrich_one w lib) (firstn max_urls_to_crawl refs) st2)
          as [outs st3|e st3]; cbn [state_of] in H2.
        -- cbn [state_of mret M_ret]. rewrite H2, H1. subst st1. cbn [journal logged].
           rewrite <- !app_assoc. reflexivity.
        -- destruct (Hcut e) as [-> | ->]; cbn [state_of snd mret M_ret];
             rewrite H2, H1; subst st1; cbn [journal logged];
             rewrite <- !app_assoc; reflexivity.
      * exists e1, []. cbn [state_of mret M_ret]. rewrite H1, app_nil_r.
        subst st1. cbn [journal logged]. rewrite <- !app_assoc.
        repeat split; auto. cbn. lia.
    + exists e1, []. rewrite app_nil_r.
      split; [|repeat split; auto; cbn; lia].
      destruct (Hcut e) as [-> | ->]; cbn [state_of snd mret M_ret];
        rewrite H1; subst st1; cbn [journal logged];
        rewrite <- !app_assoc; reflexivity.
Qed.

Lemma Forall2_in_left {A B} (R : A -> B -> Prop) (l : list A) (k : list B) x :
  Forall2 R l k -> In x l -> exists y, In y k /\ R x y.
Proof.
  induction 1 as [|a b l k Hab _ IH]; intros Hin; [destruct Hin|].
  destruct Hin as [<- | Hin].
  - exists b. split; [left; reflexivity | exact Hab].
  - destruct (IH Hin) as (y & Hy & HR). exists y. split; [right; exact Hy | exact HR].
Qed.

(** X5. [search] lets an exception through in three situations only: the
    answer of the index is not JSON (the exception of [response.json()]);
    or an accepted answer holds an item of which a line cannot be printed,
    because its title, its link, the first 150 characters of its snippet
    or the short URL held for its link has no UTF-8 encoding
    ([UnicodeEncodeError], from [print] or, for the link, from
    [_shorten_locally]); or an accepted answer holds an item whose
    [metatags] list is empty ([IndexError] from the subscript [0]). In
    particular no [httpx.HTTPError] leaves [search], and enrichment never
    makes it raise. *)
Theorem search_raises_only (w : world) (lib : libraries) (q : str) (n : Z)
    (sort deep : bool) (st : state) (e : exn) (st' : state) :
  search w lib q n sort deep st = Raise e st' ->
  (e = OtherException /\
   google w (length (journal st)) q (Z.min n 10) sort = SearchNotJson) \/
  exists status items it,
    google w (length (journal st)) q (Z.min n 10) sort
      = SearchJson status (Some items) /\
    raises_for_status lib status = false /\
    In it items /\
    ((e = UnicodeEncodeError /\ unprintable_item it st') \/
     (e = IndexError /\ item_metatags it = Some [])).
Proof.
  unfold search, try_except. unfold mbind, M_bind at 1.
  rewrite search_get_spec. cbv zeta.
  destruct (google w (length (journal st)) q (Z.min n 10) sort)
    as [| |status items] eqn:Hg.
  - discriminate.
  - cbn. intros [= <- _]. left. split; reflexivity.
  - destruct (raises_for_status lib status) eqn:Hs; [discriminate|].
    destruct items as [items|]; [|discriminate].
    set (st1 := logged (GoogleGet q (Z.min n 10) sort) st).
    unfold mbind, M_bind at 1.
    pose proof (format_items_outcome w items st1) as Hfor.
    destruct (for_each (format_item w) items st1) as [refs st2|e2 st2].
    + destruct Hfor as (_ & _ & _ & Hall).
      destruct deep; [|discriminate].
      unfold _enrich_search_results. unfold mbind, M_bind at 1.
      destruct (enrich_each w lib (firstn max_urls_to_crawl refs) st2)
        as (outs & st3 & -> & _).
      * intros r Hr. apply in_firstn in Hr.
        destruct (Forall2_in_left _ _ _ _ Hall Hr) as (it & _ & v & -> & Hp). eauto.
      * discriminate.
    + intros Hraise. right. exists status, items.
      destruct Hfor as [(-> & it & Hin & H) | (-> & it & Hin & H)];
        cbn in Hraise; injection Hraise as <- <-; exists it; auto 7.
Qed.

Lemma search_raises_only_witness :
  let w := surrogate_title_world in
  let o := search w plain_libraries (py "test") 5 true true initial_state in
  o = Raise UnicodeEncodeError (state_of o) /\
  ((UnicodeEncodeError = OtherException /\
    google w 0 (py "test") (Z.min 5 10) true = SearchNotJson) \/
   exists status items it,
     google w 0 (py "test") (Z.min 5 10) true = SearchJson status (Some items) /\
     raises_for_status plain_libraries status = false /\
     In it items /\
     ((UnicodeEncodeError = UnicodeEncodeError /\ unprintable_item it (state_of o)) \/
      (UnicodeEncodeError = IndexError /\ item_metatags it = Some []))).
Proof.
  cbv zeta.
  assert (H : search surrogate_title_world plain_libraries (py "test") 5 true true
                initial_state
              = Raise UnicodeEncodeError
                  (state_of (search surrogate_title_world plain_libraries (py "test") 5
                               true true initial_state)))
    by (vm_compute; reflexivity).
  split; [exact H|].
  exact (search_raises_only surrogate_title_world plain_libraries (py "test") 5 true true
           initial_state UnicodeEncodeError _ H).
Defined.

(** An item whose [metatags] list is empty stops [search] with
    [IndexError]. *)
Example search_raises_on_empty_metatags :
  value_of (search bare_metatags_world plain_libraries (py "test") 5 true true
              initial_state) = None /\
  exists st',
    search bare_metatags_world plain_libraries (py "test") 5 true true initial_state
    = Raise IndexError st'.
Proof. split; [vm_compute; reflexivity|]. eexists. vm_compute. reflexivity. Qed.

(** X6. When the index answers a list of items with an accepted status and
    [search] runs without [deep_search], it returns one result per item,
    in the order of the items: a new dictionary, different from every
    other result, that holds the title, the link and the snippet of the
    item (the empty string for a missing key), a short link, the source
    [google], the first [article:published_time] of the item or the empty
    string, and no [full_content]. The dictionaries that existed before
    are unchanged. *)
Theorem search_formats_items (w : world) (lib : libraries) (q : str) (n : Z)
    (sort : bool) (st : state) (status : N) (items : list item)
    (refs : list nat) (st' : state) :
  google w (length (journal st)) q (Z.min n 10) sort = SearchJson status (Some items) ->
  raises_for_status lib status = false ->
  search w lib q n sort false st = Ret refs st' ->
  Forall2 (fun r it => exists v, store st' !! r = Some (candidate_of it v)) refs items /\
  NoDup refs /\
  (forall r, In r refs -> store st !! r = None) /\
  store st ⊆ store st'.
Proof.
  intros Hg Hs.
  unfold search, try_except. unfold mbind, M_bind at 1.
  rewrite search_get_spec. cbv zeta. rewrite Hg, Hs.
  unfold mbind, M_bind at 1.
  pose proof (format_items_outcome w items (logged (GoogleGet q (Z.min n 10) sort) st))
    as Hfor.
  destruct (for_each (format_item w) items _) as [refs2 st2|e2 st2].
  - intros [= <- <-]. destruct Hfor as (Hsub & Hnd & Hnew & Hall).
    split; [|auto]. eapply Forall2_impl; [exact Hall|].
    intros r it (v & Hv & _). eauto.
  - destruct Hfor as [(-> & _) | (-> & _)]; cbn; discriminate.
Qed.

Lemma search_formats_items_witness :
  let w := offline_world (Some two_items) in
  let o := search w plain_libraries (py "test") 5 true false initial_state in
  Forall2 (fun r it => exists v, store (state_of o) !! r = Some (candidate_of it v))
    (default [] (value_of o)) two_items /\
  NoDup (default [] (value_of o)) /\
  (forall r, In r (default [] (value_of o)) -> store initial_state !! r = None) /\
  store initial_state ⊆ store (state_of o).
Proof.
  cbv zeta.
  apply (search_formats_items (offline_world (Some two_items)) plain_libraries
           (py "test") 5 true initial_state 200 two_items).
  - reflexivity.
  - reflexivity.
  - vm_compute. reflexivity.
Defined.

(** ** Further properties of the two HTML cleaners *)

Section CleanerFacts.

Lemma forallb_tags_flat_map (f : node -> bool) (g : node -> list node) l :
  (forall x, In x l -> forallb f (flat_map tags (g x)) = true) ->
  forallb f (flat_map tags (flat_map g l)) = true.
Proof.
  induction l as [|x l IH]; intros H; [reflexivity|].
  cbn [flat_map]. rewrite flat_map_app, forallb_app, H, IH;
    auto using in_eq, in_cons.
Qed.

Lemma decompose_tags n :
  forallb (fun t => negb (is_removed_tag t)) (flat_map tags (decompose n)) = true.
Proof.
  induction n as [s|name classes children IH] using node_children_ind;
    [reflexivity|].
  cbn [decompose].
  destruct (has_name removed_tags name) eqn:Hname; [reflexivity|].
  cbn [flat_map tags app forallb is_removed_tag]. rewrite Hname, app_nil_r.
  cbn [negb andb].
  apply forallb_tags_flat_map. exact IH.
Qed.

Lemma max_by_text_len_max rest : forall first x,
  In x (first :: rest) ->
  (text_len x <= text_len (max_by_text_len first rest))%nat.
Proof.
  induction rest as [|y rest IH]; intros first x Hx.
  - destruct Hx as [<- | []]. reflexivity.
  - cbn [max_by_text_len].
    destruct (Nat.ltb_spec (text_len first) (text_len y)) as [Hlt | Hge].
    + destruct Hx as [<- | Hx].
      * etransitivity; [|apply (IH y y); left; reflexivity]. lia.
      * apply IH, Hx.
    + destruct Hx as [<- | [<- | Hx]].
      * apply IH. left. reflexivity.
      * etransitivity; [exact Hge|]. apply IH. left. reflexivity.
      * apply IH. right. exact Hx.
Qed.

(** The elements of 100 characters or less never win against a longer
    one, so that setting them aside leaves the choice as it is. *)
Lemma max_by_text_len_filter_long rest : forall best,
  (100 < text_len best)%nat ->
  max_by_text_len best (List.filter (fun el => (100 <? text_len el)%nat) rest)
  = max_by_text_len best rest.
Proof.
  induction rest as [|x rest IH]; intros best Hbest; [reflexivity|].
  cbn [List.filter max_by_text_len].
  destruct (Nat.ltb_spec 100 (text_len x)) as [Hx | Hx].
  - cbn [max_by_text_len].
    destruct (text_len best <? text_len x)%nat; apply IH; assumption.
  - destruct (Nat.ltb_spec (text_len best) (text_len x)); [lia|].
    apply IH, Hbest.
Qed.

Lemma max_by_text_len_filter_short rest : forall best f r,
  (text_len best <= 100)%nat ->
  List.filter (fun el => (100 <? text_len el)%nat) rest = f :: r ->
  max_by_text_len f r = max_by_text_len best rest.
Proof.
  induction rest as [|x rest IH]; intros best f r Hbest Hf; [discriminate|].
  cbn [List.filter] in Hf. cbn [max_by_text_len].
  destruct (Nat.ltb_spec 100 (text_len x)) as [Hx | Hx].
  - injection Hf as <- <-.
    destruct (Nat.ltb_spec (text_len best) (text_len x)); [|lia].
    apply max_by_text_len_filter_long, Hx.
  - destruct (text_len best <? text_len x)%nat; eapply IH; eassumption.
Qed.

Lemma lstrip_length s : (length (lstrip s) <= length s)%nat.
Proof.
  induction s as [|c s IH]; [reflexivity|].
  cbn [lstrip]. destruct (isspace c); cbn [length]; lia.
Qed.

Lemma lstrip_fixed s :
  lstrip s = s <-> existsb isspace (firstn 1 s) = false.
Proof.
  destruct s as [|c s]; [split; reflexivity|].
  cbn [lstrip firstn existsb]. rewrite orb_false_r.
  destruct (isspace c) eqn:Hc.
  - split; [|discriminate]. intros H.
    pose proof (lstrip_length s) as Hl. rewrite H in Hl. cbn [length] in Hl. lia.
  - split; reflexivity.
Qed.

Lemma lstrip_head s : existsb isspace (firstn 1 (lstrip s)) = false.
Proof.
  induction s as [|c s IH]; [reflexivity|].
  cbn [lstrip]. destruct (isspace c) eqn:Hc; [exact IH|].
  cbn [firstn existsb]. rewrite Hc. reflexivity.
Qed.

Lemma lstrip_idempotent s : lstrip (lstrip s) = lstrip s.
Proof. apply lstrip_fixed, lstrip_head. Qed.

Lemma lstrip_suffix s : exists a, s = a ++ lstrip s.
Proof.
  induction s as [|c s [a IH]]; [exists []; reflexivity|].
  cbn [lstrip]. destruct (isspace c).
  - exists (c :: a). cbn [app]. rewrite <- IH. reflexivity.
  - exists []. reflexivity.
Qed.

Lemma rstrip_prefix s : exists b, s = rstrip s ++ b.
Proof.
  unfold rstrip. destruct (lstrip_suffix (rev s)) as [a Ha].
  exists (rev a). rewrite <- rev_app_distr, <- Ha, rev_involutive. reflexivity.
Qed.

Lemma rstrip_idempotent s : rstrip (rstrip s) = rstrip s.
Proof. unfold rstrip. rewrite rev_involutive, lstrip_idempotent. reflexivity. Qed.

(** Stripping on the right keeps a first character that is not white
    space. *)
Lemma rstrip_head s :
  existsb isspace (firstn 1 s) = false ->
  existsb isspace (firstn 1 (rstrip s)) = false.
Proof.
  destruct s as [|c s]; [intros _; reflexivity|].
  cbn [firstn existsb]. rewrite orb_false_r. intros Hc.
  destruct (rstrip_prefix (c :: s)) as [b Hb].
  destruct (rstrip (c :: s)) as [|d t] eqn:Hr.
  - exfalso. unfold rstrip in Hr.
    apply (f_equal (@rev N)) in Hr. rewrite rev_involutive in Hr. cbn [rev] in Hr.
    assert (Hin : In c (lstrip (rev s ++ [c]))).
    { clear Hr Hb. induction (rev s) as [|x l IH]; cbn [app lstrip].
      - rewrite Hc. left. reflexivity.
      - destruct (isspace x); [exact IH|]. right. apply in_or_app. right. left.
        reflexivity. }
    rewrite Hr in Hin. destruct Hin.
  - cbn [app] in Hb. injection Hb as <- _.
    cbn [firstn existsb]. rewrite Hc. reflexivity.
Qed.

Lemma strip_idempotent s : strip (strip s) = strip s.
Proof.
  unfold strip.
  assert (H : lstrip (rstrip (lstrip s)) = rstrip (lstrip s))
    by apply lstrip_fixed, rstrip_head, lstrip_head.
  rewrite H. apply rstrip_idempotent.
Qed.

Lemma single_spaced_suffix a : forall s,
  single_spaced (a ++ s) = true -> single_spaced s = true.
Proof.
  induction a as [|c a IH]; intros s H; [exact H|].
  cbn [app single_spaced] in H. apply andb_prop in H as [_ H]. apply IH, H.
Qed.

Lemma single_spaced_prefix s : forall b,
  single_spaced (s ++ b) = true -> single_spaced s = true.
Proof.
  induction s as [|c s IH]; intros b H; [reflexivity|].
  cbn [app single_spaced] in *. apply andb_prop in H as [Hc H].
  rewrite (IH _ H), andb_true_r.
  destruct (isspace c); [|reflexivity].
  apply andb_prop in Hc as [-> Hc]. cbn [andb].
  destruct s as [|d s]; [reflexivity|exact Hc].
Qed.

Lemma collapse_single_spaced s : forall in_run,
  single_spaced (collapse_from in_run s) = true /\
  (in_run = true -> existsb isspace (firstn 1 (collapse_from in_run s)) = false).
Proof.
  induction s as [|c s IH]; intros in_run; [split; reflexivity|].
  cbn [collapse_from]. destruct (isspace c) eqn:Hc.
  - destruct (IH true) as [IH1 IH2]. destruct in_run.
    + split; [exact IH1 | exact IH2].
    + split; [|discriminate].
      cbn [single_spaced]. rewrite IH1, (IH2 eq_refl). reflexivity.
  - destruct (IH false) as [IH1 _]. split.
    + cbn [single_spaced]. rewrite Hc, IH1. reflexivity.
    + intros _. cbn [firstn existsb]. rewrite Hc. reflexivity.
Qed.

Lemma collapse_fixed s : forall in_run,
  single_spaced s = true ->
  (in_run = true -> existsb isspace (firstn 1 s) = false) ->
  collapse_from in_run s = s.
Proof.
  induction s as [|c s IH]; intros in_run Hs Hhead; [reflexivity|].
  cbn [single_spaced] in Hs. apply andb_prop in Hs as [Hc Hs].
  cbn [collapse_from]. destruct (isspace c) eqn:Hsp.
  - apply andb_prop in Hc as [Hc Hnext]. apply N.eqb_eq in Hc. subst c.
    destruct in_run.
    + specialize (Hhead eq_refl). cbn [firstn existsb] in Hhead.
      rewrite Hsp in Hhead. discriminate.
    + rewrite IH; auto. intros _. apply negb_true_iff, Hnext.
  - rewrite IH; auto. discriminate.
Qed.

Lemma strip_single_spaced s : single_spaced s = true -> single_spaced (strip s) = true.
Proof.
  intros H. unfold strip.
  destruct (lstrip_suffix s) as [a Ha].
  destruct (rstrip_prefix (lstrip s)) as [b Hb].
  apply single_spaced_prefix with b. rewrite <- Hb.
  apply single_spaced_suffix with a. rewrite <- Ha. exact H.
Qed.

Lemma normalize_single_spaced s : single_spaced (normalize s) = true.
Proof.
  unfold normalize, collapse_spaces. apply strip_single_spaced.
  apply collapse_single_spaced.
Qed.

Lemma normalize_head s : existsb isspace (firstn 1 (normalize s)) = false.
Proof. unfold normalize, strip. apply rstrip_head, lstrip_head. Qed.

Lemma normalize_idempotent s : normalize (normalize s) = normalize s.
Proof.
  unfold normalize at 1. unfold collapse_spaces.
  rewrite collapse_fixed
    by (auto using normalize_single_spaced, normalize_head; discriminate).
  unfold normalize. apply strip_idempotent.
Qed.

End CleanerFacts.

(** X7. Both cleaners return at most [max_content_length] characters of
    page text, plus the truncation marker: whatever the markup and
    whatever the parser does, the result has at most 10000 + 13
    characters. *)
Theorem cleaners_bounded_length (lib : libraries) (html_content : str) :
  (length (_clean_html_content lib html_content)
   <= max_content_length + length truncation_marker)%nat /\
  (length (_clean_html lib html_content)
   <= max_content_length + length truncation_marker)%nat.
Proof.
  assert (Herr : (length error_sentinel
                  <= max_content_length + length truncation_marker)%nat)
    by (apply Nat.leb_le; vm_compute; reflexivity).
  assert (Hno : (length no_content_sentinel
                 <= max_content_length + length truncation_marker)%nat)
    by (apply Nat.leb_le; vm_compute; reflexivity).
  assert (Hcut : forall t : str,
             (length (firstn max_content_length t) <= max_content_length)%nat)
    by (intros t; rewrite length_firstn; apply Nat.le_min_l).
  unfold _clean_html_content, _clean_html.
  destruct (html_parser lib html_content) as [parsed|]; [|split; exact Herr].
  split.
  - unfold limit_length.
    destruct (main_content_of _) as [|c main]; [exact Hno|]. cbv zeta.
    specialize (Hcut (normalize (c :: main))).
    destruct (_ =? _)%nat; [rewrite length_app|]; lia.
  - unfold limit_length_summarizer.
    destruct (main_content_of_summarizer _) as [|c main]; [exact Hno|]. cbv zeta.
    specialize (Hcut (normalize (c :: main))).
    destruct (_ <? _)%nat; [rewrite length_app|]; lia.
Qed.

(** X8. After the removal loop of the cleaners (the [decompose] calls), no
    [script], [style], [meta], [noscript], [header], [footer], [nav] or
    [aside] tag is left anywhere in the tree, so that no selector of the
    cleaners can select one. *)
Theorem decompose_leaves_no_removed_tag (soup : list node) :
  forallb (fun t => negb (is_removed_tag t)) (flat_map tags (flat_map decompose soup))
  = true /\
  forall name, has_name removed_tags name = true ->
    select (ByName name) (flat_map decompose soup) = [].
Proof.
  assert (H : forallb (fun t => negb (is_removed_tag t))
                (flat_map tags (flat_map decompose soup)) = true).
  { apply forallb_tags_flat_map. intros n _. apply decompose_tags. }
  split; [exact H|].
  intros name Hname. unfold select. apply filter_nil_iff. intros n Hn.
  rewrite forallb_forall in H. specialize (H n Hn).
  destruct n as [s|name' classes children]; [reflexivity|].
  cbn [matches]. unfold str_eqb. destruct (bool_decide_reflect (name' = name)) as [-> | _];
    [|reflexivity].
  cbn [is_removed_tag] in H. rewrite Hname in H. discriminate.
Qed.

(** X9. [_clean_html_content] of search.py: when a selector finds a
    container, the main content is the text of one of the containers, and
    no container has a longer text than it (the paragraphs of the page
    are not looked at). *)
Theorem main_content_of_longest_container (soup : list node) :
  potential_content_elements content_selectors soup <> [] ->
  exists el,
    In el (potential_content_elements content_selectors soup) /\
    main_content_of soup = get_text [32] [el] /\
    forall x, In x (potential_content_elements content_selectors soup) ->
      (text_len x <= text_len el)%nat.
Proof.
  unfold main_content_of.
  destruct (potential_content_elements content_selectors soup) as [|first rest];
    [congruence|].
  intros _. exists (max_by_text_len first rest). split; [|split].
  - apply max_by_text_len_in.
  - reflexivity.
  - intros x. apply max_by_text_len_max.
Qed.

Lemma main_content_of_longest_container_witness :
  potential_content_elements content_selectors (flat_map decompose teaser_page) <> [] /\
  exists el,
    In el (potential_content_elements content_selectors (flat_map decompose teaser_page)) /\
    main_content_of (flat_map decompose teaser_page) = get_text [32] [el] /\
    forall x,
      In x (potential_content_elements content_selectors (flat_map decompose teaser_page)) ->
      (text_len x <= text_len el)%nat.
Proof.
  assert (H : potential_content_elements content_selectors
                (flat_map decompose teaser_page) <> [])
    by (vm_compute; discriminate).
  split; [exact H|].
  exact (main_content_of_longest_container (flat_map decompose teaser_page) H).
Defined.

(** X10. [_clean_html] of summarizer.py: setting aside the containers of
    100 characters or less (lines 244-250) never changes the element that
    is chosen: the main content is always the text of the first longest
    container found by the selectors, [body] included. *)
Theorem summarizer_length_filter_is_neutral (soup : list node) :
  main_content_of_summarizer soup =
    match potential_content_elements content_selectors_summarizer soup with
    | first :: rest => get_text [32] [max_by_text_len first rest]
    | [] => paragraphs_or_page soup
    end.
Proof.
  unfold main_content_of_summarizer.
  destruct (potential_content_elements content_selectors_summarizer soup)
    as [|first rest]; [reflexivity|].
  cbv zeta. f_equal. f_equal.
  cbn [List.filter].
  destruct (Nat.ltb_spec 100 (text_len first)) as [Hlong | Hshort].
  - apply max_by_text_len_filter_long, Hlong.
  - destruct (List.filter _ rest) as [|f r] eqn:Hf; [reflexivity|].
    eapply max_by_text_len_filter_short; eassumption.
Qed.

(** X11. The white-space normalisation of both cleaners and of
    [clean_snippet] ([re.sub(r'\s+', ' ', s).strip()]) gives a text in
    which white space occurs only as single spaces between other
    characters, never at the start or at the end; and normalising such a
    text again changes nothing. *)
Theorem normalize_normal_form (s : str) :
  single_spaced (normalize s) = true /\
  existsb isspace (firstn 1 (normalize s)) = false /\
  existsb isspace (firstn 1 (rev (normalize s))) = false /\
  normalize (normalize s) = normalize s.
Proof.
  split; [apply normalize_single_spaced|].
  split; [apply normalize_head|]. split.
  - unfold normalize, strip, rstrip. rewrite rev_involutive. apply lstrip_head.
  - apply normalize_idempotent.
Qed.

(** ** Properties of [tools/utils.py] *)

Section SnippetFacts.

Lemma skipn_take_while_nil f : forall s,
  skipn (length (take_while f s)) s = [] -> forallb f s = true.
Proof.
  induction s as [|c s IH]; [reflexivity|].
  cbn [take_while]. destruct (f c) eqn:Hc.
  - cbn [length skipn forallb]. rewrite Hc. exact IH.
  - cbn [length skipn]. discriminate.
Qed.

Lemma match_tag_None c rest :
  match_tag (c :: rest) = None <->
  (c =? 60) = false \/ (exists r, rest = 62 :: r) \/ forallb not_gt rest = true.
Proof.
  unfold match_tag. destruct (c =? 60); [|split; auto].
  split.
  - destruct rest as [|d r]; [auto|].
    cbn [take_while]. destruct (not_gt d) eqn:Hd.
    + destruct (skipn _ _) eqn:Hskip; [|discriminate].
      intros _. right. right.
      change (forallb not_gt (d :: r)) with (not_gt d && forallb not_gt r).
      rewrite Hd. apply skipn_take_while_nil.
      cbn [length skipn] in Hskip. exact Hskip.
    + intros _. right. left. exists r.
      unfold not_gt in Hd. apply negb_false_iff, N.eqb_eq in Hd. congruence.
  - intros [H | [(r & ->) | H]]; [discriminate|reflexivity|].
    rewrite take_while_all by exact H.
    destruct rest as [|d r]; [reflexivity|].
    rewrite skipn_all. reflexivity.
Qed.

Lemma remove_tags_from_not_gt s : forall skip,
  forallb not_gt s = true -> forallb not_gt (remove_tags_from skip s) = true.
Proof.
  induction s as [|c s IH]; intros skip H; [reflexivity|].
  cbn [forallb] in H. apply andb_prop in H as [Hc H].
  cbn [remove_tags_from].
  destruct skip; [|apply IH, H].
  destruct (match_tag (c :: s)); [apply IH, H|].
  cbn [forallb]. rewrite Hc, IH; auto.
Qed.

Lemma remove_tags_from_length s : forall skip,
  (length (remove_tags_from skip s) <= length s)%nat.
Proof.
  induction s as [|c s IH]; intros skip; [reflexivity|].
  cbn [remove_tags_from].
  destruct skip; [|specialize (IH skip); cbn [length]; lia].
  destruct (match_tag (c :: s)) as [n|].
  - specialize (IH (n - 1)%nat). cbn [length]. lia.
  - specialize (IH 0%nat). cbn [length]. lia.
Qed.

Lemma remove_tags_from_tag_free s : forall skip,
  tag_free (remove_tags_from skip s) = true.
Proof.
  induction s as [|c s IH]; intros skip; [reflexivity|].
  cbn [remove_tags_from].
  destruct skip; [|apply IH].
  destruct (match_tag (c :: s)) as [n|] eqn:Hm; [apply IH|].
  cbn [tag_free]. rewrite IH, andb_true_r.
  assert (Hnone : match_tag (c :: remove_tags_from 0 s) = None).
  { apply match_tag_None. apply match_tag_None in Hm as [H | [(r & ->) | H]].
    - left. exact H.
    - right. left. eexists. reflexivity.
    - right. right. apply remove_tags_from_not_gt, H. }
  rewrite Hnone. reflexivity.
Qed.

Lemma remove_tags_fixed s : tag_free s = true -> remove_tags s = s.
Proof.
  unfold remove_tags. induction s as [|c s IH]; [reflexivity|].
  cbn [tag_free remove_tags_from].
  destruct (match_tag (c :: s)); [discriminate|].
  cbn [andb]. intros H. rewrite IH; auto.
Qed.

Lemma collapse_from_not_gt s : forall in_run,
  forallb not_gt s = true -> forallb not_gt (collapse_from in_run s) = true.
Proof.
  induction s as [|c s IH]; intros in_run H; [reflexivity|].
  cbn [forallb] in H. apply andb_prop in H as [Hc H].
  cbn [collapse_from].
  destruct (isspace c); [destruct in_run|]; cbn [forallb];
    rewrite ?Hc, ?IH; auto.
Qed.

Lemma collapse_from_length s : forall in_run,
  (length (collapse_from in_run s) <= length s)%nat.
Proof.
  induction s as [|c s IH]; intros in_run; [reflexivity|].
  cbn [collapse_from].
  destruct (isspace c); [destruct in_run|]; cbn [length];
    match goal with |- context [collapse_from ?b s] => specialize (IH b) end; lia.
Qed.

Lemma collapse_from_tag_free s : forall in_run,
  tag_free s = true -> tag_free (collapse_from in_run s) = true.
Proof.
  induction s as [|c s IH]; intros in_run H; [reflexivity|].
  cbn [tag_free] in H. apply andb_prop in H as [Hm H].
  destruct (match_tag (c :: s)) eqn:Hnone; [discriminate|]. clear Hm.
  cbn [collapse_from]. destruct (isspace c) eqn:Hc.
  - destruct in_run; [apply IH, H|].
    cbn [tag_free]. rewrite (IH true H), andb_true_r. reflexivity.
  - cbn [tag_free]. rewrite (IH false H), andb_true_r.
    assert (Hout : match_tag (c :: collapse_from false s) = None).
    { apply match_tag_None. apply match_tag_None in Hnone as [Hn | [(r & ->) | Hn]].
      - left. exact Hn.
      - right. left. eexists. reflexivity.
      - right. right. apply collapse_from_not_gt, Hn. }
    rewrite Hout. reflexivity.
Qed.

Lemma tag_free_suffix a : forall s, tag_free (a ++ s) = true -> tag_free s = true.
Proof.
  induction a as [|c a IH]; intros s H; [exact H|].
  cbn [app tag_free] in H. apply andb_prop in H as [_ H]. apply IH, H.
Qed.

Lemma tag_free_prefix s : forall b, tag_free (s ++ b) = true -> tag_free s = true.
Proof.
  induction s as [|c s IH]; intros b H; [reflexivity|].
  cbn [app tag_free] in H. apply andb_prop in H as [Hm H].
  destruct (match_tag (c :: s ++ b)) eqn:Hnone; [discriminate|]. clear Hm.
  cbn [tag_free]. rewrite (IH _ H), andb_true_r.
  assert (Hout : match_tag (c :: s) = None).
  { apply match_tag_None. apply match_tag_None in Hnone as [Hn | [(r & Hr) | Hn]].
    - left. exact Hn.
    - destruct s as [|d s]; [right; right; reflexivity|].
      right. left. cbn [app] in Hr. injection Hr as -> _. eexists. reflexivity.
    - right. right. rewrite forallb_app in Hn. apply andb_prop in Hn as [Hn _].
      exact Hn. }
  rewrite Hout. reflexivity.
Qed.

Lemma strip_tag_free s : tag_free s = true -> tag_free (strip s) = true.
Proof.
  intros H. unfold strip.
  destruct (lstrip_suffix s) as [a Ha].
  destruct (rstrip_prefix (lstrip s)) as [b Hb].
  apply tag_free_prefix with b. rewrite <- Hb.
  apply tag_free_suffix with a. rewrite <- Ha. exact H.
Qed.

Lemma strip_length s : (length (strip s) <= length s)%nat.
Proof.
  unfold strip, rstrip. rewrite length_rev.
  pose proof (lstrip_length (rev (lstrip s))) as H1.
  pose proof (lstrip_length s) as H2.
  rewrite length_rev in H1. lia.
Qed.

Lemma clean_snippet_tag_free s : tag_free (clean_snippet s) = true.
Proof.
  unfold clean_snippet, collapse_spaces.
  apply strip_tag_free, collapse_from_tag_free, remove_tags_from_tag_free.
Qed.

Lemma clean_snippet_idempotent s : clean_snippet (clean_snippet s) = clean_snippet s.
Proof.
  unfold clean_snippet at 1.
  rewrite remove_tags_fixed by apply clean_snippet_tag_free.
  apply (normalize_idempotent (remove_tags s)).
Qed.

End SnippetFacts.

(** X12. [clean_snippet] returns a text in which the tag pattern
    [<[^>]+>] matches nowhere and that is never longer than its input;
    cleaning a cleaned text changes nothing. *)
Theorem clean_snippet_removes_tags (snippet : str) :
  tag_free (clean_snippet snippet) = true /\
  (length (clean_snippet snippet) <= length snippet)%nat /\
  clean_snippet (clean_snippet snippet) = clean_snippet snippet.
Proof.
  split; [apply clean_snippet_tag_free|]. split; [|apply clean_snippet_idempotent].
  unfold clean_snippet, collapse_spaces, remove_tags.
  pose proof (strip_length (collapse_from false (remove_tags_from 0 snippet))).
  pose proof (collapse_from_length (remove_tags_from 0 snippet) false).
  pose proof (remove_tags_from_length snippet 0).
  lia.
Qed.

Section FilterFacts.

Context (min_length : Z).

Lemma cleaned_cleaned c : cleaned (cleaned c) = cleaned c.
Proof.
  unfold cleaned, with_snippet. cbn [snippet title link short_link source
    published_date full_content].
  rewrite clean_snippet_idempotent. reflexivity.
Qed.

Lemma long_enough_insert_ne st r r' c :
  r' <> r ->
  long_enough min_length (set_store (<[r := c]> (store st)) st) r'
  = long_enough min_length st r'.
Proof.
  intros Hne. unfold long_enough. cbn [store set_store].
  rewrite lookup_insert_ne by congruence. reflexivity.
Qed.

End FilterFacts.

(** X13. [filter_results] on a list of results, with any [min_length]:
    it returns, in their order, results of the list (the objects
    themselves); a result is returned exactly when its snippet, as it was
    before the call, has at least [min_length] characters; the snippet of
    a returned result has been replaced, in place, by its cleaned form,
    and nothing else has changed: the other keys, the results that were
    not returned, every other object, the caches and the journal (it
    calls no external service). When no object occurs twice in the list,
    the returned list is the list filtered by the length test. *)
Theorem filter_results_spec (min_length : Z) (results : list nat) (st : state) :
  (forall r, In r results -> is_Some (store st !! r)) ->
  exists filtered st',
    filter_results results min_length st = Ret filtered st' /\
    sublist filtered results /\
    journal st' = journal st /\
    search_tool_shortener st' = search_tool_shortener st /\
    agent_shortener st' = agent_shortener st /\
    (forall r, store st !! r = None -> store st' !! r = None) /\
    (forall r c, store st !! r = Some c ->
       (In r filtered ->
        store st' !! r = Some (cleaned c) /\ long_enough min_length st r = true) /\
       (~ In r filtered -> store st' !! r = Some c) /\
       (In r results -> long_enough min_length st r = true -> In r filtered)) /\
    (NoDup results -> filtered = List.filter (long_enough min_length st) results).
Proof.
  revert st. induction results as [|r rest IH]; intros st Hvalid.
  - exists [], st. split; [reflexivity|]. split; [constructor|].
    do 4 (split; [auto|]). split; [|reflexivity].
    intros r c Hr. split; [intros []|]. split; [intros _; exact Hr|intros []].
  - destruct (Hvalid r (in_eq _ _)) as [c Hc].
    cbn [filter_results]. unfold mbind, M_bind at 1. unfold read. rewrite Hc.
    assert (Hlong : long_enough min_length st r
                    = (min_length <=? Z.of_nat (length (snippet c)))%Z)
      by (unfold long_enough; rewrite Hc; reflexivity).
    destruct (min_length <=? Z.of_nat (length (snippet c)))%Z eqn:Htest.
    + unfold mbind, M_bind at 1. unfold write.
      change (with_snippet c (clean_snippet (snippet c))) with (cleaned c).
      set (st1 := set_store (<[r := cleaned c]> (store st)) st).
      assert (Hsame : forall r', r' <> r -> store st1 !! r' = store st !! r')
        by (intros r' Hne; subst st1; cbn [store set_store];
            apply lookup_insert_ne; congruence).
      assert (Hr1 : store st1 !! r = Some (cleaned c))
        by (subst st1; cbn [store set_store]; apply lookup_insert_eq).
      destruct (IH st1) as (fr & st' & Heq & Hsub & Hj & Hs1 & Hs2 & Hnone & Hsome & Hnd).
      { intros r' Hin. destruct (Nat.eq_dec r' r) as [-> | Hne].
        - rewrite Hr1. eauto.
        - rewrite Hsame by exact Hne. apply Hvalid. right. exact Hin. }
      unfold mbind, M_bind at 1. rewrite Heq.
      exists (r :: fr), st'.
      split; [reflexivity|]. split; [apply sublist_skip, Hsub|].
      split; [exact Hj|]. split; [exact Hs1|]. split; [exact Hs2|].
      split; [|split].
      * intros r' Hr'. apply Hnone.
        destruct (Nat.eq_dec r' r) as [-> | Hne]; [congruence|].
        rewrite Hsame by exact Hne. exact Hr'.
      * intros r' c' Hr'.
        destruct (Nat.eq_dec r' r) as [-> | Hne].
        -- assert (c' = c) by congruence. subst c'.
           destruct (Hsome r (cleaned c) Hr1) as (Hin & Hout & _).
           split; [|split].
           ++ intros _. split; [|exact Hlong].
              destruct (in_dec Nat.eq_dec r fr) as [Hfr | Hfr].
              ** destruct (Hin Hfr) as [-> _]. rewrite cleaned_cleaned. reflexivity.
              ** apply Hout, Hfr.
           ++ intros Hnot. exfalso. apply Hnot. left. reflexivity.
           ++ intros _ _. left. reflexivity.
        -- assert (Hr1' : store st1 !! r' = Some c')
             by (rewrite Hsame by exact Hne; exact Hr').
           destruct (Hsome r' c' Hr1') as (Hin & Hout & Hkeep).
           pose proof (long_enough_insert_ne min_length st r r' (cleaned c) Hne) as Hle.
           fold st1 in Hle. rewrite Hle in Hin, Hkeep.
           split; [|split].
           ++ intros [Heq' | Hfr]; [congruence|]. apply Hin, Hfr.
           ++ intros Hnot. apply Hout. intros Hfr. apply Hnot. right. exact Hfr.
           ++ intros [Heq' | Hrest] Hl; [congruence|]. right. apply Hkeep; assumption.
      * intros Hnodup. apply NoDup_cons in Hnodup as [Hnotin Hnodup].
        cbn [List.filter]. rewrite Hlong. f_equal.
        rewrite (Hnd Hnodup). apply filter_ext_in. intros r' Hin.
        apply long_enough_insert_ne. intros ->. apply Hnotin, list_elem_of_In, Hin.
    + destruct (IH st) as (fr & st' & Heq & Hsub & Hj & Hs1 & Hs2 & Hnone & Hsome & Hnd).
      { intros r' Hin. apply Hvalid. right. exact Hin. }
      exists fr, st'.
      split; [exact Heq|]. split; [apply sublist_cons, Hsub|].
      split; [exact Hj|]. split; [exact Hs1|]. split; [exact Hs2|].
      split; [exact Hnone|]. split.
      * intros r' c' Hr'. destruct (Hsome r' c' Hr') as (Hin & Hout & Hkeep).
        split; [exact Hin|]. split; [exact Hout|].
        intros [<- | Hrest] Hl; [congruence|]. apply Hkeep; assumption.
      * intros Hnodup. apply NoDup_cons in Hnodup as [_ Hnodup].
        cbn [List.filter]. rewrite Hlong. apply Hnd, Hnodup.
Qed.

Lemma filter_results_spec_witness :
  let st := state_with (sample_candidate None) in
  (forall r, In r [0%nat] -> is_Some (store st !! r)) /\
  exists filtered st',
    filter_results [0%nat] 5 st = Ret filtered st' /\
    sublist filtered [0%nat] /\
    journal st' = journal st /\
    search_tool_shortener st' = search_tool_shortener st /\
    agent_shortener st' = agent_shortener st /\
    (forall r, store st !! r = None -> store st' !! r = None) /\
    (forall r c, store st !! r = Some c ->
       (In r filtered ->
        store st' !! r = Some (cleaned c) /\ long_enough 5 st r = true) /\
       (~ In r filtered -> store st' !! r = Some c) /\
       (In r [0%nat] -> long_enough 5 st r = true -> In r filtered)) /\
    (NoDup [0%nat] -> filtered = List.filter (long_enough 5 st) [0%nat]).
Proof.
  cbv zeta.
  assert (H : forall r, In r [0%nat] ->
                is_Some (store (state_with (sample_candidate None)) !! r)).
  { intros r [<- | []]. vm_compute. eauto. }
  split; [exact H|].
  exact (filter_results_spec 5 [0%nat] (state_with (sample_candidate None)) H).
Defined.

Section KeywordFacts.

Lemma split_words_from_word word : forall acc rest,
  forallb (fun c => negb (isspace c)) word = true ->
  split_words_from acc (word ++ rest) = split_words_from (rev word ++ acc) rest.
Proof.
  induction word as [|c word IH]; intros acc rest H; [reflexivity|].
  cbn [forallb] in H. apply andb_prop in H as [Hc H].
  apply negb_true_iff in Hc.
  cbn [app split_words_from]. rewrite Hc, IH by exact H.
  cbn [rev]. rewrite <- app_assoc. reflexivity.
Qed.

Lemma is_word_spec word :
  is_word word = true ->
  word <> [] /\ forallb (fun c => negb (isspace c)) word = true.
Proof.
  unfold is_word, str_eqb. intros H. apply andb_prop in H as [Hne H].
  split; [|exact H].
  apply negb_true_iff, bool_decide_eq_false in Hne. exact Hne.
Qed.

Lemma is_word_rev acc :
  acc <> [] -> forallb (fun c => negb (isspace c)) acc = true ->
  is_word (rev acc) = true.
Proof.
  intros Hne H. unfold is_word, str_eqb.
  rewrite (forallb_rev _ _ H), andb_true_r.
  apply negb_true_iff, bool_decide_eq_false.
  intros Hrev. apply Hne. apply (f_equal (@rev N)) in Hrev.
  rewrite rev_involutive in Hrev. exact Hrev.
Qed.

Lemma split_words_from_words s : forall acc,
  forallb (fun c => negb (isspace c)) acc = true ->
  forallb is_word (split_words_from acc s) = true.
Proof.
  induction s as [|c s IH]; intros acc Hacc.
  - cbn [split_words_from]. destruct acc as [|a acc]; [reflexivity|].
    cbn [forallb]. rewrite is_word_rev; [reflexivity|discriminate|exact Hacc].
  - cbn [split_words_from]. destruct (isspace c) eqn:Hc.
    + destruct acc as [|a acc]; [apply IH; reflexivity|].
      cbn [forallb]. rewrite is_word_rev, IH; auto; discriminate.
    + apply IH. cbn [forallb]. rewrite Hc, Hacc. reflexivity.
Qed.

Lemma split_words_join words :
  forallb is_word words = true -> split_words (join [32] words) = words.
Proof.
  unfold split_words. induction words as [|p rest IH]; [reflexivity|].
  cbn [forallb]. intros H. apply andb_prop in H as [Hp Hrest].
  apply is_word_spec in Hp as [Hne Hplain].
  assert (Hrev : rev p ++ [] <> []).
  { rewrite app_nil_r. intros Hrev. apply Hne.
    apply (f_equal (@rev N)) in Hrev. rewrite rev_involutive in Hrev. exact Hrev. }
  destruct rest as [|q rest].
  - cbn [join]. rewrite <- (app_nil_r p) at 1.
    rewrite split_words_from_word by exact Hplain.
    cbn [split_words_from]. destruct (rev p ++ []) eqn:Hacc; [congruence|].
    rewrite <- Hacc, app_nil_r, rev_involutive. reflexivity.
  - change (join [32] (p :: q :: rest)) with (p ++ 32 :: join [32] (q :: rest)).
    rewrite split_words_from_word by exact Hplain.
    cbn [split_words_from].
    change (isspace 32) with true. cbn iota.
    destruct (rev p ++ []) eqn:Hacc; [congruence|].
    rewrite <- Hacc, app_nil_r, rev_involutive, IH by exact Hrest. reflexivity.
Qed.

(** The words that [split] finds are stretches of the text between
    white space: [before] is the text already read, up to the run
    [rev acc] being read. *)
Lemma split_words_from_runs s : forall acc before,
  forallb (fun c => negb (isspace c)) acc = true ->
  (before = [] \/ exists b c, before = b ++ [c] /\ isspace c = true) ->
  Forall (word_of (before ++ rev acc ++ s)) (split_words_from acc s).
Proof.
  assert (Hrev : forall acc : str, acc <> [] -> rev acc <> []).
  { intros acc Hne E. apply Hne. apply (f_equal (@rev N)) in E.
    rewrite rev_involutive in E. exact E. }
  induction s as [|c s IH]; intros acc before Hacc Hbefore.
  - cbn [split_words_from]. destruct acc as [|a acc]; [constructor|].
    constructor; [|constructor]. split.
    + apply is_word_rev; [discriminate|exact Hacc].
    + exists before, []. split; [reflexivity|]. split; [exact Hbefore|now left].
  - cbn [split_words_from]. destruct (isspace c) eqn:Hc.
    + destruct acc as [|a acc].
      * specialize (IH [] (before ++ [c]) eq_refl).
        cbn [rev app] in *. rewrite <- app_assoc in IH. apply IH.
        right. eauto.
      * constructor.
        -- split; [apply is_word_rev; [discriminate|exact Hacc]|].
           exists before, (c :: s). split; [reflexivity|].
           split; [exact Hbefore|right; eauto].
        -- specialize (IH [] (before ++ rev (a :: acc) ++ [c]) eq_refl).
           cbn [rev app] in IH. rewrite <- !app_assoc in IH.
           cbn [rev app]. rewrite <- !app_assoc. cbn [app] in *. apply IH.
           right. exists (before ++ rev acc ++ [a]), c.
           rewrite <- !app_assoc. split; [reflexivity|exact Hc].
    + specialize (IH (c :: acc) before).
      cbn [rev] in IH. rewrite <- app_assoc in IH. apply IH; [|exact Hbefore].
      cbn [forallb]. now rewrite Hc, Hacc.
Qed.

End KeywordFacts.

(** X14. Whatever the query, every keyword that [extract_keywords]
    returns is a word of the query as [str.split()] cuts it: a stretch of
    the query, not empty and without white space, that has the start of
    the query or a white space before it and the end of the query or a
    white space after it; and its lower-case form is none of the stop
    words. *)
Theorem extract_keywords_are_words (lower : str -> str) (query : str) :
  Forall (fun word => word_of query word /\ not_stopword lower word = true)
    (extract_keywords lower query).
Proof.
  unfold extract_keywords, split_words.
  pose proof (split_words_from_runs query [] [] eq_refl (or_introl eq_refl)) as H.
  cbn [rev app] in H.
  apply Forall_forall. intros word Hin.
  apply list_elem_of_In, filter_In in Hin as [Hin Hstop].
  split; [|exact Hstop].
  rewrite Forall_forall in H. apply H, list_elem_of_In, Hin.
Qed.

(** The keywords of a query with leading, doubled and trailing white
    space. *)
Example extract_keywords_example :
  extract_keywords (fun word => word) (py "  python  的 教學 ")
  = [py "python"; py "教學"].
Proof. vm_compute. reflexivity. Qed.

(** X15. For a query made of words separated by one space,
    [extract_keywords] returns exactly the words that are not stop words,
    in their order. *)
Theorem extract_keywords_of_words (lower : str -> str) (words : list str) :
  forallb is_word words = true ->
  extract_keywords lower (join [32] words) = List.filter (not_stopword lower) words.
Proof.
  intros H. unfold extract_keywords. rewrite split_words_join by exact H. reflexivity.
Qed.

Lemma extract_keywords_of_words_witness :
  let words := [py "python"; py "的"; py "教學"] in
  forallb is_word words = true /\
  extract_keywords (fun word => word) (join [32] words)
  = List.filter (not_stopword (fun word => word)) words.
Proof.
  cbv zeta.
  assert (H : forallb is_word [py "python"; py "的"; py "教學"] = true)
    by (vm_compute; reflexivity).
  split; [exact H|].
  exact (extract_keywords_of_words (fun word => word) [py "python"; py "的"; py "教學"] H).
Defined.
(** ** Properties of [tools/summarizer.py]: the fetch of one page *)

Section SummarizerFetch.

Context (w : world) (lib : libraries) (error_text : nat -> str -> str).

Lemma decode_content_summarizer_spec url content_type content st :
  printable url = true ->
  decode_content_summarizer lib url content_type content st =
    match decoded_summarizer lib content_type content with
    | Some html_content => Ret html_content st
    | None =>
        Raise (match encoder lib (charset_of content_type) with
               | EncoderFound =>
                   match decode lib (charset_of content_type) content with
                   | RaisedUnicodeDecodeError => UnicodeEncodeError
                   | _ => OtherException
                   end
               | EncoderLookupError => UnicodeEncodeError
               | EncoderRaisedOther => OtherException
               end) st
    end.
Proof.
  intros Hurl.
  assert (P1 : forall cs,
    printable (py "從 " ++ url ++ py " 獲取到無效的charset: " ++ cs) = printable cs).
  { intros cs. rewrite printable_label by reflexivity.
    rewrite printable_app, Hurl. cbn [andb]. now rewrite printable_label. }
  assert (P2 : forall cs,
    printable (py "從 " ++ url ++ py " 解碼內容時發生錯誤 (Charset: " ++ cs) = printable cs).
  { intros cs. rewrite printable_label by reflexivity.
    rewrite printable_app, Hurl. cbn [andb]. now rewrite printable_label. }
  unfold decode_content_summarizer, decoded_summarizer, mbind, M_bind.
  destruct (str_in (py "charset=") content_type); [|reflexivity].
  destruct (encoder lib (charset_of content_type)).
  - unfold mret at 1, M_ret at 1.
    destruct (charset_of content_type) as [|c cs]; [reflexivity|].
    destruct (decode lib (c :: cs) content); try reflexivity.
    unfold print_. rewrite P2. destruct (printable (c :: cs)); reflexivity.
  - unfold print_. rewrite P1.
    destruct (printable (charset_of content_type)); reflexivity.
  - reflexivity.
Qed.

(** One turn of the loop, from the answer of the site. *)
Lemma extract_attempt_spec url retry_count st :
  printable url = true ->
  let r := site w (length (journal st)) url in
  extract_attempt w lib error_text url retry_count st =
    if failing lib r then
      if summarizer_max_retries <=? retry_count + 1 then
        Ret (Give (extracted lib error_text (length (journal st)) url r))
          (logged_all [PageGet url] st)
      else Ret (Retry (retry_count + 1)) (logged_all [PageGet url; Sleep 1] st)
    else
      match r with
      | Response _ content_type content =>
          match decoded_summarizer lib content_type content with
          | Some html_content =>
              Ret (Break html_content) (logged_all [PageGet url] st)
          | None => Ret (Give None) (logged_all [PageGet url] st)
          end
      | _ => Ret (Give None) (logged_all [PageGet url] st)
      end.
Proof.
  intros Hurl.
  assert (P0 : forall s, print_ (py "從 " ++ url) s = Ret tt s).
  { intros s. apply print_ok. now rewrite printable_label. }
  unfold extract_attempt, try_fetch, try_except, client_get, sleep, failing,
    extracted, logged_all.
  unfold mbind, M_bind, get_state, log. cbn [journal state_of].
  destruct (site w (length (journal st)) url) as [| |status ct body];
    cbn [raise find fst snd is_HTTPError is_Exception mret M_ret].
  - rewrite P0.
    destruct (summarizer_max_retries <=? retry_count + 1).
    + rewrite P0. reflexivity.
    + cbn. now rewrite <- app_assoc.
  - rewrite P0. reflexivity.
  - unfold mret at 1, M_ret at 1.
    destruct (raises_for_status lib status).
    + unfold mret at 1, M_ret at 1. rewrite P0.
      destruct (summarizer_max_retries <=? retry_count + 1).
      * rewrite P0. reflexivity.
      * cbn. now rewrite <- app_assoc.
    + rewrite decode_content_summarizer_spec by exact Hurl.
      destruct (decoded_summarizer lib ct body); [reflexivity|].
      destruct (encoder lib (charset_of ct));
        [destruct (decode lib (charset_of ct) body)| |];
        cbn [find fst snd is_HTTPError is_Exception mret M_ret];
        rewrite P0; reflexivity.
Qed.

Lemma extract_attempts_step fuel url retry_count st :
  printable url = true ->
  extract_attempts w lib error_text (S fuel) url retry_count st =
    if retry_count <? summarizer_max_retries then
      let r := site w (length (journal st)) url in
      if failing lib r && negb (summarizer_max_retries <=? retry_count + 1) then
        extract_attempts w lib error_text fuel url (retry_count + 1)
          (logged_all [PageGet url; Sleep 1] st)
      else
        Ret (extracted lib error_text (length (journal st)) url r)
          (logged_all [PageGet url] st)
    else Ret None st.
Proof.
  intros Hurl. cbn [extract_attempts].
  destruct (retry_count <? summarizer_max_retries).
  2:{ unfold mbind, M_bind. rewrite print_ok; [reflexivity|].
      now rewrite printable_label. }
  unfold mbind, M_bind. rewrite extract_attempt_spec by exact Hurl. cbv zeta.
  unfold failing, extracted.
  destruct (site w (length (journal st)) url) as [| |status ct body];
    cbn [andb negb]; try reflexivity.
  - destruct (summarizer_max_retries <=? retry_count + 1); reflexivity.
  - destruct (raises_for_status lib status).
    + destruct (summarizer_max_retries <=? retry_count + 1); reflexivity.
    + cbn [andb]. destruct (decoded_summarizer lib ct body); reflexivity.
Qed.

(** The whole loop, from the answers of the site. *)
Lemma extract_attempts_spec url st :
  printable url = true ->
  let answer j := site w (length (journal st) + 2 * j) url in
  exists k, (k <= 2)%nat /\
    (forall j, (j < k)%nat -> failing lib (answer j) = true) /\
    ((k < 2)%nat -> failing lib (answer k) = false) /\
    _extract_content_from_url w lib error_text url st =
      Ret (extracted lib error_text (length (journal st) + 2 * k) url (answer k))
        (logged_all (attempts_trace url k) st).
Proof.
  intros Hurl answer. unfold _extract_content_from_url.
  assert (L0 : (length (journal st) + 2 * 0)%nat = length (journal st)) by lia.
  assert (L1 : length (journal (logged_all [PageGet url; Sleep 1] st))
               = (length (journal st) + 2 * 1)%nat).
  { rewrite journal_logged_all, length_app. reflexivity. }
  assert (L2 : length (journal (logged_all [PageGet url; Sleep 1]
                 (logged_all [PageGet url; Sleep 1] st)))
               = (length (journal st) + 2 * 2)%nat).
  { rewrite !journal_logged_all, !length_app. simpl. lia. }
  assert (A0 : site w (length (journal st)) url = answer 0%nat)
    by (unfold answer; rewrite L0; reflexivity).
  rewrite extract_attempts_step by exact Hurl.
  change (0 <? summarizer_max_retries) with true.
  cbv iota zeta. change (summarizer_max_retries <=? 0 + 1) with false.
  cbn [negb]. rewrite andb_true_r, A0.
  destruct (failing lib (answer 0%nat)) eqn:F0.
  2:{ exists 0%nat. rewrite L0. repeat split; [lia|intros; lia|auto]. }
  rewrite extract_attempts_step by exact Hurl.
  change (0 + 1 <? summarizer_max_retries) with true.
  cbv iota zeta. change (summarizer_max_retries <=? 0 + 1 + 1) with false.
  cbn [negb]. rewrite andb_true_r, L1. fold (answer 1%nat).
  destruct (failing lib (answer 1%nat)) eqn:F1.
  2:{ exists 1%nat. repeat split; [lia| |auto|].
      - intros j Hj. assert (j = 0%nat) as -> by lia. exact F0.
      - now rewrite logged_all_app. }
  rewrite extract_attempts_step by exact Hurl.
  change (0 + 1 + 1 <? summarizer_max_retries) with true.
  cbv iota zeta. change (summarizer_max_retries <=? 0 + 1 + 1 + 1) with true.
  cbn [negb]. rewrite andb_false_r, L2. fold (answer 2%nat).
  exists 2%nat. repeat split; [lia| |intros; lia|].
  - intros j Hj. destruct j as [|[|j]]; [exact F0|exact F1|lia].
  - rewrite !logged_all_app. reflexivity.
Qed.

(** A failed request for a URL that [print] cannot show. *)
Lemma extract_unprintable url st :
  printable url = false ->
  failing lib (site w (length (journal st)) url) = true ->
  _extract_content_from_url w lib error_text url st
  = Raise UnicodeEncodeError (logged_all [PageGet url] st).
Proof.
  intros Hurl Hfail.
  assert (P0 : forall s, print_ (py "從 " ++ url) s = Raise UnicodeEncodeError s).
  { intros s. apply print_fails. now rewrite printable_label. }
  unfold _extract_content_from_url. cbn [extract_attempts].
  change (0 <? summarizer_max_retries) with true. cbv iota.
  unfold extract_attempt, try_fetch, try_except, client_get, failing, logged_all in *.
  unfold mbind, M_bind, get_state, log. cbn [journal state_of].
  destruct (site w (length (journal st)) url) as [| |status ct body];
    cbn [raise find fst snd is_HTTPError is_Exception mret M_ret];
    [rewrite P0; reflexivity|discriminate|].
  unfold mret at 1, M_ret at 1. rewrite Hfail.
  unfold mret at 1, M_ret at 1. rewrite P0. reflexivity.
Qed.

Lemma failing_retryable r : failing lib r = true -> retryable lib r = true.
Proof.
  destruct r as [| |status ct body]; cbn; auto.
  intros ->. apply orb_true_r.
Qed.

End SummarizerFetch.

(** X16. For a URL that [print] can show, [_extract_content_from_url] of
    the summarizer makes [k + 1 <= 3] requests for the URL and sleeps one
    second before each request but the first; a request is followed by
    another one exactly when fewer than three were made and it raised an
    [httpx.RequestError] or [raise_for_status] rejected its status. The
    call does not raise. After a third failure it returns a message that
    ends with the rejected status or with the text of the request error.
    When the status of the last request is accepted it returns the cleaned
    page, unless the [try] block ends with an unexpected exception, from
    [''.encode(charset)], from the codec of the declared character set or
    from a print of that character set; it returns [None] exactly then,
    and when the request itself raised another exception. *)
Theorem extract_content_retries (w : world) (lib : libraries)
    (error_text : nat -> str -> str) (url : str) (st : state) :
  printable url = true ->
  let answer j := site w (length (journal st) + 2 * j) url in
  exists k, (k <= 2)%nat /\
    (forall j, (j < k)%nat -> failing lib (answer j) = true) /\
    ((k < 2)%nat -> failing lib (answer k) = false) /\
    _extract_content_from_url w lib error_text url st =
      Ret (extracted lib error_text (length (journal st) + 2 * k) url (answer k))
        (logged_all (attempts_trace url k) st) /\
    length (page_gets (attempts_trace url k)) = S k /\
    (extracted lib error_text (length (journal st) + 2 * k) url (answer k) = None <->
     answer k = RaisedOther \/
     exists status_code content_type content,
       answer k = Response status_code content_type content /\
       raises_for_status lib status_code = false /\
       decoded_summarizer lib content_type content = None).
Proof.
  intros Hurl answer.
  destruct (extract_attempts_spec w lib error_text url st Hurl)
    as (k & Hk & Hbefore & Hlast & Heq).
  exists k. split; [exact Hk|]. split; [exact Hbefore|]. split; [exact Hlast|].
  split; [exact Heq|]. split; [apply attempts_trace_fetch|].
  fold (answer k). unfold extracted.
  destruct (answer k) as [| |status ct body].
  - split; [discriminate|]. intros [H|(s & c & b & H & _)]; discriminate.
  - split; auto.
  - destruct (raises_for_status lib status) eqn:Hs.
    + split; [discriminate|].
      intros [H|(s & c & b & H & Hs' & _)]; [discriminate|].
      injection H as <- <- <-. congruence.
    + destruct (decoded_summarizer lib ct body) eqn:Hd; cbn [option_map].
      * split; [discriminate|].
        intros [H|(s & c & b & H & _ & Hd')]; [discriminate|].
        injection H as <- <- <-. congruence.
      * split; [|reflexivity]. intros _. right. eauto 6.
Qed.

Lemma extract_content_retries_witness :
  let w := undefined_charset_world in
  let lib := codec_libraries in
  let url := py "https://example.com/a" in
  let st := initial_state in
  let answer j := site w (length (journal st) + 2 * j) url in
  _extract_content_from_url w lib (fun _ _ => []) url st
    = Ret None (logged_all [PageGet url] st) /\
  exists k, (k <= 2)%nat /\
    (forall j, (j < k)%nat -> failing lib (answer j) = true) /\
    ((k < 2)%nat -> failing lib (answer k) = false) /\
    _extract_content_from_url w lib (fun _ _ => []) url st =
      Ret (extracted lib (fun _ _ => []) (length (journal st) + 2 * k) url (answer k))
        (logged_all (attempts_trace url k) st) /\
    length (page_gets (attempts_trace url k)) = S k /\
    (extracted lib (fun _ _ => []) (length (journal st) + 2 * k) url (answer k) = None <->
     answer k = RaisedOther \/
     exists status_code content_type content,
       answer k = Response status_code content_type content /\
       raises_for_status lib status_code = false /\
       decoded_summarizer lib content_type content = None).
Proof.
  cbv zeta. split; [vm_compute; reflexivity|].
  exact (extract_content_retries undefined_charset_world codec_libraries (fun _ _ => [])
           (py "https://example.com/a") initial_state eq_refl).
Defined.



(** For a URL that [print] cannot show (a lone surrogate), the messages
    of the failed requests cannot be printed either, and both fetchers
    raise [UnicodeEncodeError]: the summarizer at its first failure, the
    search tool after its third. *)
Example fetchers_raise_on_unprintable_url :
  let url := py "https://example.com/" ++ [55296] in
  printable url = false /\
  _extract_content_from_url missing_page_world plain_libraries (fun _ _ => []) url
    initial_state
  = Raise UnicodeEncodeError (logged_all [PageGet url] initial_state) /\
  get_page_content missing_page_world plain_libraries url initial_state
  = Raise UnicodeEncodeError (logged_all (attempts_trace url 2) initial_state).
Proof. vm_compute. repeat split; reflexivity. Qed.

(** ** Further properties of [tools/agent.py] *)

Section AgentCalls.

Context (w : world) (lib : libraries).

Lemma pipeline_of_shortening ev : is_TinyUrlGet ev = true -> is_pipeline_call ev = true.
Proof. unfold is_pipeline_call. intros ->. reflexivity. Qed.

Lemma pipeline_of_fetch ev : is_fetch ev = true -> is_pipeline_call ev = true.
Proof.
  unfold is_pipeline_call. intros ->. destruct (is_TinyUrlGet ev); reflexivity.
Qed.

Lemma shorten_pipeline o u : preserves (grows is_pipeline_call) (shorten w o u).
Proof.
  eapply preserves_weaken; [|apply shorten_grows].
  intros st st'. apply grows_weaken, pipeline_of_shortening.
Qed.

Lemma enrich_pipeline results :
  preserves (grows is_pipeline_call) (_enrich_search_results w lib results).
Proof.
  intros st. unfold _enrich_search_results. unfold mbind, M_bind.
  destruct (enrich_calls w lib (firstn max_urls_to_crawl results) st)
    as (evs & Hj & Hf & _).
  exists evs. split.
  - destruct (for_each (enrich_one w lib) _ st); exact Hj.
  - eapply forallb_impl; [apply pipeline_of_fetch | exact Hf].
Qed.

Lemma search_pipeline q n sort deep st :
  exists evs,
    journal (state_of (search w lib q n sort deep st))
      = journal st ++ GoogleGet q (Z.min n 10) sort :: evs /\
    forallb is_pipeline_call evs = true.
Proof.
  set (rest := fun search_results : option (list item) =>
                 match search_results with
                 | None => mret []
                 | Some items =>
                     formatted_results ← for_each (format_item w) items;
                     if deep then _enrich_search_results w lib formatted_results
                     else mret formatted_results
                 end).
  assert (Hsearch : search w lib q n sort deep
                    = try_except (search_get w lib q (Z.min n 10) sort ≫= rest)
                        [(is_HTTPError, fun _ => mret [])])
    by reflexivity.
  assert (Hrest : forall items, preserves (grows is_pipeline_call) (rest items)).
  { intros [items|]; subst rest; cbv beta iota; [|apply preserves_ret, grows_refl].
    apply preserves_bind; [apply grows_trans| |].
    - apply preserves_for_each; [apply grows_refl | apply grows_trans |].
      intros it _. eapply preserves_weaken; [|apply format_item_grows].
      intros a b. apply grows_weaken, pipeline_of_shortening.
    - intros refs. destruct deep; [apply enrich_pipeline|].
      apply preserves_ret, grows_refl. }
  assert (Hstart : forall st1 : state,
             journal st1 = journal st ++ [GoogleGet q (Z.min n 10) sort] ->
             exists evs,
               journal st1 = journal st ++ GoogleGet q (Z.min n 10) sort :: evs /\
               forallb is_pipeline_call evs = true).
  { intros st1 H. exists []. split; [exact H | reflexivity]. }
  rewrite Hsearch. clearbody rest. unfold try_except, mbind, M_bind.
  rewrite search_get_spec. cbv zeta.
  destruct (google w (length (journal st)) q (Z.min n 10) sort) as [| |status items];
    [apply Hstart; reflexivity | apply Hstart; reflexivity |].
  destruct (raises_for_status lib status); [apply Hstart; reflexivity|].
  destruct (Hrest items (logged (GoogleGet q (Z.min n 10) sort) st)) as (evs & Hj & Hf).
  exists evs. split; [|exact Hf].
  cbn [journal logged] in Hj. rewrite <- app_assoc in Hj. cbn [app] in Hj.
  rewrite <- Hj.
  destruct (rest items (logged (GoogleGet q (Z.min n 10) sort) st)) as [refs st2|e st2];
    [reflexivity|].
  cbn [find fst]. destruct (is_HTTPError e); reflexivity.
Qed.

Lemma ensure_short_link_pipeline r :
  preserves (grows is_pipeline_call) (ensure_short_link w r).
Proof.
  unfold ensure_short_link.
  apply preserves_bind; [apply grows_trans | apply read_grows |].
  intros c. destruct (short_link c) as [[|ch rest]|];
    try (apply preserves_ret, grows_refl).
  all: apply preserves_bind; [apply grows_trans | apply shorten_pipeline |];
    intros v; apply preserves_bind; [apply grows_trans | apply write_grows |];
    intros _; apply preserves_ret, grows_refl.
Qed.

Lemma build_context_pipeline l : forall i url_map context,
  preserves (grows is_pipeline_call) (build_context w i l url_map context).
Proof.
  induction l as [|r l IH]; intros i url_map context; cbn [build_context].
  - apply preserves_ret, grows_refl.
  - apply preserves_bind; [apply grows_trans | apply ensure_short_link_pipeline |].
    intros [c short_url]. apply IH.
Qed.

Lemma rewrite_urls_pipeline url_map urls : forall report,
  preserves (grows is_pipeline_call) (rewrite_urls w url_map urls report).
Proof.
  induction urls as [|url urls IH]; intros report; cbn [rewrite_urls].
  - apply preserves_ret, grows_refl.
  - apply preserves_bind; [apply grows_trans | | intros report'; apply IH].
    unfold rewrite_url.
    destruct (url_map !! url); [apply preserves_ret, grows_refl|].
    destruct (is_short_url url_map url); [apply preserves_ret, grows_refl|].
    apply preserves_try_except; [apply grows_trans | |].
    + apply preserves_bind; [apply grows_trans | apply shorten_pipeline |].
      intros v. apply preserves_ret, grows_refl.
    + intros cl e [<- | []]. apply preserves_ret, grows_refl.
Qed.

Lemma report_pipeline refs :
  preserves (grows is_pipeline_call) (_generate_comprehensive_report w refs).
Proof.
  unfold _generate_comprehensive_report.
  apply preserves_bind; [apply grows_trans | apply build_context_pipeline |].
  intros [url_map context].
  apply preserves_try_except; [apply grows_trans | |].
  - apply preserves_bind; [apply grows_trans | |].
    + intros st. unfold report_completion. unfold_M.
      exists [ReportCompletion context]. split; [|reflexivity].
      destruct (reporter w (length (journal st)) context); reflexivity.
    + intros report. apply rewrite_urls_pipeline.
  - intros cl e [<- | []]. cbn [snd]. unfold basic_report.
    apply preserves_bind; [apply grows_trans | |].
    + apply preserves_for_each; [apply grows_refl | apply grows_trans |].
      intros r _. unfold basic_line.
      apply preserves_bind; [apply grows_trans | apply read_grows |].
      intros c. apply preserves_ret, grows_refl.
    + intros lines. apply preserves_ret, grows_refl.
Qed.

Lemma process_query_unfold user_query st :
  process_query w lib user_query st =
    let a := analysis_of w user_query st in
    let st1 := logged (AnalysisCompletion user_query) st in
    match search_query a with
    | None => Raise KeyError st1
    | Some sq =>
        if printable sq then
          (search_results ←
             search_for w lib sq (default (IntValue 5) (max_results a));
           match search_results with
           | [] => mret (no_results_response user_query sq)
           | _ :: _ =>
               report ← _generate_comprehensive_report w search_results;
               mret (Response_ (py "search_and_report") user_query sq report
                       (Some search_results) [py "search"; py "analyze"])
           end) st1
        else Raise UnicodeEncodeError st1
    end.
Proof.
  assert (Hprint : forall sq,
    printable (py "使用查詢關鍵字: '" ++ sq ++ py "'") = printable sq).
  { intros sq. rewrite printable_label by reflexivity.
    now rewrite printable_tail. }
  unfold process_query, _analyze_query, analysis_of, no_results_response.
  unfold mbind, M_bind, get_state, log, logged, print_. cbn [journal state_of].
  cbv zeta.
  destruct (analyst w (length (journal st)) user_query) as [a|];
    unfold mret at 1, M_ret at 1; cbn [search_query max_results].
  - destruct (search_query a) as [sq|]; [|reflexivity].
    rewrite Hprint. destruct (printable sq); reflexivity.
  - rewrite Hprint. destruct (printable user_query); reflexivity.
Qed.

End AgentCalls.

(** X18. When the analysis that the completion model returns parses but
    lacks the key [search_query], [process_query] raises [KeyError] right
    after the analysis request: no search request is made and no answer is
    returned. *)
Theorem process_query_without_search_query (w : world) (lib : libraries)
    (user_query : str) (st : state) (a : analysis) :
  analyst w (length (journal st)) user_query = Some a ->
  search_query a = None ->
  process_query w lib user_query st
  = Raise KeyError (logged (AnalysisCompletion user_query) st).
Proof.
  intros Ha Hq. rewrite process_query_unfold. cbv zeta.
  unfold analysis_of. rewrite Ha, Hq. reflexivity.
Qed.

Lemma process_query_without_search_query_witness :
  analyst keyless_world (length (journal initial_state)) (py "test")
    = Some (Analysis None (Some (IntValue 3))) /\
  search_query (Analysis None (Some (IntValue 3))) = None /\
  process_query keyless_world plain_libraries (py "test") initial_state
  = Raise KeyError (logged (AnalysisCompletion (py "test")) initial_state).
Proof.
  split; [reflexivity|]. split; [reflexivity|].
  exact (process_query_without_search_query keyless_world plain_libraries (py "test")
           initial_state (Analysis None (Some (IntValue 3))) eq_refl eq_refl).
Defined.

(** X19. A run of [process_query] whose analysis holds a search query
    makes the analysis request first. If [print] cannot show the search
    query (line 50), the run ends there with [UnicodeEncodeError]. If the
    analysis holds under [max_results] a value that [min] cannot compare
    with 10 (null, a string), the run ends there with [TypeError], before
    any search request. Otherwise, however the run ends, its next call is
    one request to the search index for that query, sorted by date,
    asking for [min(max_results, 10)] results, with 5 for a missing
    [max_results]; then come only shortening requests, page requests with
    their pauses, and report requests. When the analysis request fails or
    its answer does not parse, the search query is the user's query and 5
    results are asked for. *)
Theorem process_query_calls (w : world) (lib : libraries) (user_query : str)
    (st : state) (sq : str) :
  let a := analysis_of w user_query st in
  let st1 := logged (AnalysisCompletion user_query) st in
  search_query a = Some sq ->
  (printable sq = false ->
   process_query w lib user_query st = Raise UnicodeEncodeError st1) /\
  (printable sq = true ->
   default (IntValue 5) (max_results a) = Incomparable ->
   process_query w lib user_query st = Raise OtherException st1) /\
  (printable sq = true ->
   forall n, default (IntValue 5) (max_results a) = IntValue n ->
   exists evs,
     journal (state_of (process_query w lib user_query st))
       = journal st ++
         AnalysisCompletion user_query :: GoogleGet sq (Z.min n 10) true :: evs /\
     forallb is_pipeline_call evs = true) /\
  (analyst w (length (journal st)) user_query = None ->
   sq = user_query /\ default (IntValue 5) (max_results a) = IntValue 5).
Proof.
  intros a st1 Hq. split; [|split; [|split]].
  - intros Hp. rewrite process_query_unfold. cbv zeta. fold a. rewrite Hq, Hp.
    reflexivity.
  - intros Hp Hm. rewrite process_query_unfold. cbv zeta. fold a.
    rewrite Hq, Hp, Hm. reflexivity.
  - intros Hp n Hm. rewrite process_query_unfold. cbv zeta. fold a.
    rewrite Hq, Hp, Hm. fold st1. cbn [search_for].
    destruct (search_pipeline w lib sq n true true st1) as (e1 & H1 & F1).
    assert (Hst1 : journal st1 = journal st ++ [AnalysisCompletion user_query])
      by reflexivity.
    unfold mbind, M_bind at 1. cbn [search_for].
    destruct (search w lib sq n true true st1) as [[|r refs] st2|e st2];
      cbn [state_of] in H1.
    + exists e1. split; [|exact F1].
      cbn [state_of mret M_ret]. rewrite H1, Hst1, <- app_assoc. reflexivity.
    + destruct (report_pipeline w (r :: refs) st2) as (e2 & H2 & F2).
      exists (e1 ++ e2). split; [|rewrite forallb_app, F1, F2; reflexivity].
      unfold mbind, M_bind at 1.
      destruct (_generate_comprehensive_report w (r :: refs) st2) as [report st3|e st3];
        cbn [state_of mret M_ret] in *;
        rewrite H2, H1, Hst1, <- !app_assoc; reflexivity.
    + exists e1. split; [|exact F1].
      cbn [state_of]. rewrite H1, Hst1, <- app_assoc. reflexivity.
  - intros Hnone. subst a. unfold analysis_of in *. rewrite Hnone in *.
    cbn in Hq. injection Hq as <-. split; reflexivity.
Qed.

Lemma process_query_calls_witness :
  let w := offline_world (Some two_items) in
  let a := analysis_of w (py "test") initial_state in
  let st1 := logged (AnalysisCompletion (py "test")) initial_state in
  search_query a = Some (py "test") /\
  (printable (py "test") = false ->
   process_query w plain_libraries (py "test") initial_state
   = Raise UnicodeEncodeError st1) /\
  (printable (py "test") = true ->
   default (IntValue 5) (max_results a) = Incomparable ->
   process_query w plain_libraries (py "test") initial_state
   = Raise OtherException st1) /\
  (printable (py "test") = true ->
   forall n, default (IntValue 5) (max_results a) = IntValue n ->
   exists evs,
     journal (state_of (process_query w plain_libraries (py "test") initial_state))
       = journal initial_state ++
         AnalysisCompletion (py "test") :: GoogleGet (py "test") (Z.min n 10) true :: evs /\
     forallb is_pipeline_call evs = true) /\
  (analyst w (length (journal initial_state)) (py "test") = None ->
   py "test" = py "test" /\ default (IntValue 5) (max_results a) = IntValue 5).
Proof.
  cbv zeta. split; [reflexivity|].
  exact (process_query_calls (offline_world (Some two_items)) plain_libraries (py "test")
           initial_state (py "test") eq_refl).
Defined.

(** An analysis whose [max_results] is null: [min(None, 10)] raises
    [TypeError] (line 42 of search.py) before the search request is made;
    and a search query with a lone surrogate stops the run at the print of
    line 50. *)
Example process_query_stops_before_search :
  let null_world :=
    World (fun _ _ => RaisedHTTPError) (fun _ _ _ _ => SearchJson 200 None)
      (fun _ _ => RaisedHTTPError)
      (fun _ _ => Some (Analysis (Some (py "test")) (Some Incomparable)))
      (fun _ _ => None) in
  let surrogate_world :=
    World (fun _ _ => RaisedHTTPError) (fun _ _ _ _ => SearchJson 200 None)
      (fun _ _ => RaisedHTTPError)
      (fun _ _ => Some (Analysis (Some [55296]) (Some (IntValue 3))))
      (fun _ _ => None) in
  let st1 := logged (AnalysisCompletion (py "test")) initial_state in
  process_query null_world plain_libraries (py "test") initial_state
    = Raise OtherException st1 /\
  process_query surrogate_world plain_libraries (py "test") initial_state
    = Raise UnicodeEncodeError st1.
Proof. vm_compute. split; reflexivity. Qed.

Section ReportFacts.

Context (w : world).

Lemma ensure_short_link_present r c st :
  store st !! r = Some c -> nonempty (short_link c) ->
  ensure_short_link w r st = Ret (c, default [] (short_link c)) st.
Proof.
  intros Hc Hs. unfold ensure_short_link, read. unfold_M. rewrite Hc.
  destruct (short_link c) as [[|ch rest]|]; try destruct Hs. reflexivity.
Qed.

Lemma build_context_spec st refs : forall cs i url_map context,
  results_with_short_links st refs cs ->
  exists url_map',
    build_context w i refs url_map context st
    = Ret (url_map',
           context ++
           concat (imap (fun j c => source_block (i + j) c (default [] (short_link c)))
                     cs)) st /\
    (forall u, is_Some (url_map !! u) -> is_Some (url_map' !! u)) /\
    (forall c, In c cs -> is_Some (url_map' !! link c)) /\
    (forall u v, url_map' !! u = Some v ->
       url_map !! u = Some v \/
       exists c, In c cs /\ link c = u /\ short_link c = Some v /\ v <> []).
Proof.
  induction refs as [|r refs IH]; intros cs i url_map context Hall;
    inversion Hall as [|r' c refs' cs' [Hc Hs] Hrest]; subst.
  - exists url_map. cbn. rewrite app_nil_r. repeat split; auto. intros c [].
  - cbn [build_context]. unfold mbind, M_bind at 1.
    rewrite (ensure_short_link_present r c st Hc Hs).
    destruct (IH cs' (S i) (<[link c := default [] (short_link c)]> url_map)
                (context ++ source_block i c (default [] (short_link c))) Hrest)
      as (m & Heq & Hkeep & Hkeys & Hvals).
    exists m. split; [|split; [|split]].
    + rewrite Heq. rewrite imap_cons. cbn [concat].
      rewrite Nat.add_0_r, <- app_assoc.
      rewrite (imap_ext
                 ((fun j c => source_block (i + j) c (default [] (short_link c))) ∘ S)
                 (fun j c => source_block (S i + j) c (default [] (short_link c)))
                 cs'); [reflexivity|].
      intros j x _. unfold compose.
      replace (i + S j)%nat with (S i + j)%nat by lia. reflexivity.
    + intros u Hu. apply Hkeep.
      destruct (decide (link c = u)) as [<- | Hne].
      * rewrite lookup_insert_eq. eauto.
      * rewrite lookup_insert_ne by exact Hne. exact Hu.
    + intros c' [<- | Hin]; [|apply Hkeys, Hin].
      apply Hkeep. rewrite lookup_insert_eq. eauto.
    + intros u v Hv. destruct (Hvals u v Hv) as [Hin | (c' & Hin & Hl & Hsl & Hne)].
      * destruct (decide (link c = u)) as [<- | Hne].
        -- rewrite lookup_insert_eq in Hin. injection Hin as <-.
           right. exists c. split; [left; reflexivity|].
           destruct (short_link c) as [[|ch rest]|]; try destruct Hs.
           repeat split. discriminate.
        -- rewrite lookup_insert_ne in Hin by exact Hne. left. exact Hin.
      * right. exists c'. split; [right; exact Hin|]. auto.
Qed.

Lemma report_completion_fails context st :
  reporter w (length (journal st)) context = None ->
  report_completion w context st
  = Raise OtherException (logged (ReportCompletion context) st).
Proof.
  intros H. unfold report_completion. unfold_M. rewrite H. reflexivity.
Qed.

Lemma basic_lines st refs : forall cs,
  Forall2 (fun r c => store st !! r = Some c) refs cs ->
  for_each basic_line refs st = Ret (map basic_line_of cs) st.
Proof.
  induction refs as [|r refs IH]; intros cs Hall;
    inversion Hall as [|r' c refs' cs' Hc Hrest]; subst; [reflexivity|].
  cbn [for_each map]. unfold mbind, M_bind at 1.
  unfold basic_line at 1. unfold read at 1. unfold_M. rewrite Hc.
  rewrite (IH cs' Hrest). reflexivity.
Qed.

Lemma rewrite_urls_effects url_map urls : forall report st,
  exists final st',
    rewrite_urls w url_map urls report st = Ret final st' /\
    store st' = store st /\
    search_tool_shortener st' = search_tool_shortener st /\
    exists evs, journal st' = journal st ++ evs /\
                Forall (shortens_new_url url_map urls) evs.
Proof.
  induction urls as [|url urls IH]; intros report st.
  - exists report, st. repeat split; auto. exists []. rewrite app_nil_r. auto.
  - cbn [rewrite_urls]. unfold mbind, M_bind at 1.
    assert (Hwiden : forall evs,
               Forall (shortens_new_url url_map urls) evs ->
               Forall (shortens_new_url url_map (url :: urls)) evs).
    { intros evs Hevs. eapply Forall_impl; [exact Hevs|].
      intros ev (u & -> & Hin & H1 & H2).
      exists u. repeat split; auto. right. exact Hin. }
    assert (Hone : exists report1 st1,
               rewrite_url w url_map report url st = Ret report1 st1 /\
               store st1 = store st /\
               search_tool_shortener st1 = search_tool_shortener st /\
               exists evs, journal st1 = journal st ++ evs /\
                           Forall (shortens_new_url url_map (url :: urls)) evs).
    { assert (Hnil : forall r : str, exists report1 st1,
                 Ret r st = Ret report1 st1 /\
                 store st1 = store st /\
                 search_tool_shortener st1 = search_tool_shortener st /\
                 exists evs, journal st1 = journal st ++ evs /\
                             Forall (shortens_new_url url_map (url :: urls)) evs).
      { intros r. exists r, st. repeat split; auto.
        exists []. rewrite app_nil_r. auto. }
      unfold rewrite_url.
      destruct (url_map !! url) as [short|] eqn:Hkey; [apply Hnil|].
      destruct (is_short_url url_map url) eqn:Hval; [apply Hnil|].
      assert (Hev : shortens_new_url url_map (url :: urls) (TinyUrlGet url)).
      { exists url. repeat split; auto. left. reflexivity. }
      unfold try_except. unfold mbind, M_bind.
      destruct (shorten_cases w Agent url st)
        as [(v & _ & ->) | (_ & st1 & Hst1 & [(v & _ & -> & _) | (_ & ->)])].
      - apply Hnil.
      - eexists _, _. split; [reflexivity|].
        destruct Hst1 as [-> | ->]; cbn; repeat split.
        + exists []. rewrite app_nil_r. auto.
        + exists [TinyUrlGet url]. auto.
      - cbn [find fst snd]. eexists _, _. split; [reflexivity|].
        destruct Hst1 as [-> | ->]; cbn; repeat split.
        + exists []. rewrite app_nil_r. auto.
        + exists [TinyUrlGet url]. auto. }
    destruct Hone as (report1 & st1 & -> & Hs1 & Hc1 & e1 & Hj1 & Hf1).
    destruct (IH report1 st1) as (final & st' & -> & Hs2 & Hc2 & e2 & Hj2 & Hf2).
    exists final, st'. split; [reflexivity|].
    split; [congruence|]. split; [congruence|].
    exists (e1 ++ e2). split; [rewrite Hj2, Hj1, app_assoc; reflexivity|].
    apply Forall_app. split; [exact Hf1 | apply Hwiden, Hf2].
Qed.

Lemma url_parts_shaped u : url_parts u -> url_shaped u.
Proof.
  intros (prefix & b & body & Hprefix & -> & Hchars).
  unfold url_shaped, match_url.
  destruct Hprefix as [-> | ->].
  - change (startswith scheme_https (scheme_http ++ b :: body)) with false.
    cbv iota. rewrite startswith_app.
    rewrite skipn_app, Nat.sub_diag, skipn_all. cbn [app skipn].
    rewrite take_while_all by exact Hchars. reflexivity.
  - rewrite startswith_app.
    rewrite skipn_app, Nat.sub_diag, skipn_all. cbn [app skipn].
    rewrite take_while_all by exact Hchars. reflexivity.
Qed.

Lemma str_in_middle u b : forall a, str_in u (a ++ u ++ b) = true.
Proof.
  induction a as [|c a IH].
  - cbn [app]. apply startswith_str_in. apply (startswith_app u b).
  - cbn [app]. rewrite str_in_cons, IH. apply orb_true_r.
Qed.

Lemma findall_from_matches s : forall skip,
  Forall (fun u => url_shaped u /\ exists a b, s = a ++ u ++ b) (findall_from skip s).
Proof.
  induction s as [|c s IH]; intros skip; [constructor|].
  assert (Hshift : forall l : list str,
             Forall (fun u => url_shaped u /\ exists a b, s = a ++ u ++ b) l ->
             Forall (fun u => url_shaped u /\ exists a b, c :: s = a ++ u ++ b) l).
  { intros l Hl. eapply Forall_impl; [exact Hl|]. intros u (Hu & a & b & ->).
    split; [exact Hu|]. exists (c :: a), b. reflexivity. }
  cbn [findall_from]. destruct skip; [|apply Hshift, IH].
  destruct (match_url (c :: s)) as [url|] eqn:Hm; [|apply Hshift, IH].
  constructor; [|apply Hshift, IH].
  apply match_url_Some in Hm as (rest & Hs & _ & Hparts).
  split; [apply url_parts_shaped, Hparts|].
  exists [], rest. exact Hs.
Qed.

End ReportFacts.

(** X20. When every result has a short link and the report request fails,
    [_generate_comprehensive_report] returns the fallback text: the
    notice, then one line [- title: short link] for each of the first
    three results, in their order, separated by blank lines. It makes the
    one report request and changes no result. *)
Theorem report_fallback_lists_first_three (w : world) (refs : list nat)
    (cs : list candidate) (st : state) :
  results_with_short_links st refs cs ->
  (forall context, reporter w (length (journal st)) context = None) ->
  let o := _generate_comprehensive_report w refs st in
  value_of o
    = Some (fallback_header ++ [10; 10] ++
            join [10; 10] (map basic_line_of (firstn 3 cs))) /\
  store (state_of o) = store st /\
  exists context, journal (state_of o) = journal st ++ [ReportCompletion context].
Proof.
  intros Hall Hfail.
  destruct (build_context_spec w st refs cs 0 ∅ [] Hall) as (url_map & Hbuild & _).
  set (context := [] ++ concat _) in Hbuild.
  assert (Hlines : Forall2 (fun r c => store st !! r = Some c) (firstn 3 refs)
                     (firstn 3 cs)).
  { apply Forall2_take. eapply Forall2_impl; [exact Hall|].
    intros r c [Hc _]. exact Hc. }
  assert (Ho : _generate_comprehensive_report w refs st
               = Ret (fallback_header ++ [10; 10] ++
                      join [10; 10] (map basic_line_of (firstn 3 cs)))
                   (logged (ReportCompletion context) st)).
  { unfold _generate_comprehensive_report. unfold mbind, M_bind at 1.
    rewrite Hbuild. cbv beta iota zeta.
    unfold try_except. unfold mbind, M_bind at 1.
    rewrite (report_completion_fails w context st (Hfail context)).
    cbn [find fst snd is_Exception].
    unfold basic_report. unfold mbind, M_bind at 1.
    rewrite (basic_lines (logged (ReportCompletion context) st) (firstn 3 refs)
               (firstn 3 cs) Hlines).
    reflexivity. }
  cbv zeta. rewrite Ho. cbn [value_of state_of].
  split; [reflexivity|]. split; [reflexivity|]. exists context. reflexivity.
Qed.

Lemma report_fallback_lists_first_three_witness :
  let c := sample_candidate (Some (py "https://tinyurl.com/abc")) in
  let st := state_with c in
  let o := _generate_comprehensive_report recovering_world [0%nat] st in
  results_with_short_links st [0%nat] [c] /\
  value_of o
    = Some (fallback_header ++ [10; 10] ++
            join [10; 10] (map basic_line_of (firstn 3 [c]))) /\
  store (state_of o) = store st /\
  exists context, journal (state_of o) = journal st ++ [ReportCompletion context].
Proof.
  cbv zeta.
  assert (H : results_with_short_links
                (state_with (sample_candidate (Some (py "https://tinyurl.com/abc"))))
                [0%nat] [sample_candidate (Some (py "https://tinyurl.com/abc"))]).
  { constructor; [|constructor]. split; [reflexivity | exact I]. }
  split; [exact H|].
  exact (report_fallback_lists_first_three recovering_world [0%nat]
           [sample_candidate (Some (py "https://tinyurl.com/abc"))]
           (state_with (sample_candidate (Some (py "https://tinyurl.com/abc"))))
           H (fun _ => eq_refl)).
Defined.

(** X21. The consistency pass never raises, whatever the report and the
    URL map. It changes no result and leaves the shortener of the search
    tool alone; its only external calls are shortening requests, for URLs
    that the scan found in the report and that are neither keys nor
    values of the URL map. *)
Theorem consistency_pass_effects (w : world) (url_map : gmap str str) (report : str)
    (st : state) :
  exists final st',
    consistency_pass w url_map report st = Ret final st' /\
    store st' = store st /\
    search_tool_shortener st' = search_tool_shortener st /\
    exists evs, journal st' = journal st ++ evs /\
                Forall (shortens_new_url url_map (findall report)) evs.
Proof. unfold consistency_pass. apply rewrite_urls_effects. Qed.

(** X22. Every URL that the scan of the consistency pass finds is a part
    of the scanned text, and the pattern matches it as a whole: it starts
    with [http://] or [https://] and holds no white space, closing
    parenthesis, closing bracket or quote. *)
Theorem findall_matches (s : str) :
  Forall (fun u => url_shaped u /\ str_in u s = true /\
                   forallb url_char u = true) (findall s).
Proof.
  unfold findall. eapply Forall_impl; [apply findall_from_matches|].
  intros u (Hu & a & b & ->). split; [exact Hu|]. split.
  - apply str_in_middle.
  - apply url_parts_chars, url_shaped_parts, Hu.
Qed.

(** X23. For results that all have a short link, the first loop of
    [_generate_comprehensive_report] changes nothing and makes no external
    call; the context is made of the blocks of the results, in their
    order, numbered from 1; the keys of the URL map are exactly the links
    of the results, and each is mapped to the short link, not empty, of a
    result with that link. *)
Theorem build_context_url_map (w : world) (refs : list nat) (cs : list candidate)
    (st : state) :
  results_with_short_links st refs cs ->
  exists url_map,
    build_context w 0 refs ∅ [] st
    = Ret (url_map,
           concat (imap (fun i c => source_block i c (default [] (short_link c))) cs))
        st /\
    (forall c, In c cs -> is_Some (url_map !! link c)) /\
    (forall u v, url_map !! u = Some v ->
       v <> [] /\ exists c, In c cs /\ link c = u /\ short_link c = Some v).
Proof.
  intros Hall.
  destruct (build_context_spec w st refs cs 0 ∅ [] Hall)
    as (url_map & Heq & _ & Hkeys & Hvals).
  exists url_map. split; [exact Heq|]. split; [exact Hkeys|].
  intros u v Hv. destruct (Hvals u v Hv) as [Hin | (c & Hin & Hl & Hs & Hne)].
  - rewrite lookup_empty in Hin. discriminate.
  - split; [exact Hne|]. exists c. auto.
Qed.

Lemma build_context_url_map_witness :
  let c := sample_candidate (Some (py "https://tinyurl.com/abc")) in
  let st := state_with c in
  results_with_short_links st [0%nat] [c] /\
  exists url_map,
    build_context recovering_world 0 [0%nat] ∅ [] st
    = Ret (url_map,
           concat (imap (fun i c => source_block i c (default [] (short_link c))) [c]))
        st /\
    (forall c', In c' [c] -> is_Some (url_map !! link c')) /\
    (forall u v, url_map !! u = Some v ->
       v <> [] /\ exists c', In c' [c] /\ link c' = u /\ short_link c' = Some v).
Proof.
  cbv zeta.
  assert (H : results_with_short_links
                (state_with (sample_candidate (Some (py "https://tinyurl.com/abc"))))
                [0%nat] [sample_candidate (Some (py "https://tinyurl.com/abc"))]).
  { constructor; [|constructor]. split; [reflexivity | exact I]. }
  split; [exact H|].
  exact (build_context_url_map recovering_world [0%nat]
           [sample_candidate (Some (py "https://tinyurl.com/abc"))]
           (state_with (sample_candidate (Some (py "https://tinyurl.com/abc")))) H).
Defined.
